(** * docker-compose-manager: the project engine, embedded and verified

    The development follows the Go package [docker] (project discovery,
    status, version resolution, update execution, error clean-up, cache
    store) and the part of package [ui] that drives a parallel update batch.

    Go strings are byte sequences: they are [string] values here (one
    [ascii] per byte).  Go [int] values are [Z].  Maps are stdpp [gmap]s.
    External processes, the clock and the cache files live in an explicit
    [World] that every effectful function threads through. *)

From Stdlib Require Import ZArith Ascii String List Bool Lia.
From stdpp Require Import gmap strings list fin_maps pretty.

Set Warnings "-register-all".

Open Scope string_scope.
Open Scope Z_scope.

(** ** The Go [strings] functions the engine calls

    Byte-level models of the functions of Go's standard [strings] package
    used by the source.  Searching and cutting are exact on bytes, as in Go.
    White space is Go's [unicode.IsSpace]: the six ASCII blanks and the
    UTF-8 encodings of U+0085, U+00A0, U+1680, U+2000..U+200A, U+2028,
    U+2029, U+202F, U+205F and U+3000. *)
Module GoStrings.

Definition byte (n : nat) : ascii := ascii_of_nat n.

Definition LF : string := String (byte 10) "".

(** [s[n:]] for [n <= len(s)]. *)
Fixpoint drop (n : nat) (s : string) : string :=
  match n, s with
  | O, _ => s
  | S n', String _ s' => drop n' s'
  | S _, EmptyString => EmptyString
  end.

(** [s[:n]] for [n <= len(s)]. *)
Fixpoint take (n : nat) (s : string) : string :=
  match n, s with
  | O, _ => EmptyString
  | S n', String c s' => String c (take n' s')
  | S _, EmptyString => EmptyString
  end.

Definition HasPrefix (s p : string) : bool := String.prefix p s.

Definition TrimPrefix (s p : string) : string :=
  if HasPrefix s p then drop (String.length p) s else s.

(** [strings.Index]: position of the first occurrence, [None] for Go's -1. *)
Fixpoint Index (s sub : string) : option nat :=
  if HasPrefix s sub then Some O
  else match s with
       | EmptyString => None
       | String _ s' => option_map S (Index s' sub)
       end.

(** [strings.LastIndex]. *)
Fixpoint LastIndex (s sub : string) : option nat :=
  match s with
  | EmptyString => if HasPrefix s sub then Some O else None
  | String _ s' =>
      match LastIndex s' sub with
      | Some i => Some (S i)
      | None => if HasPrefix s sub then Some O else None
      end
  end.

Definition Contains (s sub : string) : bool :=
  match Index s sub with Some _ => true | None => false end.

(** Cut [s] around the first occurrence of [sep]. *)
Definition cut (s sep : string) : option (string * string) :=
  match Index s sep with
  | Some i => Some (take i s, drop (i + String.length sep) s)
  | None => None
  end.

(** Go's [genSplit] for a non-empty separator: at most [n] pieces, the
    last one being the unsplit remainder. *)
Fixpoint genSplit (s sep : string) (n : nat) : list string :=
  match n with
  | O => []
  | S O => [s]
  | S n' =>
      match cut s sep with
      | Some (a, b) => a :: genSplit b sep n'
      | None => [s]
      end
  end.

(** [strings.SplitN(s, sep, n)] for a non-empty [sep]: [n = 0] gives no
    piece, a negative [n] all of them. *)
Definition SplitN (s sep : string) (n : Z) : list string :=
  if n <? 0 then genSplit s sep (S (String.length s))
  else genSplit s sep (Z.to_nat n).

(** [strings.Split(s, sep)] for a non-empty [sep]. *)
Definition Split (s sep : string) : list string := SplitN s sep (-1).

Definition isAsciiSpace (c : ascii) : bool :=
  let n := nat_of_ascii c in
  ((9 <=? n)%nat && (n <=? 13)%nat) || (n =? 32)%nat.

(** The rest of [s] after one leading multi-byte white-space rune. *)
Definition wideSpaceRune (s : string) : option string :=
  match s with
  | String c s1 =>
      match nat_of_ascii c, s1 with
      | 194%nat, String d s2 =>
          let n := nat_of_ascii d in
          if (n =? 133)%nat || (n =? 160)%nat then Some s2 else None
      | 225%nat, String d (String e s3) =>
          if (nat_of_ascii d =? 154)%nat && (nat_of_ascii e =? 128)%nat
          then Some s3 else None
      | 226%nat, String d (String e s3) =>
          let n := nat_of_ascii d in
          let k := nat_of_ascii e in
          if ((n =? 128)%nat &&
              (((128 <=? k)%nat && (k <=? 138)%nat) || (k =? 168)%nat
               || (k =? 169)%nat || (k =? 175)%nat))
             || ((n =? 129)%nat && (k =? 159)%nat)
          then Some s3 else None
      | 227%nat, String d (String e s3) =>
          if (nat_of_ascii d =? 128)%nat && (nat_of_ascii e =? 128)%nat
          then Some s3 else None
      | _, _ => None
      end
  | EmptyString => None
  end.

(** The rest of [s] after one leading white-space rune, if there is one. *)
Definition spaceRune (s : string) : option string :=
  match s with
  | String c s1 => if isAsciiSpace c then Some s1 else wideSpaceRune s
  | EmptyString => None
  end.

(** The same test read from the end of the string: [r] is the reversed
    string, so a rune's bytes arrive last byte first. *)
Definition spaceRuneRev (r : string) : option string :=
  match r with
  | String c r1 =>
      if isAsciiSpace c then Some r1
      else
        match r1 with
        | String d r2 =>
            match wideSpaceRune (String d (String c "")) with
            | Some EmptyString => Some r2
            | _ =>
                match r2 with
                | String e r3 =>
                    match wideSpaceRune (String e (String d (String c ""))) with
                    | Some EmptyString => Some r3
                    | _ => None
                    end
                | EmptyString => None
                end
            end
        | EmptyString => None
        end
  | EmptyString => None
  end.

Fixpoint trimLeftFuel (fuel : nat) (s : string) : string :=
  match fuel with
  | O => s
  | S f => match spaceRune s with
           | Some s' => trimLeftFuel f s'
           | None => s
           end
  end.

Fixpoint trimRightFuel (fuel : nat) (r : string) : string :=
  match fuel with
  | O => r
  | S f => match spaceRuneRev r with
           | Some r' => trimRightFuel f r'
           | None => r
           end
  end.

Definition TrimLeftSpace (s : string) : string :=
  trimLeftFuel (String.length s) s.

Definition TrimRightSpace (s : string) : string :=
  String.rev (trimRightFuel (String.length s) (String.rev s)).

(** [strings.TrimSpace]. *)
Definition TrimSpace (s : string) : string :=
  TrimRightSpace (TrimLeftSpace s).

(** [strings.Fields]: the maximal runs of non-space bytes.  [cur] holds
    the current field reversed and [skip] counts the remaining bytes of
    a multi-byte white-space rune that is being stepped over. *)
Fixpoint fieldsAux (s : string) (skip : nat) (cur : string) : list string :=
  match s with
  | EmptyString => if String.eqb cur "" then [] else [String.rev cur]
  | String c s' =>
      match skip with
      | S k => fieldsAux s' k cur
      | O =>
          match spaceRune s with
          | Some rest =>
              let k := (String.length s' - String.length rest)%nat in
              if String.eqb cur "" then fieldsAux s' k ""
              else String.rev cur :: fieldsAux s' k ""
          | None => fieldsAux s' O (String c cur)
          end
      end
  end.

Definition Fields (s : string) : list string := fieldsAux s O "".

(** [strings.ToLower], exact on every byte that can lower to ASCII: the
    letters A..Z, and the two non-ASCII runes whose lower case is ASCII,
    U+0130 (bytes C4 B0, lower case i) and U+212A (bytes E2 84 AA, lower
    case k).  Go maps the other non-ASCII runes to non-ASCII lower-case
    runes and invalid bytes to U+FFFD; those bytes are left as they are
    here, which changes no ASCII byte of the result. *)
Definition lowerByte (c : ascii) : ascii :=
  let n := nat_of_ascii c in
  if (65 <=? n)%nat && (n <=? 90)%nat then ascii_of_nat (n + 32) else c.

Fixpoint toLowerFuel (fuel : nat) (s : string) : string :=
  match fuel with
  | O => s
  | S f =>
      match s with
      | EmptyString => EmptyString
      | String c s1 =>
          match nat_of_ascii c, s1 with
          | 196%nat, String d s2 =>
              if (nat_of_ascii d =? 176)%nat then String "i" (toLowerFuel f s2)
              else String c (toLowerFuel f s1)
          | 226%nat, String d (String e s3) =>
              if (nat_of_ascii d =? 132)%nat && (nat_of_ascii e =? 170)%nat
              then String "k" (toLowerFuel f s3)
              else String c (toLowerFuel f s1)
          | _, _ => String (lowerByte c) (toLowerFuel f s1)
          end
      end
  end.

Definition ToLower (s : string) : string := toLowerFuel (String.length s) s.

(** [strings.Join]. *)
Fixpoint Join (l : list string) (sep : string) : string :=
  match l with
  | [] => ""
  | [x] => x
  | x :: rest => x ++ sep ++ Join rest sep
  end.

End GoStrings.

Import GoStrings.








(** ** The outside world

    Everything the engine reaches outside its own memory: the external
    commands it runs ([os/exec]), the clock ([time.Now]) and the files of
    the cache store ([os.Stat], [os.ReadFile], [os.WriteFile]). *)

(** How a command's output is collected: [cmd.Output()],
    [cmd.CombinedOutput()] or [cmd.Run()]. *)
Inductive CmdKind := KOutput | KCombinedOutput | KRun.

Record Cmd := mkCmd {
  cmd_name : string;
  cmd_args : list string;
  cmd_dir : string;              (* cmd.Dir, empty when the source leaves it unset *)
  cmd_timeout : option Z;        (* seconds of the context deadline, if any *)
  cmd_kind : CmdKind
}.

(** What a command gives back: the bytes collected, the error ([None] is
    Go's nil) and whether the command's context hit its deadline. *)
Record CmdResult := mkResult {
  res_out : string;
  res_err : option string;
  res_deadline : bool
}.

Record File := mkFile {
  f_data : string;
  f_mtime : Z;                   (* modification time, nanoseconds *)
  f_readable : bool
}.

Record World := mkWorld {
  w_log : list Cmd;                          (* commands run so far, newest first *)
  w_oracle : list Cmd -> Cmd -> CmdResult;   (* the answer to a command, given the history *)
  w_ticks : nat;                             (* clock readings taken so far *)
  w_clock : nat -> Z;                        (* the n-th clock reading, nanoseconds *)
  w_files : gmap string File;
  w_writable : string -> bool                (* can this path be created or overwritten *)
}.

(** State passing: an effectful function takes the world and returns its
    result with the world it leaves behind. *)
Definition M (A : Type) : Type := World -> A * World.

Definition ret {A} (a : A) : M A := fun w => (a, w).

Definition bind {A B} (m : M A) (k : A -> M B) : M B :=
  fun w => let (a, w') := m w in k a w'.

Notation "'let*' x ':=' m 'in' k" := (bind m (fun x => k))
  (at level 10, x pattern, m at level 100, k at level 200).

Definition exec (c : Cmd) : M CmdResult :=
  fun w =>
    (w_oracle w (w_log w) c,
     mkWorld (c :: w_log w) (w_oracle w) (w_ticks w) (w_clock w)
             (w_files w) (w_writable w)).

(** [time.Now()]. *)
Definition time_Now : M Z :=
  fun w =>
    (w_clock w (w_ticks w),
     mkWorld (w_log w) (w_oracle w) (S (w_ticks w)) (w_clock w)
             (w_files w) (w_writable w)).

Definition failed (r : CmdResult) : bool :=
  match res_err r with Some _ => true | None => false end.

(** ** Data model *)

Module ImageInfo.
Record t := mk {
  Name : string;
  CurrentVersion : string;
  LatestVersion : string;
  HasUpdate : bool
}.
End ImageInfo.

Module Project.
(** [ImageInfo] is [None] for Go's nil map. *)
Record t := mk {
  Name : string;
  Path : string;
  ComposeFile : string;
  Status : string;
  RunningContainers : Z;
  Images : list string;
  ImageInfo : option (gmap string ImageInfo.t);
  HasUpdates : bool;
  LastUpdated : Z
}.

Definition setStatus (p : t) (status : string) (running : Z) : t :=
  mk (Name p) (Path p) (ComposeFile p) status running (Images p)
     (ImageInfo p) (HasUpdates p) (LastUpdated p).

Definition setImages (p : t) (images : list string) : t :=
  mk (Name p) (Path p) (ComposeFile p) (Status p) (RunningContainers p)
     images (ImageInfo p) (HasUpdates p) (LastUpdated p).

Definition setImageInfo (p : t) (m : option (gmap string ImageInfo.t)) : t :=
  mk (Name p) (Path p) (ComposeFile p) (Status p) (RunningContainers p)
     (Images p) m (HasUpdates p) (LastUpdated p).

Definition setHasUpdates (p : t) (b : bool) : t :=
  mk (Name p) (Path p) (ComposeFile p) (Status p) (RunningContainers p)
     (Images p) (ImageInfo p) b (LastUpdated p).

Definition setLastUpdated (p : t) (t0 : Z) : t :=
  mk (Name p) (Path p) (ComposeFile p) (Status p) (RunningContainers p)
     (Images p) (ImageInfo p) (HasUpdates p) t0.

(** The entries of the map, none for a nil map. *)
Definition infoMap (p : t) : gmap string ImageInfo.t :=
  match ImageInfo p with Some m => m | None => ∅ end.

(** [p.ImageInfo[k] = v]; the callers make the map first. *)
Definition putInfo (p : t) (k : string) (v : ImageInfo.t) : t :=
  setImageInfo p (Some (<[k := v]> (infoMap p))).
End Project.

#[global] Instance ImageInfo_eq_dec : EqDecision ImageInfo.t.
Proof. solve_decision. Defined.

#[global] Instance Project_eq_dec : EqDecision Project.t.
Proof. solve_decision. Defined.

(** [p.IsRunning()]. *)
Definition IsRunning (p : Project.t) : bool :=
  HasPrefix (Project.Status p) "running:".

(** ** Project status reader *)

Definition composeCmd (dir : string) (args : list string) (k : CmdKind) : Cmd :=
  mkCmd "docker" ("compose" :: args) dir None k.

Definition legacyCmd (dir : string) (args : list string) (k : CmdKind) : Cmd :=
  mkCmd "docker-compose" args dir None k.

(** [len(lines) == 1 && lines[0] == ""]. *)
Definition onlyEmptyLine (lines : list string) : bool :=
  match lines with
  | [l] => String.eqb l ""
  | _ => false
  end.

(** [len(lines) > 0 && lines[0] != ""]. *)
Definition firstLineNonEmpty (lines : list string) : bool :=
  match lines with
  | l :: _ => negb (String.eqb l "")
  | [] => false
  end.

Definition stopped (p : Project.t) : Project.t := Project.setStatus p "stopped" 0.

(** The second half of [UpdateStatus]: count the running services. *)
Definition countRunning (p : Project.t) : M (Project.t * option string) :=
  let args := ["ps"; "--services"; "--filter"; "status=running"] in
  let* r := exec (composeCmd (Project.Path p) args KOutput) in
  let* r := (if failed r then exec (legacyCmd (Project.Path p) args KOutput)
             else ret r) in
  let lines := Split (TrimSpace (res_out r)) LF in
  let running := if firstLineNonEmpty lines then Z.of_nat (List.length lines) else 0 in
  if 0 <? running
  then ret (Project.setStatus p ("running:" ++ pretty running) running, None)
  else ret (Project.setStatus p "stopped" running, None).

(** [p.UpdateStatus()]: the project after the call and the error returned. *)
Definition UpdateStatus (p : Project.t) : M (Project.t * option string) :=
  let args := ["ps"; "--quiet"] in
  let* r := exec (composeCmd (Project.Path p) args KOutput) in
  if failed r then
    let* r2 := exec (legacyCmd (Project.Path p) args KOutput) in
    if failed r2 then ret (stopped p, None)
    else
      if onlyEmptyLine (Split (TrimSpace (res_out r2)) LF) then ret (stopped p, None)
      else countRunning p
  else
    if onlyEmptyLine (Split (TrimSpace (res_out r)) LF) then ret (stopped p, None)
    else countRunning p.

(** ** Image listing *)

(** The loop of [GetImages] that keeps the non-empty lines. *)
Definition nonEmptyLines (lines : list string) : list string :=
  List.filter (fun line => negb (String.eqb line "")) lines.

(** [p.GetImages()]: the project (with [Images] set on success) and either
    the images or the error. *)
Definition GetImages (p : Project.t) : M (Project.t * (list string + string)) :=
  let args := ["config"; "--images"] in
  let* r := exec (composeCmd (Project.Path p) args KOutput) in
  let finish (r : CmdResult) :=
    let images := nonEmptyLines (Split (TrimSpace (res_out r)) LF) in
    (Project.setImages p images, inl images) in
  if failed r then
    let* r2 := exec (legacyCmd (Project.Path p) args KOutput) in
    match res_err r2 with
    | Some e => ret (p, inr e)
    | None => ret (finish r2)
    end
  else ret (finish r).

(** The tag of an image reference: the part after the last colon, or
    [latest] when the reference has no colon. *)
Definition tagOf (imageName : string) : string :=
  if Contains imageName ":" then List.last (Split imageName ":") ""
  else "latest".

(** ** Version resolver *)

Definition genericTags : list string :=
  ["latest"; "stable"; "edge"; "main"; "master"].

(** The loop over [genericTags] that sets [isGeneric]. *)
Fixpoint isGenericIn (tags : list string) (tagVersion : string) : bool :=
  match tags with
  | [] => false
  | tag :: rest =>
      if String.eqb tagVersion tag then true else isGenericIn rest tagVersion
  end.

Definition isDigit (c : ascii) : bool :=
  let n := nat_of_ascii c in (48 <=? n)%nat && (n <=? 57)%nat.

(** The labelled-line test of the probe loop: [Some v] when the loop
    returns [v] at the [version:] branch. *)
Definition versionLabel (line : string) : option string :=
  if Contains (ToLower line) "version:" then
    match SplitN line ":" 2 with
    | [_; p1] =>
        let version := TrimSpace p1 in
        if negb (String.eqb version "") then Some version else None
    | _ => None
    end
  else None.

(** The inner loop over [strings.Fields(line)]. *)
Fixpoint versionToken (fields : list string) : option string :=
  match fields with
  | [] => None
  | field0 :: rest =>
      let field := TrimPrefix (TrimPrefix field0 "v") "V" in
      if Contains field "." &&
         match field with String c _ => isDigit c | EmptyString => false end
      then Some field
      else versionToken rest
  end.

(** One pass of the loop body over a line. *)
Definition versionOfLine (line0 : string) : option string :=
  let line := TrimSpace line0 in
  match versionLabel line with
  | Some v => Some v
  | None => versionToken (Fields line)
  end.

(** The loop over the inspected lines. *)
Fixpoint versionOfLines (lines : list string) : option string :=
  match lines with
  | [] => None
  | line :: rest =>
      match versionOfLine line with
      | Some v => Some v
      | None => versionOfLines rest
      end
  end.

(** The lines the probe looks at: [lines[:min(3, len(lines))]]. *)
Definition inspectedLines (output : string) : list string :=
  let lines := Split (TrimSpace output) LF in
  firstn (Nat.min 3 (List.length lines)) lines.

Definition probeVersion (output : string) : option string :=
  versionOfLines (inspectedLines output).

Definition runVersionCmd (imageName : string) : Cmd :=
  mkCmd "docker" ["run"; "--rm"; imageName; "--version"] "" (Some 5) KOutput.

Definition inspectLabelsCmd (imageName : string) : Cmd :=
  mkCmd "docker"
        ["image"; "inspect"; imageName; "--format"; "{{json .Config.Labels}}"]
        "" None KOutput.

Section Engine.

(** [json.Unmarshal] into a [map[string]string], from Go's
    [encoding/json]; [None] is a decoding error. *)
Variable json_Unmarshal_labels : string -> option (gmap string string).

(** A label that is present and not empty. *)
Definition nonEmptyLabel (labels : gmap string string) (key : string)
  : option string :=
  match labels !! key with
  | Some version => if negb (String.eqb version "") then Some version else None
  | None => None
  end.

(** The label checks of the fallback, in the order of the source: the
    OCI label (which must also differ from the tag), then [version],
    then [VERSION]. *)
Definition versionFromLabels (labels : gmap string string)
           (tagVersion : string) : option string :=
  match nonEmptyLabel labels "org.opencontainers.image.version" with
  | Some version =>
      if negb (String.eqb version tagVersion) then Some version
      else
        match nonEmptyLabel labels "version" with
        | Some v => Some v
        | None => nonEmptyLabel labels "VERSION"
        end
  | None =>
      match nonEmptyLabel labels "version" with
      | Some v => Some v
      | None => nonEmptyLabel labels "VERSION"
      end
  end.

Definition labelFallback (imageName tagVersion : string) : M string :=
  let* r := exec (inspectLabelsCmd imageName) in
  if failed r then ret tagVersion
  else
    match json_Unmarshal_labels (res_out r) with
    | Some labels =>
        match versionFromLabels labels tagVersion with
        | Some v => ret v
        | None => ret tagVersion
        end
    | None => ret tagVersion
    end.

Definition getRealVersion (imageName tagVersion : string) : M string :=
  if negb (isGenericIn genericTags tagVersion) then ret tagVersion
  else
    let* r := exec (runVersionCmd imageName) in
    if failed r then labelFallback imageName tagVersion
    else
      match probeVersion (res_out r) with
      | Some v => ret v
      | None => labelFallback imageName tagVersion
      end.

(** ** Versions of the running containers *)

(** The project with a non-nil [ImageInfo] map. *)
Definition ensureInfo (p : Project.t) : Project.t :=
  match Project.ImageInfo p with
  | Some _ => p
  | None => Project.setImageInfo p (Some ∅)
  end.

Definition psImagesCmd (p : Project.t) : Cmd :=
  mkCmd "docker"
        ["ps"; "--filter"; "label=com.docker.compose.project=" ++ Project.Name p;
         "--format"; "{{.Image}}"]
        "" None KOutput.

(** The loop of [GetRunningContainerInfo] over the output lines. *)
Fixpoint recordRunning (lines : list string) (p : Project.t) : M Project.t :=
  match lines with
  | [] => ret p
  | line :: rest =>
      let imageName := TrimSpace line in
      if String.eqb imageName "" then recordRunning rest p
      else
        let tagVersion := tagOf imageName in
        let* currentVersion :=
          getRealVersion imageName tagVersion in
        recordRunning rest
          (Project.putInfo p imageName
             (ImageInfo.mk imageName currentVersion currentVersion false))
  end.

Definition GetRunningContainerInfo (p : Project.t)
  : M (Project.t * option string) :=
  let p := ensureInfo p in
  let* r := exec (psImagesCmd p) in
  match res_err r with
  | Some e => ret (p, Some e)
  | None =>
      let* p' := recordRunning (Split (TrimSpace (res_out r)) LF) p in
      ret (p', None)
  end.

End Engine.


(** ** Update check *)

Definition imageIDCmd (imageName : string) : Cmd :=
  mkCmd "docker" ["images"; imageName; "--format"; "{{.ID}}"] "" None KOutput.

Definition pullImageCmd (dir imageName : string) : Cmd :=
  mkCmd "docker" ["pull"; "--quiet"; imageName] dir (Some 120) KCombinedOutput.

(** One pass of the loop of [UpdateImageInfo]: the project with the entry
    of [imageName] written, and the value of [hasUpdates] after the pass. *)
Definition checkImage (imageName : string) (p : Project.t) (hasUpdates : bool)
  : M (Project.t * bool) :=
  let currentTag := tagOf imageName in
  let* r := exec (imageIDCmd imageName) in
  let currentID := TrimSpace (res_out r) in
  if failed r || String.eqb currentID "" then
    ret (Project.putInfo p imageName
           (ImageInfo.mk imageName currentTag "not pulled" true), true)
  else
    let* rp := exec (pullImageCmd (Project.Path p) imageName) in
    let finish (latestID : string) :=
      let hasUpdate := negb (String.eqb currentID latestID)
                       && negb (String.eqb latestID "") in
      let latestVersion := if hasUpdate then currentTag ++ " (newer)" else currentTag in
      (Project.putInfo p imageName
         (ImageInfo.mk imageName currentTag latestVersion hasUpdate),
       if hasUpdate then true else hasUpdates) in
    if negb (failed rp) then
      let* r2 := exec (imageIDCmd imageName) in
      ret (finish (TrimSpace (res_out r2)))
    else if res_deadline rp then
      ret (Project.putInfo p imageName
             (ImageInfo.mk imageName currentTag "timeout" false), hasUpdates)
    else ret (finish "").

Fixpoint checkImages (images : list string) (p : Project.t) (hasUpdates : bool)
  : M (Project.t * bool) :=
  match images with
  | [] => ret (p, hasUpdates)
  | imageName :: rest =>
      let* (p', h') := checkImage imageName p hasUpdates in
      checkImages rest p' h'
  end.

Definition UpdateImageInfo (p : Project.t) : M (Project.t * option string) :=
  let p := ensureInfo p in
  let* (p1, res) := GetImages p in
  match res with
  | inr e => ret (p1, Some e)
  | inl images =>
      let* (p2, hasUpdates) := checkImages images p1 false in
      ret (Project.setHasUpdates p2 hasUpdates, None)
  end.

(** [p.CheckForUpdates()]. *)
Definition CheckForUpdates (p : Project.t) : bool * option string :=
  (Project.HasUpdates p, None).

(** Some entry of the [ImageInfo] map has [HasUpdate] set. *)
Definition anyImageUpdate (p : Project.t) : Prop :=
  exists k i, Project.infoMap p !! k = Some i /\ ImageInfo.HasUpdate i = true.

(** The aggregate flag agrees with the entries. *)
Definition aggregateAgrees (p : Project.t) : Prop :=
  Project.HasUpdates p = true <-> anyImageUpdate p.

(** ** Error clean-up *)

(** Progress bars and informational output. *)
Definition isProgressLine (line : string) : bool :=
  Contains line "Pulling" || Contains line "Downloaded" ||
  Contains line "Digest:" || Contains line "Status:" ||
  Contains line "Waiting" || Contains line "Extracting".

(** Python traceback noise. *)
Definition isTracebackNoise (line : string) : bool :=
  HasPrefix line "Traceback" || HasPrefix line "File " ||
  Contains line "raise error_to_reraise" || Contains line "raise err from" ||
  (Contains line "line " && Contains line ".py").

(** The [Error:] / [Exception:] branch: [Some l] when the loop stores the
    single line [l] and breaks. *)
Definition exceptionLine (line : string) : option string :=
  if Contains line "Error:" || Contains line "Exception:" then
    match SplitN line ":" 2 with
    | [p0; p1] =>
        let errorType := TrimSpace p0 in
        let errorMsg := TrimSpace p1 in
        let errorType :=
          match LastIndex errorType "." with
          | Some idx => drop (idx + 1) errorType
          | None => errorType
          end in
        Some (errorType ++ ": " ++ errorMsg)
    | _ => None
    end
  else None.

(** The test that appends a line to [relevantLines]. *)
Definition isErrorLine (line : string) : bool :=
  (Contains line "Error" || Contains line "error" ||
   Contains line "failed" || Contains line "cannot")
  && negb (Contains line "Traceback").

(** The loop of [cleanDockerError] over the output lines, [relevant] being
    [relevantLines] so far. *)
Fixpoint scanLines (lines : list string) (relevant : list string) : list string :=
  match lines with
  | [] => relevant
  | line0 :: rest =>
      let line := TrimSpace line0 in
      if String.eqb line "" then scanLines rest relevant
      else if isProgressLine line then scanLines rest relevant
      else if isTracebackNoise line then scanLines rest relevant
      else
        match exceptionLine line with
        | Some l => [l]
        | None =>
            if isErrorLine line then scanLines rest (relevant ++ [line])
            else scanLines rest relevant
        end
  end.

(** The backwards loop for the last non-empty line: [lines] is given last
    line first. *)
Fixpoint lastNonEmpty (revLines : list string) : list string :=
  match revLines with
  | [] => []
  | l :: rest => if negb (String.eqb l "") then [l] else lastNonEmpty rest
  end.

(** [relevantLines[len(relevantLines)-1:]] when there is more than one. *)
Definition keepLast (relevant : list string) : list string :=
  match relevant with
  | _ :: _ :: _ => [List.last relevant ""]
  | _ => relevant
  end.

(** Remove the command echo in front of the message. *)
Definition stripEcho (errorMsg : string) : string :=
  if Contains errorMsg "docker" &&
     (Contains errorMsg "Error" || Contains errorMsg "error")
  then
    match Index errorMsg "Error" with
    | Some idx => drop idx errorMsg
    | None =>
        match Index errorMsg "error" with
        | Some idx => drop idx errorMsg
        | None => errorMsg
        end
    end
  else errorMsg.

(** [cleanDockerError(operation, output, err)]: the message of the error
    it returns; [err] is the message of the error passed in. *)
Definition cleanDockerError (operation output err : string) : string :=
  let lines := Split (TrimSpace output) LF in
  let relevant := scanLines lines [] in
  let relevant :=
    match relevant with
    | [] => lastNonEmpty (List.rev lines)
    | _ => relevant
    end in
  match keepLast relevant with
  | errorMsg :: _ => operation ++ " failed: " ++ stripEcho errorMsg
  | [] => operation ++ " failed: " ++ err
  end.

(** A line that the loop of [cleanDockerError] passes without stopping:
    after trimming it is empty, progress output or traceback noise, or it
    contains neither [Error:] nor [Exception:]. *)
Definition passedOver (line0 : string) : bool :=
  let line := TrimSpace line0 in
  String.eqb line "" || isProgressLine line || isTracebackNoise line ||
  negb (Contains line "Error:" || Contains line "Exception:").

(** ** Update executor *)

(** [p.PullOnly()]. *)
Definition PullOnly (p : Project.t) : M (Project.t * option string) :=
  let* r := exec (composeCmd (Project.Path p) ["pull"] KCombinedOutput) in
  if failed r then
    let* r2 := exec (legacyCmd (Project.Path p) ["pull"] KCombinedOutput) in
    match res_err r2 with
    | Some e => ret (p, Some (cleanDockerError "pull" (res_out r2) e))
    | None => UpdateStatus p
    end
  else UpdateStatus p.

(** The part of [Update] after a successful pull. *)
Definition recreate (p : Project.t) : M (Project.t * option string) :=
  let* _ := exec (composeCmd (Project.Path p) ["down"; "--remove-orphans"] KRun) in
  let args := ["up"; "-d"; "--force-recreate"; "--remove-orphans"] in
  let finish :=
    let* now := time_Now in
    UpdateStatus (Project.setLastUpdated (Project.setHasUpdates p false) now) in
  let* r := exec (composeCmd (Project.Path p) args KCombinedOutput) in
  if failed r then
    let* r2 := exec (legacyCmd (Project.Path p) args KCombinedOutput) in
    match res_err r2 with
    | Some e => ret (p, Some (cleanDockerError "recreate" (res_out r2) e))
    | None => finish
    end
  else finish.

(** [p.Update()]. *)
Definition Update (p : Project.t) : M (Project.t * option string) :=
  let* r := exec (composeCmd (Project.Path p) ["pull"] KCombinedOutput) in
  if failed r then
    let* r2 := exec (legacyCmd (Project.Path p) ["pull"] KCombinedOutput) in
    match res_err r2 with
    | Some e => ret (p, Some (cleanDockerError "pull" (res_out r2) e))
    | None => recreate p
    end
  else recreate p.

(** [p.Start()], [p.Stop()], [p.Restart()]. *)
Definition Start (p : Project.t) : M (Project.t * option string) :=
  let* r := exec (composeCmd (Project.Path p) ["up"; "-d"] KCombinedOutput) in
  if failed r then
    let* r2 := exec (legacyCmd (Project.Path p) ["up"; "-d"] KCombinedOutput) in
    if failed r2 then ret (p, Some ("failed to start: " ++ res_out r2))
    else UpdateStatus p
  else UpdateStatus p.

Definition Stop (p : Project.t) : M (Project.t * option string) :=
  let* r := exec (composeCmd (Project.Path p) ["down"] KCombinedOutput) in
  if failed r then
    let* r2 := exec (legacyCmd (Project.Path p) ["down"] KCombinedOutput) in
    if failed r2 then ret (p, Some ("failed to stop: " ++ res_out r2))
    else ret (stopped p, None)
  else ret (stopped p, None).

Definition Restart (p : Project.t) : M (Project.t * option string) :=
  let* r := exec (composeCmd (Project.Path p) ["restart"] KCombinedOutput) in
  if failed r then
    let* r2 := exec (legacyCmd (Project.Path p) ["restart"] KCombinedOutput) in
    if failed r2 then ret (p, Some ("failed to restart: " ++ res_out r2))
    else UpdateStatus p
  else UpdateStatus p.

(** ** Paths and the directory walk

    Models of the functions of Go's [path/filepath] that [FindProjects]
    calls, for the Unix separator. *)
Module filepath.

Definition Separator : string := "/".

(** The element stack of [Clean]: [stack] holds the kept elements, last
    one first.  Empty elements and [.] are dropped, [..] removes the
    element before it, is dropped at the root of a rooted path and is
    kept at the start of a relative one. *)
Fixpoint cleanElems (rooted : bool) (elems stack : list string) : list string :=
  match elems with
  | [] => List.rev stack
  | e :: rest =>
      if String.eqb e "" || String.eqb e "." then cleanElems rooted rest stack
      else if String.eqb e ".." then
        match stack with
        | top :: below =>
            if String.eqb top ".." then cleanElems rooted rest (e :: stack)
            else cleanElems rooted rest below
        | [] =>
            if rooted then cleanElems rooted rest []
            else cleanElems rooted rest [e]
        end
      else cleanElems rooted rest (e :: stack)
  end.

Definition Clean (path : string) : string :=
  if String.eqb path "" then "."
  else
    let rooted := HasPrefix path Separator in
    let kept := cleanElems rooted (Split path Separator) [] in
    if rooted then Separator ++ Join kept Separator
    else match kept with
         | [] => "."
         | _ => Join kept Separator
         end.

(** [filepath.Join]: empty elements are ignored, the rest is joined
    and cleaned. *)
Definition Join (elems : list string) : string :=
  match List.filter (fun e => negb (String.eqb e "")) elems with
  | [] => ""
  | kept => Clean (GoStrings.Join kept Separator)
  end.

(** [filepath.Dir]. *)
Definition Dir (path : string) : string :=
  match LastIndex path Separator with
  | Some i => Clean (take (i + 1) path)
  | None => Clean ""
  end.

Fixpoint stripSlashesRev (r : string) : string :=
  match r with
  | String c r' => if Ascii.eqb c "/" then stripSlashesRev r' else r
  | EmptyString => EmptyString
  end.

(** [filepath.Base]. *)
Definition Base (path : string) : string :=
  if String.eqb path "" then "."
  else
    let path := String.rev (stripSlashesRev (String.rev path)) in
    let path := match LastIndex path Separator with
                | Some i => drop (i + 1) path
                | None => path
                end in
    if String.eqb path "" then Separator else path.

(** The elements of a cleaned path, without the leading separator of a
    rooted one. *)
Definition elemsOf (cleaned : string) : list string :=
  if String.eqb cleaned "." then []
  else
    List.filter (fun e => negb (String.eqb e "")) (Split cleaned Separator).

Fixpoint dropCommon (base targ : list string) : list string * list string :=
  match base, targ with
  | b :: base', t :: targ' =>
      if String.eqb b t then dropCommon base' targ' else (base, targ)
  | _, _ => (base, targ)
  end.

(** [filepath.Rel]: [None] is the error case. *)
Definition Rel (basepath targpath : string) : option string :=
  let base := Clean basepath in
  let targ := Clean targpath in
  if String.eqb targ base then Some "."
  else if negb (Bool.eqb (HasPrefix base Separator) (HasPrefix targ Separator))
  then None
  else
    let (b, t) := dropCommon (elemsOf base) (elemsOf targ) in
    match b with
    | first :: _ =>
        if String.eqb first ".." then None
        else Some (GoStrings.Join (List.map (fun _ => "..") b ++ t) Separator)
    | [] => Some (GoStrings.Join t Separator)
    end.

(** What [os.Lstat] and [readDirNames] find at a path: an entry that
    is not a directory, a directory with its entries in the order
    [readDirNames] returns them ([None] when the directory cannot be
    read), or an entry on which [Lstat] fails. *)
Inductive Node :=
| File (name : string)
| Directory (name : string) (entries : option (list Node))
| Broken (name : string).

Record FileInfo := mkInfo { fi_Name : string; fi_IsDir : bool }.

Definition nodeName (n : Node) : string :=
  match n with
  | File name => name
  | Directory name _ => name
  | Broken name => name
  end.

Definition nodeIsDir (n : Node) : bool :=
  match n with Directory _ _ => true | _ => false end.

(** The errors a walk function can return. *)
Inductive WalkErr := SkipDir | SkipAll | OtherErr (msg : string).

Definition isSkipDir (e : WalkErr) : bool :=
  match e with SkipDir => true | _ => false end.

Section Walk.
Context {A : Type}.

(** The walk function: path, file info (nil when [Lstat] failed),
    incoming error; [A] is the state its closure captures. *)
Variable walkFn :
  string -> option FileInfo -> option string -> A -> M (A * option WalkErr).

(** [filepath.walk]. *)
Fixpoint walk (path : string) (n : Node) (acc : A) : M (A * option WalkErr) :=
  match n with
  | File name => walkFn path (Some (mkInfo name false)) None acc
  | Broken name => walkFn path None (Some "lstat failed") acc
  | Directory name None =>
      walkFn path (Some (mkInfo name true)) (Some "cannot read directory") acc
  | Directory name (Some entries) =>
      let* (acc1, err1) := walkFn path (Some (mkInfo name true)) None acc in
      match err1 with
      | Some e => ret (acc1, Some e)
      | None =>
          (fix loop (l : list Node) (acc : A) : M (A * option WalkErr) :=
             match l with
             | [] => ret (acc, None)
             | child :: rest =>
                 let filename := Join [path; nodeName child] in
                 let* (acc', err) := walk filename child acc in
                 match err with
                 | None => loop rest acc'
                 | Some e =>
                     match child with
                     | Broken _ =>
                         if isSkipDir e then loop rest acc' else ret (acc', Some e)
                     | _ =>
                         if nodeIsDir child && isSkipDir e then loop rest acc'
                         else ret (acc', Some e)
                     end
                 end
             end) entries acc1
      end
  end.

(** [filepath.Walk]: [SkipDir] and [SkipAll] coming out of the walk are
    not errors. *)
Definition Walk (root : string) (tree : Node) (acc : A) : M (A * option string) :=
  let* (acc', err) := walk root tree acc in
  match err with
  | Some (OtherErr msg) => ret (acc', Some msg)
  | _ => ret (acc', None)
  end.
End Walk.

End filepath.






(** ** Project discovery *)

Inductive FindErr :=
| SearchFailed (cause : string)     (* "failed to search for projects: %w" *)
| NoProjects (searchDir : string).  (* "no docker-compose projects found in %s" *)

Definition FindErr_Error (e : FindErr) : string :=
  match e with
  | SearchFailed cause => "failed to search for projects: " ++ cause
  | NoProjects searchDir => "no docker-compose projects found in " ++ searchDir
  end.

(** A path element as a directory listing holds it: not empty, without
    separator, and neither [.] nor [..]. *)
Definition plainName (s : string) : bool :=
  negb (String.eqb s "") && negb (Contains s "/") &&
  negb (String.eqb s ".") && negb (String.eqb s "..").

Definition nonEmpty (e : string) : bool := negb (String.eqb e "").

(** The clean absolute path with the given elements. *)
Definition absPath (elems : list string) : string := "/" ++ Join elems "/".

(** The accepted file names. *)
Definition isComposeName (name : string) : bool :=
  String.eqb name "docker-compose.yml" || String.eqb name "docker-compose.yaml" ||
  String.eqb name "compose.yml" || String.eqb name "compose.yaml".

(** The test the walk function makes on the name of a non-directory entry:
    an accepted name that is not a control file. *)
Definition acceptsName (name : string) : bool :=
  if isComposeName name then
    if Contains name "control" then false else true
  else false.

(** [len(strings.Split(relPath, string(os.PathSeparator)))]; the error of
    [filepath.Rel] is dropped and leaves [relPath] empty. *)
Definition depthOf (searchDir path : string) : Z :=
  let relPath := match filepath.Rel searchDir path with
                 | Some r => r
                 | None => ""
                 end in
  Z.of_nat (List.length (Split relPath filepath.Separator)).

(** The project built for a compose file at [path]. *)
Definition newProject (path : string) (now : Z) : Project.t :=
  let projectDir := filepath.Dir path in
  let projectName := filepath.Base projectDir in
  Project.mk projectName projectDir path "" 0 [] None false now.

(** The function [FindProjects] passes to [filepath.Walk]; [projects] is
    the slice its closure appends to. *)
Definition findWalkFn (accept : string -> bool) (searchDir : string) (maxDepth : Z)
           (path : string) (info : option filepath.FileInfo) (err : option string)
           (projects : list Project.t)
  : M (list Project.t * option filepath.WalkErr) :=
  match err, info with
  | Some _, _ => ret (projects, None)
  | None, None => ret (projects, None)   (* Walk passes no nil info without an error *)
  | None, Some info =>
      if maxDepth <? depthOf searchDir path then
        if filepath.fi_IsDir info then ret (projects, Some filepath.SkipDir)
        else ret (projects, None)
      else if negb (filepath.fi_IsDir info) && accept (filepath.fi_Name info) then
        let* now := time_Now in
        let* (project, uerr) := UpdateStatus (newProject path now) in
        match uerr with
        | None => ret ((projects ++ [project])%list, None)
        | Some _ => ret (projects, None)
        end
      else ret (projects, None)
  end.

Definition FindProjectsWith (accept : string -> bool) (tree : filepath.Node)
           (searchDir : string) (maxDepth : Z)
  : M (list Project.t + FindErr) :=
  let* (projects, err) :=
    filepath.Walk (findWalkFn accept searchDir maxDepth) searchDir tree [] in
  match err with
  | Some e => ret (inr (SearchFailed e))
  | None =>
      match projects with
      | [] => ret (inr (NoProjects searchDir))
      | _ => ret (inl projects)
      end
  end.

(** [FindProjects(searchDir, maxDepth)] on the directory tree [tree] found
    at [searchDir]. *)
Definition FindProjects := FindProjectsWith acceptsName.

(** Discovery without the control-file check: the walk function accepts
    every file whose name is one of the four accepted names. *)
Definition FindProjectsNoControlCheck := FindProjectsWith isComposeName.

(** What a walk function may return without stopping the walk: nil or
    [SkipDir]. *)
Definition benign (e : option filepath.WalkErr) : Prop :=
  e = None \/ e = Some filepath.SkipDir.

(** ** Cache store *)

(** [time.Duration] is a signed 64-bit count of nanoseconds; [Time.Sub]
    saturates at its bounds. *)
Definition minDuration : Z := - 2 ^ 63.
Definition maxDuration : Z := 2 ^ 63 - 1.

Definition saturate (d : Z) : Z := Z.max minDuration (Z.min maxDuration d).

(** [time.Since(t)], that is [time.Now().Sub(t)]. *)
Definition time_Since (t : Z) : M Z :=
  let* now := time_Now in ret (saturate (now - t)).

(** [os.Stat]: the file's record, or [None] when there is no such file. *)
Definition os_Stat (path : string) : M (option File) :=
  fun w => (w_files w !! path, w).

(** [os.ReadFile]: the content, or the error. *)
Definition os_ReadFile (path : string) : M (string + string) :=
  fun w =>
    match w_files w !! path with
    | Some f => if f_readable f then (inl (f_data f), w)
                else (inr "permission denied", w)
    | None => (inr "no such file or directory", w)
    end.

(** [os.WriteFile(path, data, 0644)]: creates the file or replaces its
    content (an existing file keeps its permissions) and stamps it with
    the current time. *)
Definition os_WriteFile (path data : string) : M (option string) :=
  fun w =>
    if w_writable w path then
      let readable := match w_files w !! path with
                      | Some f => f_readable f
                      | None => true
                      end in
      let f := mkFile data (w_clock w (w_ticks w)) readable in
      (None, mkWorld (w_log w) (w_oracle w) (S (w_ticks w)) (w_clock w)
                     (<[path := f]> (w_files w)) (w_writable w))
    else (Some "permission denied", w).

Inductive SaveErr :=
| MarshalFailed (cause : string)    (* "failed to marshal projects: %w" *)
| WriteFailed (cause : string).     (* "failed to write cache file: %w" *)

Inductive LoadErr :=
| CacheNotFound                     (* "cache file not found" *)
| CacheExpired                      (* "cache expired" *)
| ReadFailed (cause : string)       (* "failed to read cache: %w" *)
| UnmarshalFailed (cause : string). (* "failed to unmarshal cache: %w" *)

Section Cache.

(** [json.MarshalIndent(projects, "", "  ")] and [json.Unmarshal] into a
    [[]*Project], from Go's [encoding/json]; [inr] is the error. *)
Variable json_MarshalIndent : list Project.t -> string + string.
Variable json_Unmarshal : string -> list Project.t + string.

Definition SaveToCache (projects : list Project.t) (cacheFile : string)
  : M (option SaveErr) :=
  match json_MarshalIndent projects with
  | inr e => ret (Some (MarshalFailed e))
  | inl data =>
      let* werr := os_WriteFile cacheFile data in
      match werr with
      | Some e => ret (Some (WriteFailed e))
      | None => ret None
      end
  end.

Definition LoadFromCache (cacheFile : string) (maxAge : Z)
  : M (list Project.t + LoadErr) :=
  let* info := os_Stat cacheFile in
  match info with
  | None => ret (inr CacheNotFound)
  | Some info =>
      let* age := time_Since (f_mtime info) in
      if maxAge <? age then ret (inr CacheExpired)
      else
        let* data := os_ReadFile cacheFile in
        match data with
        | inr e => ret (inr (ReadFailed e))
        | inl data =>
            match json_Unmarshal data with
            | inr e => ret (inr (UnmarshalFailed e))
            | inl projects => ret (inl projects)
            end
        end
  end.

End Cache.

(** ** The parallel update batch of the interactive shell *)
Module ui.

Inductive Screen :=
| ScreenMainMenu | ScreenContainerList | ScreenContainerDetail
| ScreenActionMenu | ScreenUpdateList | ScreenUpdateModeSelect
| ScreenUpdateRestartConfirm | ScreenUpdateConfirm | ScreenUpdating
| ScreenLoading | ScreenHelp | ScreenConfirmExit.

(** The fields of [Model] that the update batch reads or writes.  The two
    status maps are shared by every copy of the model, as Go maps are. *)
Record Model := mkModel {
  projects : list Project.t;
  screen : Screen;
  cursor : Z;
  selectedUpdates : gmap Z bool;
  selectedRestarts : gmap Z bool;
  updateMode : string;
  loading : bool;
  updateProgress : string;
  updatesTotal : Z;
  updatesCompleted : Z;
  projectUpdateStatus : gmap Z string;
  projectUpdateResult : gmap Z string;
  currentUpdateIndex : Z;
  viewportOffset : Z
}.

Inductive Msg :=
| updateCompleteMsg (projectIndex : Z) (projectName : string)
                    (success : bool) (err : option string)
| allUpdatesCompleteMsg
| tickMsg.

(** The commands handed back to the runtime: one update task per project,
    and the view ticker. *)
Inductive Cmd :=
| UpdateTask (idx : Z) (restart : bool) (updateMode : string)
| Tick.

(** What the task [UpdateTask idx restart mode] does to its project, and
    the message it sends. *)
Definition runTask (idx : Z) (restart : bool) (mode : string) (p : Project.t)
  : M (Project.t * Msg) :=
  let* (p', err) :=
    (if String.eqb mode "pull" then PullOnly p
     else if restart then Update p
     else PullOnly p) in
  ret (p', updateCompleteMsg idx (Project.Name p)
             (match err with None => true | Some _ => false end) err).

(** Go [int] on a 64-bit platform. *)
Definition wrapInt (z : Z) : Z := (z + 2 ^ 63) mod 2 ^ 64 - 2 ^ 63.

(** [len(m)] of a map. *)
Definition len {V} (m : gmap Z V) : Z := Z.of_nat (size m).

Definition checkMark : string :=
  String (byte 226) (String (byte 156) (String (byte 147) "")).
Definition crossMark : string :=
  String (byte 226) (String (byte 156) (String (byte 151) "")).

(** [%v] of an error value. *)
Definition showErr (err : option string) : string :=
  match err with Some e => e | None => "<nil>" end.

(** The block that every start of a batch runs: counters reset, every
    selected project set to [pending]. *)
Definition beginUpdates (m : Model) : Model :=
  let keys := (map_to_list (selectedUpdates m)).*1 in
  mkModel (projects m) ScreenUpdating (cursor m) (selectedUpdates m)
          (selectedRestarts m) (updateMode m) true ""
          (len (selectedUpdates m)) 0
          (foldr (fun idx st => <[idx := "pending"]> st) ∅ keys)
          (foldr (fun idx st => <[idx := ""]> st) ∅ keys)
          (-1) (viewportOffset m).

(** One pass of the loop of [performUpdates]; [None] is the run-time panic
    of [m.projects[idx]] on a negative index. *)
Definition dispatch (m : Model) (idx : Z)
           (acc : option (gmap Z string * list Cmd))
  : option (gmap Z string * list Cmd) :=
  match acc with
  | None => None
  | Some (status, cmds) =>
      if Z.of_nat (List.length (projects m)) <=? idx then Some (status, cmds)
      else if idx <? 0 then None
      else
        let shouldRestart := default false (selectedRestarts m !! idx) in
        Some (<[idx := "updating"]> status,
              (cmds ++ [UpdateTask idx shouldRestart (updateMode m)])%list)
  end.

(** [m.performUpdates()]: the model as the caller sees it afterwards (the
    status map is shared) and the batch of tasks. *)
Definition performUpdates (m : Model) : option (Model * list Cmd) :=
  let keys := (map_to_list (selectedUpdates m)).*1 in
  match foldr (dispatch m) (Some (projectUpdateStatus m, [])) keys with
  | None => None
  | Some (status, cmds) =>
      Some (mkModel (projects m) (screen m) (cursor m) (selectedUpdates m)
                    (selectedRestarts m) (updateMode m) (loading m)
                    (updateProgress m) (updatesTotal m) (updatesCompleted m)
                    status (projectUpdateResult m) (currentUpdateIndex m)
                    (viewportOffset m),
            cmds)
  end.

Definition withUpdateMode (m : Model) (mode : string) : Model :=
  mkModel (projects m) (screen m) (cursor m) (selectedUpdates m)
          (selectedRestarts m) mode (loading m) (updateProgress m)
          (updatesTotal m) (updatesCompleted m) (projectUpdateStatus m)
          (projectUpdateResult m) (currentUpdateIndex m) (viewportOffset m).

Definition withTick (r : option (Model * list Cmd)) : option (Model * list Cmd) :=
  match r with
  | Some (m, cmds) => Some (m, (cmds ++ [Tick])%list)
  | None => None
  end.

(** The ways [handleEnter] starts a batch: pull only (mode selection,
    cursor on the first line), after the restart selection, and from the
    old confirmation screen. *)
Definition startPullOnly (m : Model) : option (Model * list Cmd) :=
  performUpdates (beginUpdates (withUpdateMode m "pull")).

Definition startAfterRestartConfirm (m : Model) : option (Model * list Cmd) :=
  withTick (performUpdates (beginUpdates m)).

(** The cases of [handleEnter] on the screens of the update flow; the
    result is [None] when [performUpdates] panics.  The other screens are
    not part of the batch and are left out. *)
Definition handleEnter (m : Model) : option (Model * list Cmd) :=
  match screen m with
  | ScreenUpdateList =>
      if 0 <? len (selectedUpdates m) then
        Some (mkModel (projects m) ScreenUpdateModeSelect 0 (selectedUpdates m)
                      (selectedRestarts m) (updateMode m) (loading m)
                      (updateProgress m) (updatesTotal m) (updatesCompleted m)
                      (projectUpdateStatus m) (projectUpdateResult m)
                      (currentUpdateIndex m) (viewportOffset m), [])
      else Some (m, [])
  | ScreenUpdateModeSelect =>
      if cursor m =? 0 then startPullOnly m
      else
        Some (mkModel (projects m) ScreenUpdateRestartConfirm 0 (selectedUpdates m)
                      (const true <$> selectedUpdates m) "restart" (loading m)
                      (updateProgress m) (updatesTotal m) (updatesCompleted m)
                      (projectUpdateStatus m) (projectUpdateResult m)
                      (currentUpdateIndex m) (viewportOffset m), [])
  | ScreenUpdateRestartConfirm => startAfterRestartConfirm m
  | ScreenUpdateConfirm =>
      if cursor m =? 0 then startAfterRestartConfirm m
      else
        Some (mkModel (projects m) ScreenUpdateList 0 (selectedUpdates m)
                      (selectedRestarts m) (updateMode m) (loading m)
                      (updateProgress m) (updatesTotal m) (updatesCompleted m)
                      (projectUpdateStatus m) (projectUpdateResult m)
                      (currentUpdateIndex m) 0, [])
  | ScreenUpdating =>
      if negb (loading m) && (updatesTotal m <=? updatesCompleted m) then
        Some (mkModel (projects m) ScreenMainMenu 0 ∅
                      (selectedRestarts m) (updateMode m) (loading m)
                      "" 0 0
                      (projectUpdateStatus m) (projectUpdateResult m)
                      (currentUpdateIndex m) (viewportOffset m), [])
      else Some (m, [])
  | _ => Some (m, [])
  end.

(** [Model.Update] on the messages of the batch. *)
Definition Update (m : Model) (msg : Msg) : Model * list Cmd :=
  match msg with
  | updateCompleteMsg projectIndex _ success err =>
      let completed := wrapInt (updatesCompleted m + 1) in
      let status := if success then "success" else "failed" in
      let result := if success then checkMark ++ " OK"
                    else crossMark ++ " " ++ showErr err in
      (mkModel (projects m) (screen m) (cursor m) (selectedUpdates m)
               (selectedRestarts m) (updateMode m)
               (if updatesTotal m <=? completed then false else loading m)
               (updateProgress m) (updatesTotal m) completed
               (<[projectIndex := status]> (projectUpdateStatus m))
               (<[projectIndex := result]> (projectUpdateResult m))
               (currentUpdateIndex m) (viewportOffset m),
       [])
  | allUpdatesCompleteMsg => (m, [])
  | tickMsg => if loading m then (m, [Tick]) else (m, [])
  end.

(** The model after a list of messages, oldest first. *)
Definition deliver (m : Model) (msgs : list Msg) : Model :=
  fold_left (fun m msg => fst (Update m msg)) msgs m.

(** The completion messages among [msgs]: project index and outcome. *)
Definition completed (msgs : list Msg) : list (Z * bool) :=
  omap (fun msg => match msg with
                   | updateCompleteMsg idx _ success _ => Some (idx, success)
                   | _ => None
                   end) msgs.

(** The task [performUpdates] makes for a selected project. *)
Definition taskFor (m : Model) (idx : Z) : Cmd :=
  UpdateTask idx (default false (selectedRestarts m !! idx)) (updateMode m).

Definition maxInt : Z := 2 ^ 63 - 1.

End ui.

(** ** Sample worlds and inputs used by the examples *)

(** A host on which every external command fails, with no cache file. *)
Definition failingResult : CmdResult := mkResult "" (Some "exit status 1") false.

Definition deadWorld : World :=
  mkWorld [] (fun _ _ => failingResult) O (fun _ => 0) ∅ (fun _ => true).

(** A host that answers every command the same way whatever came before. *)
Definition scriptedWorld (answer : Cmd -> CmdResult) : World :=
  mkWorld [] (fun _ c => answer c) O (fun _ => 0) ∅ (fun _ => true).

(** A label decoder that finds no label set. *)
Definition noLabels : string -> option (gmap string string) := fun _ => None.

(** A host on which [docker run --rm <image> --version] prints [output]
    and every other command fails. *)
Definition versionWorld (output : string) : World :=
  scriptedWorld (fun c =>
    match cmd_args c with
    | ["run"; "--rm"; _; "--version"] => mkResult output None false
    | _ => failingResult
    end).

(** The version banner of an image whose second line carries a
    [version:] label. *)
Definition bannerWithLabel : string :=
  "Server v7.2.4" ++ LF ++ "build version: 11".

(** A host on which both pull commands fail, the legacy one printing
    [output], and every other command fails too. *)
Definition pullFailsWorld (output : string) : World :=
  scriptedWorld (fun c =>
    match cmd_name c, cmd_args c with
    | "docker-compose", ["pull"] => mkResult output (Some "exit status 1") false
    | _, _ => failingResult
    end).

Definition keyErrorLine : string := "KeyError: 'ContainerConfig'".

(** Output of the legacy client: a chained Python traceback that ends in
    the [KeyError] line. *)
Definition chainedTraceback : string :=
  "Traceback (most recent call last):" ++ LF ++
  "  File compose/cli/main.py, line 81, in main" ++ LF ++
  "requests.exceptions.HTTPError: 404 Client Error: Not Found" ++ LF ++
  "During handling of the above exception, another exception occurred:" ++ LF ++
  "Traceback (most recent call last):" ++ LF ++
  "  File compose/service.py, line 330, in _get_container_create_options" ++ LF ++
  keyErrorLine ++ LF.

(** The usual output: one traceback after the tool's own messages. *)
Definition plainTraceback : string :=
  "Pulling web ... done" ++ LF ++
  "ERROR: for web  'ContainerConfig'" ++ LF ++
  "Traceback (most recent call last):" ++ LF ++
  "  File compose/cli/main.py, line 81, in main" ++ LF ++
  "    command_func()" ++ LF ++
  "    raise error_to_reraise" ++ LF ++
  keyErrorLine ++ LF.

Definition sampleProject : Project.t :=
  Project.mk "web" "/srv/docker/web" "/srv/docker/web/docker-compose.yml"
             "stopped" 0 [] None false 0.

(** The cache file of the examples, and the lifetime [cacheMaxAge] of
    [main.go]: one hour, in nanoseconds. *)
Definition cachePath : string := "/var/cache/docker-compose-manager/cache.json".
Definition cacheMaxAge : Z := 3600 * 1000000000.

Definition quote : string := String (byte 34) "".

(** The document [json.MarshalIndent] writes for the collection that
    holds [sampleProject] alone. *)
Definition sampleDocument : string :=
  "[" ++ LF ++
  "  {" ++ LF ++
  "    " ++ quote ++ "name" ++ quote ++ ": " ++ quote ++ "web" ++ quote ++ "," ++ LF ++
  "    " ++ quote ++ "path" ++ quote ++ ": " ++ quote ++ "/srv/docker/web" ++ quote ++ "," ++ LF ++
  "    " ++ quote ++ "compose_file" ++ quote ++ ": " ++ quote
         ++ "/srv/docker/web/docker-compose.yml" ++ quote ++ "," ++ LF ++
  "    " ++ quote ++ "status" ++ quote ++ ": " ++ quote ++ "stopped" ++ quote ++ "," ++ LF ++
  "    " ++ quote ++ "running_containers" ++ quote ++ ": 0," ++ LF ++
  "    " ++ quote ++ "images" ++ quote ++ ": null," ++ LF ++
  "    " ++ quote ++ "image_info" ++ quote ++ ": null," ++ LF ++
  "    " ++ quote ++ "has_updates" ++ quote ++ ": false," ++ LF ++
  "    " ++ quote ++ "last_updated" ++ quote ++ ": " ++ quote
         ++ "1970-01-01T00:00:00Z" ++ quote ++ LF ++
  "  }" ++ LF ++
  "]".

(** [encoding/json] on the two collections of the examples: the empty one
    and the one that holds [sampleProject].  Everything else is outside
    this table and reported as an error. *)
Definition sampleMarshal (projects : list Project.t) : string + string :=
  if decide (projects = []) then inl "[]"
  else if decide (projects = [sampleProject]) then inl sampleDocument
  else inr "not in the table".

Definition sampleUnmarshal (data : string) : list Project.t + string :=
  if String.eqb data "[]" then inl []
  else if String.eqb data sampleDocument then inl [sampleProject]
  else inr "invalid character".

(** A host whose cache file holds [data], was written at [mtime], and
    whose clock reads [now]. *)
Definition cacheWorld (data : string) (mtime now : Z) (readable : bool) : World :=
  mkWorld [] (fun _ _ => failingResult) O (fun _ => now)
          {[ cachePath := mkFile data mtime readable ]} (fun _ => true).

(** A host on which every command succeeds and prints nothing. *)
Definition okWorld : World := scriptedWorld (fun _ => mkResult "" None false).

(** A project for which the last check found a newer nginx image. *)
Definition staleEntry : ImageInfo.t :=
  ImageInfo.mk "nginx:latest" "latest" "latest (newer)" true.

Definition staleProject : Project.t :=
  Project.mk "web" "/srv/docker/web" "/srv/docker/web/docker-compose.yml"
             "running:1" 1 ["nginx:latest"]
             (Some {[ "nginx:latest" := staleEntry ]}) true 0.

(** A host whose compose file lists [images], one per line, on which no
    image is present locally. *)
Definition listingWorld (images : string) : World :=
  scriptedWorld (fun c =>
    match cmd_args c with
    | ["compose"; "config"; "--images"] => mkResult images None false
    | _ => failingResult
    end).

(** The search root and depth limit of [main.go], and the directory tree
    of the discovery scenario: two project directories, one compose file
    in each. *)
Definition defaultSearchDir : string := "/home/dockeruser/docker".
Definition defaultMaxDepth : Z := 10.

Definition scenarioTreeAt (rootName : string) : filepath.Node :=
  filepath.Directory rootName
    (Some [filepath.Directory "app1" (Some [filepath.File "docker-compose.yml"]);
           filepath.Directory "app2" (Some [filepath.File "compose.yaml"])]).

Definition scenarioTree : filepath.Node := scenarioTreeAt "docker".

(** A shell with three projects on the mode-selection screen, the first
    and the last project selected, and a run of the batch in which the
    last project finishes first and the first one fails. *)
Definition threeProjects : list Project.t :=
  [sampleProject; staleProject; sampleProject].

Definition selectingModel : ui.Model :=
  ui.mkModel threeProjects ui.ScreenUpdateModeSelect 0
             {[ 0 := true; 2 := true ]} ∅ "" false "" 0 0 ∅ ∅ (-1) 0.

Definition sampleRun : list ui.Msg :=
  [ui.updateCompleteMsg 2 "web" true None; ui.tickMsg;
   ui.updateCompleteMsg 0 "web" false (Some "pull failed: timeout")].

(** A host with the modern client, on which the project in the current
    directory runs the services web and db. *)
Definition runningWorld : World :=
  scriptedWorld (fun c =>
    match cmd_args c with
    | ["compose"; "ps"; "--quiet"] =>
        mkResult ("4f2a9c" ++ LF ++ "91be07" ++ LF) None false
    | ["compose"; "ps"; "--services"; "--filter"; "status=running"] =>
        mkResult ("web" ++ LF ++ "db" ++ LF) None false
    | _ => failingResult
    end).

(** A host on which the version probe fails and the image carries an OCI
    version label. *)
Definition labelledWorld : World :=
  scriptedWorld (fun c =>
    match cmd_args c with
    | "image" :: "inspect" :: _ => mkResult "{...}" None false
    | _ => failingResult
    end).

Definition ociLabels : string -> option (gmap string string) :=
  fun _ => Some {[ "org.opencontainers.image.version" := "16.2" ]}.

(** A tree whose only compose file lies three directories below the
    search root. *)
Definition deepTree : filepath.Node :=
  filepath.Directory "docker"
    (Some [filepath.Directory "a"
             (Some [filepath.Directory "b"
                      (Some [filepath.File "compose.yml"])])]).

(** A host on which the project runs one nginx container and every
    probe of the image fails. *)
Definition nginxRunningWorld : World :=
  scriptedWorld (fun c =>
    match cmd_args c with
    | "ps" :: "--filter" :: _ => mkResult ("nginx:latest" ++ LF) None false
    | _ => failingResult
    end).

(** ** Status display, footprints and what the engine leaves behind *)

(** [p.StatusDisplay()]. *)
Definition StatusDisplay (p : Project.t) : string :=
  if IsRunning p then "Running (" ++ pretty (Project.RunningContainers p) ++ ")"
  else "Stopped".

(** What [UpdateStatus] leaves in the two status fields: stopped with no
    container, or a positive count with its tag. *)
Definition statusAgrees (p : Project.t) : Prop :=
  (Project.Status p = "stopped" /\ Project.RunningContainers p = 0) \/
  (0 < Project.RunningContainers p /\
   Project.Status p = "running:" ++ pretty (Project.RunningContainers p)).

(** What one pass of the update check writes for an image: its name, the
    tag of the reference, and one of the four outcomes. *)
Definition checkedEntry (imageName : string) (i : ImageInfo.t) : Prop :=
  ImageInfo.Name i = imageName /\
  ImageInfo.CurrentVersion i = tagOf imageName /\
  ((ImageInfo.LatestVersion i = "not pulled" /\ ImageInfo.HasUpdate i = true) \/
   (ImageInfo.LatestVersion i = "timeout" /\ ImageInfo.HasUpdate i = false) \/
   (ImageInfo.LatestVersion i = tagOf imageName /\ ImageInfo.HasUpdate i = false) \/
   (ImageInfo.LatestVersion i = tagOf imageName ++ " (newer)" /\
    ImageInfo.HasUpdate i = true)).

(** The command asks a compose client for the containers of a project. *)
Definition isStatusQuery (c : Cmd) : bool :=
  match cmd_name c, cmd_args c with
  | "docker", "compose" :: "ps" :: _ => true
  | "docker-compose", "ps" :: _ => true
  | _, _ => false
  end.

(** [w'] is [w] after some commands, all accepted by [ok], and some clock
    readings; the files are untouched. *)
Definition onlyRan (ok : Cmd -> bool) (w w' : World) : Prop :=
  (exists new, w_log w' = (new ++ w_log w)%list /\
               Forall (fun c => ok c = true) new) /\
  w_files w' = w_files w /\ w_oracle w' = w_oracle w /\
  w_clock w' = w_clock w /\ w_writable w' = w_writable w /\
  (w_ticks w <= w_ticks w')%nat.

(** A project as discovery builds it during a search that took the host
    from [w] to [w']. *)
Definition discovered (w w' : World) (p : Project.t) : Prop :=
  Project.Path p = filepath.Dir (Project.ComposeFile p) /\
  Project.Name p = filepath.Base (Project.Path p) /\
  Project.Images p = [] /\ Project.ImageInfo p = None /\
  Project.HasUpdates p = false /\
  statusAgrees p /\
  exists n, (w_ticks w <= n < w_ticks w')%nat /\ Project.LastUpdated p = w_clock w n.

(** [%v] of the error [SaveToCache] returns. *)
Definition SaveErr_Error (e : SaveErr) : string :=
  match e with
  | MarshalFailed cause => "failed to marshal projects: " ++ cause
  | WriteFailed cause => "failed to write cache file: " ++ cause
  end.

(** ** The interactive shell: keys, messages and layout helpers

    The rest of package [ui] around the update batch: the whole of
    [Model.Update] with its key handlers, the commands it hands to the
    runtime, and the pure helpers of the views.  The views themselves
    render through an external styling library and are not modelled. *)
Module tui.

Definition maxVisibleItems : Z := 10.

(** [strings.Repeat]; [None] is the panic on a negative count. *)
Definition Repeat (s : string) (count : Z) : option string :=
  if count <? 0 then None
  else Some (Nat.iter (Z.to_nat count) (fun acc => s ++ acc) "").

(** [truncateMiddle(s, maxLen)]; [None] is the panic of [s[:maxLen]] on a
    negative [maxLen]. *)
Definition truncateMiddle (s : string) (maxLen : Z) : option string :=
  if Z.of_nat (String.length s) <=? maxLen then Some s
  else if maxLen <? 6 then
    if maxLen <? 0 then None else Some (take (Z.to_nat maxLen) s)
  else
    let suffix := drop (String.length s - 3) s in
    let prefixLen := maxLen - 3 - 3 in
    let prefix := take (Z.to_nat prefixLen) s in
    Some (prefix ++ "..." ++ suffix).

Record ColumnWidths := mkColumnWidths {
  Project : Z;
  Image : Z;
  Tag : Z;
  Local : Z;
  Repository : Z
}.

Definition max (a b : Z) : Z := if b <? a then a else b.

(** [m.calculateColumnWidths()], which reads the terminal width only. *)
Definition calculateColumnWidths (width : Z) : ColumnWidths :=
  let fixedOverhead := 14 + 10 in
  if 80 <? width then
    let availableWidth := ui.wrapInt (width - fixedOverhead) in
    let share (percent : Z) := Z.quot (ui.wrapInt (availableWidth * percent)) 100 in
    mkColumnWidths (max 12 (share 10)) (max 12 (share 10)) (max 25 (share 20))
                   (max 25 (share 25)) (max 35 (share 35))
  else mkColumnWidths 12 12 25 25 35.

(** The two cell literals of the progress bar, byte for byte as the source
    file holds them: three runes, seven bytes each. *)
Definition fullBlock : string :=
  String (byte 226) (String (byte 128) (String (byte 154)
    (String (byte 195) (String (byte 177)
      (String (byte 195) (String (byte 160) "")))))).
Definition lightShade : string :=
  String (byte 226) (String (byte 128) (String (byte 154)
    (String (byte 195) (String (byte 177)
      (String (byte 195) (String (byte 171) "")))))).

(** [renderProgressBar(percent, width)]. *)
Definition renderProgressBar (percent width : Z) : option string :=
  let percent := if percent <? 0 then 0 else percent in
  let percent := if 100 <? percent then 100 else percent in
  let filled := Z.quot (ui.wrapInt (percent * width)) 100 in
  let empty := ui.wrapInt (width - filled) in
  match Repeat fullBlock filled, Repeat lightShade empty with
  | Some a, Some b => Some (a ++ b)
  | _, _ => None
  end.

(** The whole state of the shell: the fields of the update batch, and the
    others.  [selectedProject] is a pointer to one of the projects of the
    list; it is held as the position of that project. *)
Record Model := mkModel {
  batch : ui.Model;
  selectedProject : option nat;
  message : string;
  err : option string;
  quitting : bool;
  cacheAge : string;
  checkingUpdates : bool;
  currentCheckIndex : Z;
  cacheFile : string;
  width : Z;
  height : Z;
  debugMode : bool;
  viewRenderCount : Z
}.

Definition projects (m : Model) : list Project.t := ui.projects (batch m).
Definition screen (m : Model) : ui.Screen := ui.screen (batch m).
Definition cursor (m : Model) : Z := ui.cursor (batch m).
Definition viewportOffset (m : Model) : Z := ui.viewportOffset (batch m).
Definition selectedUpdates (m : Model) : gmap Z bool := ui.selectedUpdates (batch m).
Definition selectedRestarts (m : Model) : gmap Z bool := ui.selectedRestarts (batch m).
Definition loading (m : Model) : bool := ui.loading (batch m).

(** [len(m.projects)]. *)
Definition lenProjects (m : Model) : Z := Z.of_nat (List.length (projects m)).

(** Assignments to one field. *)
Definition setBatch (m : Model) (b : ui.Model) : Model :=
  mkModel b (selectedProject m) (message m) (err m) (quitting m) (cacheAge m)
          (checkingUpdates m) (currentCheckIndex m) (cacheFile m) (width m)
          (height m) (debugMode m) (viewRenderCount m).

Definition set_selectedProject (m : Model) (p : option nat) : Model :=
  mkModel (batch m) p (message m) (err m) (quitting m) (cacheAge m)
          (checkingUpdates m) (currentCheckIndex m) (cacheFile m) (width m)
          (height m) (debugMode m) (viewRenderCount m).

Definition set_message (m : Model) (s : string) : Model :=
  mkModel (batch m) (selectedProject m) s (err m) (quitting m) (cacheAge m)
          (checkingUpdates m) (currentCheckIndex m) (cacheFile m) (width m)
          (height m) (debugMode m) (viewRenderCount m).

Definition set_err (m : Model) (e : option string) : Model :=
  mkModel (batch m) (selectedProject m) (message m) e (quitting m) (cacheAge m)
          (checkingUpdates m) (currentCheckIndex m) (cacheFile m) (width m)
          (height m) (debugMode m) (viewRenderCount m).

Definition set_quitting (m : Model) (b : bool) : Model :=
  mkModel (batch m) (selectedProject m) (message m) (err m) b (cacheAge m)
          (checkingUpdates m) (currentCheckIndex m) (cacheFile m) (width m)
          (height m) (debugMode m) (viewRenderCount m).

Definition set_cacheAge (m : Model) (s : string) : Model :=
  mkModel (batch m) (selectedProject m) (message m) (err m) (quitting m) s
          (checkingUpdates m) (currentCheckIndex m) (cacheFile m) (width m)
          (height m) (debugMode m) (viewRenderCount m).

Definition set_checkingUpdates (m : Model) (b : bool) : Model :=
  mkModel (batch m) (selectedProject m) (message m) (err m) (quitting m)
          (cacheAge m) b (currentCheckIndex m) (cacheFile m) (width m)
          (height m) (debugMode m) (viewRenderCount m).

Definition set_currentCheckIndex (m : Model) (i : Z) : Model :=
  mkModel (batch m) (selectedProject m) (message m) (err m) (quitting m)
          (cacheAge m) (checkingUpdates m) i (cacheFile m) (width m)
          (height m) (debugMode m) (viewRenderCount m).

Definition set_size (m : Model) (w h : Z) : Model :=
  mkModel (batch m) (selectedProject m) (message m) (err m) (quitting m)
          (cacheAge m) (checkingUpdates m) (currentCheckIndex m) (cacheFile m)
          w h (debugMode m) (viewRenderCount m).

Definition withProjects (b : ui.Model) (ps : list Project.t) : ui.Model :=
  ui.mkModel ps (ui.screen b) (ui.cursor b) (ui.selectedUpdates b)
             (ui.selectedRestarts b) (ui.updateMode b) (ui.loading b)
             (ui.updateProgress b) (ui.updatesTotal b) (ui.updatesCompleted b)
             (ui.projectUpdateStatus b) (ui.projectUpdateResult b)
             (ui.currentUpdateIndex b) (ui.viewportOffset b).

Definition withScreen (b : ui.Model) (s : ui.Screen) : ui.Model :=
  ui.mkModel (ui.projects b) s (ui.cursor b) (ui.selectedUpdates b)
             (ui.selectedRestarts b) (ui.updateMode b) (ui.loading b)
             (ui.updateProgress b) (ui.updatesTotal b) (ui.updatesCompleted b)
             (ui.projectUpdateStatus b) (ui.projectUpdateResult b)
             (ui.currentUpdateIndex b) (ui.viewportOffset b).

Definition withCursor (b : ui.Model) (c : Z) : ui.Model :=
  ui.mkModel (ui.projects b) (ui.screen b) c (ui.selectedUpdates b)
             (ui.selectedRestarts b) (ui.updateMode b) (ui.loading b)
             (ui.updateProgress b) (ui.updatesTotal b) (ui.updatesCompleted b)
             (ui.projectUpdateStatus b) (ui.projectUpdateResult b)
             (ui.currentUpdateIndex b) (ui.viewportOffset b).

Definition withSelectedUpdates (b : ui.Model) (sel : gmap Z bool) : ui.Model :=
  ui.mkModel (ui.projects b) (ui.screen b) (ui.cursor b) sel
             (ui.selectedRestarts b) (ui.updateMode b) (ui.loading b)
             (ui.updateProgress b) (ui.updatesTotal b) (ui.updatesCompleted b)
             (ui.projectUpdateStatus b) (ui.projectUpdateResult b)
             (ui.currentUpdateIndex b) (ui.viewportOffset b).

Definition withSelectedRestarts (b : ui.Model) (sel : gmap Z bool) : ui.Model :=
  ui.mkModel (ui.projects b) (ui.screen b) (ui.cursor b) (ui.selectedUpdates b)
             sel (ui.updateMode b) (ui.loading b)
             (ui.updateProgress b) (ui.updatesTotal b) (ui.updatesCompleted b)
             (ui.projectUpdateStatus b) (ui.projectUpdateResult b)
             (ui.currentUpdateIndex b) (ui.viewportOffset b).

Definition withLoading (b : ui.Model) (l : bool) : ui.Model :=
  ui.mkModel (ui.projects b) (ui.screen b) (ui.cursor b) (ui.selectedUpdates b)
             (ui.selectedRestarts b) (ui.updateMode b) l
             (ui.updateProgress b) (ui.updatesTotal b) (ui.updatesCompleted b)
             (ui.projectUpdateStatus b) (ui.projectUpdateResult b)
             (ui.currentUpdateIndex b) (ui.viewportOffset b).

Definition withViewportOffset (b : ui.Model) (off : Z) : ui.Model :=
  ui.mkModel (ui.projects b) (ui.screen b) (ui.cursor b) (ui.selectedUpdates b)
             (ui.selectedRestarts b) (ui.updateMode b) (ui.loading b)
             (ui.updateProgress b) (ui.updatesTotal b) (ui.updatesCompleted b)
             (ui.projectUpdateStatus b) (ui.projectUpdateResult b)
             (ui.currentUpdateIndex b) off.

Definition set_projects (m : Model) (ps : list Project.t) : Model :=
  setBatch m (withProjects (batch m) ps).
Definition set_screen (m : Model) (s : ui.Screen) : Model :=
  setBatch m (withScreen (batch m) s).
Definition set_cursor (m : Model) (c : Z) : Model :=
  setBatch m (withCursor (batch m) c).
Definition set_selectedUpdates (m : Model) (sel : gmap Z bool) : Model :=
  setBatch m (withSelectedUpdates (batch m) sel).
Definition set_selectedRestarts (m : Model) (sel : gmap Z bool) : Model :=
  setBatch m (withSelectedRestarts (batch m) sel).
Definition set_loading (m : Model) (l : bool) : Model :=
  setBatch m (withLoading (batch m) l).
Definition set_viewportOffset (m : Model) (off : Z) : Model :=
  setBatch m (withViewportOffset (batch m) off).

Inductive Msg :=
| KeyMsg (key : string)                      (* tea.KeyMsg, by its String() *)
| WindowSizeMsg (Width Height : Z)
| operationMsg (text : string)
| errorMsg (err : option string)
| batchMsg (msg : ui.Msg)                    (* tickMsg, updateCompleteMsg, allUpdatesCompleteMsg *)
| updatesCheckedMsg
| projectCheckProgressMsg (index : Z)
| projectCheckCompleteMsg (index : Z).

(** The commands handed to the runtime. *)
Inductive Cmd :=
| Quit                                       (* tea.Quit *)
| Batch (c : ui.Cmd)                         (* an update task or the view ticker *)
| performOperation (project : nat) (operation : string)
| Send (msg : Msg)                           (* func() tea.Msg { return msg } *)
| checkSingleProject (index : Z).

(** [NewModel(projects, cacheFile, debugMode)]. *)
Definition NewModel (projects : list Project.t) (cacheFile : string)
           (debugMode : bool) : Model :=
  mkModel (ui.mkModel projects ui.ScreenMainMenu 0 ∅ ∅ "" false "" 0 0 ∅ ∅ (-1) 0)
          None "" None false "" false (-1) cacheFile 0 0 debugMode 0.

(** [m.handleBack()]. *)
Definition handleBack (m : Model) : Model * list Cmd :=
  match screen m with
  | ui.ScreenMainMenu => (set_cursor (set_screen m ui.ScreenConfirmExit) 1, [])
  | ui.ScreenContainerList =>
      (set_message (set_cursor (set_screen m ui.ScreenMainMenu) 0) "", [])
  | ui.ScreenContainerDetail =>
      (set_message
         (set_viewportOffset (set_cursor (set_screen m ui.ScreenContainerList) 0) 0)
         "", [])
  | ui.ScreenActionMenu =>
      (set_message (set_cursor (set_screen m ui.ScreenContainerDetail) 0) "", [])
  | ui.ScreenHelp =>
      (set_message (set_cursor (set_screen m ui.ScreenMainMenu) 0) "", [])
  | ui.ScreenUpdateList =>
      (set_selectedUpdates
         (set_viewportOffset (set_cursor (set_screen m ui.ScreenMainMenu) 0) 0)
         ∅, [])
  | ui.ScreenUpdateModeSelect =>
      (set_viewportOffset (set_cursor (set_screen m ui.ScreenUpdateList) 0) 0, [])
  | ui.ScreenUpdateRestartConfirm =>
      (set_cursor (set_screen m ui.ScreenUpdateModeSelect) 0, [])
  | ui.ScreenUpdateConfirm =>
      (set_viewportOffset (set_cursor (set_screen m ui.ScreenUpdateList) 0) 0, [])
  | ui.ScreenLoading => (set_cursor (set_screen m ui.ScreenMainMenu) 0, [])
  | ui.ScreenConfirmExit => (set_cursor (set_screen m ui.ScreenMainMenu) 0, [])
  | ui.ScreenUpdating => (m, [])
  end.

(** [m.selectedProject != nil && m.selectedProject.IsRunning()]. *)
Definition selectedIsRunning (m : Model) : bool :=
  match selectedProject m with
  | Some i =>
      match projects m !! i with
      | Some p => IsRunning p
      | None => false
      end
  | None => false
  end.

(** The number of the last line of the action menu the cursor may be
    moved to: [maxOptions]. *)
Definition maxOptions (m : Model) : Z := if selectedIsRunning m then 2 else 1.

(** One step down in a scrolling list. *)
Definition listDown (m : Model) : Model :=
  if cursor m <? lenProjects m - 1 then
    let m := set_cursor m (cursor m + 1) in
    if ui.wrapInt (viewportOffset m + maxVisibleItems) <=? cursor m
    then set_viewportOffset m (ui.wrapInt (ui.wrapInt (cursor m - maxVisibleItems) + 1))
    else m
  else m.

(** One step down when the last line is [last]. *)
Definition stepDown (m : Model) (last : Z) : Model :=
  if cursor m <? last then set_cursor m (cursor m + 1) else m.

(** [m.handleDown()]. *)
Definition handleDown (m : Model) : Model * list Cmd :=
  match screen m with
  | ui.ScreenMainMenu => (stepDown m 2, [])
  | ui.ScreenContainerList => (listDown m, [])
  | ui.ScreenActionMenu => (stepDown m (maxOptions m), [])
  | ui.ScreenUpdateList => (listDown m, [])
  | ui.ScreenUpdateModeSelect => (stepDown m 1, [])
  | ui.ScreenUpdateRestartConfirm =>
      (stepDown m (ui.len (selectedUpdates m) - 1), [])
  | ui.ScreenUpdateConfirm => (stepDown m 1, [])
  | ui.ScreenConfirmExit => (stepDown m 1, [])
  | _ => (m, [])
  end.

(** [m.handleAction()]. *)
Definition handleAction (m : Model) : Model * list Cmd :=
  match selectedProject m with
  | None => (m, [])
  | Some i =>
      let m := set_err (set_loading m true) None in
      if selectedIsRunning m then
        if cursor m =? 0 then (m, [performOperation i "stop"])
        else if cursor m =? 1 then (m, [performOperation i "restart"])
        else (m, [])
      else
        if cursor m =? 0 then (m, [performOperation i "start"])
        else (m, [])
  end.

(** A map read as Go reads it: a missing key gives [false]. *)
Definition selected (sel : gmap Z bool) (i : Z) : bool := default false (sel !! i).

(** Toggle a key as the handlers do: delete it when it reads true, set it
    to true otherwise. *)
Definition toggle (sel : gmap Z bool) (i : Z) : gmap Z bool :=
  if selected sel i then delete i sel else <[i := true]> sel.

(** The loop of [handleSpace] on the restart selection: [indices] are the
    positions still to visit and [displayIndex] counts the selected
    projects passed so far. *)
Fixpoint toggleDisplayed (indices : list Z) (displayIndex cursor : Z)
         (updates restarts : gmap Z bool) : gmap Z bool :=
  match indices with
  | [] => restarts
  | i :: rest =>
      if negb (selected updates i)
      then toggleDisplayed rest displayIndex cursor updates restarts
      else if displayIndex =? cursor then toggle restarts i
      else toggleDisplayed rest (displayIndex + 1) cursor updates restarts
  end.

(** [m.handleSpace()]. *)
Definition handleSpace (m : Model) : Model * list Cmd :=
  match screen m with
  | ui.ScreenUpdateList =>
      (set_selectedUpdates m (toggle (selectedUpdates m) (cursor m)), [])
  | ui.ScreenUpdateRestartConfirm =>
      (set_selectedRestarts m
         (toggleDisplayed (seqZ 0 (lenProjects m)) 0 (cursor m)
                          (selectedUpdates m) (selectedRestarts m)), [])
  | _ => (m, [])
  end.

(** [m.handleSelectAll()]. *)
Definition handleSelectAll (m : Model) : Model * list Cmd :=
  match screen m with
  | ui.ScreenUpdateList =>
      if ui.len (selectedUpdates m) =? lenProjects m
      then (set_selectedUpdates m ∅, [])
      else (set_selectedUpdates m
              (foldl (fun sel i => <[i := true]> sel) (selectedUpdates m)
                     (seqZ 0 (lenProjects m))), [])
  | _ => (m, [])
  end.

(** [m.checkForUpdates()]. *)
Definition checkForUpdates (m : Model) : Cmd := Send (projectCheckProgressMsg 0).

(** [m.handleRefresh()]. *)
Definition handleRefresh (m : Model) : Model * list Cmd :=
  match screen m with
  | ui.ScreenUpdateList =>
      if negb (checkingUpdates m)
      then let m := set_checkingUpdates m true in (m, [checkForUpdates m])
      else (m, [])
  | _ => (m, [])
  end.

(** The zero [time.Time], in nanoseconds from the Unix epoch. *)
Definition zeroTime : Z := - 62135596800 * 1000000000.

Section Shell.

(** [Time.Format("2006-01-02 15:04")], which depends on the local time
    zone, and [json.MarshalIndent] for [SaveToCache]. *)
Variable time_Format : Z -> string.
Variable json_MarshalIndent : list Project.t -> string + string.

(** [m.calculateCacheAge()]. *)
Definition calculateCacheAge (m : Model) : string :=
  match projects m with
  | [] => "unknown"
  | first :: _ =>
      let oldestTime :=
        fold_left (fun oldestTime p =>
                     if Project.LastUpdated p <? oldestTime
                     then Project.LastUpdated p else oldestTime)
                  (projects m) (Project.LastUpdated first) in
      if oldestTime =? zeroTime then "unknown" else time_Format oldestTime
  end.

(** [m.handleEnter()]; [None] is a run-time panic (an index below zero).
    The screens of the update flow are those of the batch. *)
Definition handleEnter (m : Model) : option (Model * list Cmd) :=
  match screen m with
  | ui.ScreenMainMenu =>
      if cursor m =? 0 then
        Some (set_message
                (set_viewportOffset
                   (set_cursor (set_screen m ui.ScreenContainerList) 0) 0) "", [])
      else if cursor m =? 1 then
        let m := set_selectedUpdates
                   (set_message
                      (set_viewportOffset
                         (set_cursor (set_screen m ui.ScreenUpdateList) 0) 0) "")
                   ∅ in
        Some (set_cacheAge m (calculateCacheAge m), [])
      else if cursor m =? 2 then
        Some (set_cursor (set_screen m ui.ScreenHelp) 0, [])
      else Some (m, [])
  | ui.ScreenContainerList =>
      if cursor m <? lenProjects m then
        if cursor m <? 0 then None
        else
          Some (set_message
                  (set_cursor
                     (set_screen
                        (set_selectedProject m (Some (Z.to_nat (cursor m))))
                        ui.ScreenContainerDetail) 0) "", [])
      else Some (m, [])
  | ui.ScreenContainerDetail =>
      Some (set_cursor (set_screen m ui.ScreenActionMenu) 0, [])
  | ui.ScreenActionMenu => Some (handleAction m)
  | ui.ScreenUpdateList | ui.ScreenUpdateModeSelect
  | ui.ScreenUpdateRestartConfirm | ui.ScreenUpdateConfirm
  | ui.ScreenUpdating =>
      match ui.handleEnter (batch m) with
      | Some (b, cmds) => Some (setBatch m b, List.map Batch cmds)
      | None => None
      end
  | ui.ScreenConfirmExit =>
      if cursor m =? 0 then Some (set_quitting m true, [Quit])
      else Some (set_cursor (set_screen m ui.ScreenMainMenu) 0, [])
  | ui.ScreenLoading | ui.ScreenHelp => Some (m, [])
  end.

(** The rows of a scrolling list that are on the screen:
    [visibleCount]. *)
Definition visibleCount (m : Model) : Z :=
  let viewStart := viewportOffset m in
  let viewEnd := ui.wrapInt (viewportOffset m + maxVisibleItems) in
  let viewEnd := if lenProjects m <? viewEnd then lenProjects m else viewEnd in
  ui.wrapInt (viewEnd - viewStart).

(** [m.handleNumberKey(num)]. *)
Definition handleNumberKey (m : Model) (num : Z) : option (Model * list Cmd) :=
  let num := if num =? 0 then 10 else num in
  let pick (count : Z) (base : Z)
           (go : Model -> option (Model * list Cmd)) :=
    if (1 <=? num) && (num <=? count)
    then go (set_cursor m (ui.wrapInt (ui.wrapInt (base + num) - 1)))
    else Some (m, []) in
  match screen m with
  | ui.ScreenMainMenu => pick 3 0 handleEnter
  | ui.ScreenContainerList => pick (visibleCount m) (viewportOffset m) handleEnter
  | ui.ScreenUpdateList =>
      pick (visibleCount m) (viewportOffset m) (fun m => Some (handleSpace m))
  | ui.ScreenActionMenu => pick (maxOptions m) 0 handleEnter
  | ui.ScreenUpdateModeSelect => pick 2 0 handleEnter
  | ui.ScreenUpdateConfirm | ui.ScreenConfirmExit => pick 2 0 handleEnter
  | _ => Some (m, [])
  end.

(** The key [up] or [k]. *)
Definition handleUp (m : Model) : Model :=
  if 0 <? cursor m then
    let m := set_cursor m (cursor m - 1) in
    match screen m with
    | ui.ScreenUpdateList | ui.ScreenContainerList =>
        if cursor m <? viewportOffset m then set_viewportOffset m (cursor m) else m
    | _ => m
    end
  else m.

(** [int(msg.String()[0] - '0')] for the ten digit keys. *)
Definition digitOf (key : string) : option Z :=
  if String.eqb key "1" then Some 1 else if String.eqb key "2" then Some 2
  else if String.eqb key "3" then Some 3 else if String.eqb key "4" then Some 4
  else if String.eqb key "5" then Some 5 else if String.eqb key "6" then Some 6
  else if String.eqb key "7" then Some 7 else if String.eqb key "8" then Some 8
  else if String.eqb key "9" then Some 9 else if String.eqb key "0" then Some 0
  else None.

(** The case [tea.KeyMsg] of [Model.Update]. *)
Definition handleKey (m : Model) (key : string) : option (Model * list Cmd) :=
  if String.eqb key "ctrl+c" then Some (set_quitting m true, [Quit])
  else if String.eqb key "q" || String.eqb key "esc" then Some (handleBack m)
  else if String.eqb key "up" || String.eqb key "k" then Some (handleUp m, [])
  else if String.eqb key "down" || String.eqb key "j" then Some (handleDown m)
  else if String.eqb key "enter" then handleEnter m
  else if String.eqb key " " || String.eqb key "space" then Some (handleSpace m)
  else if String.eqb key "a" || String.eqb key "A" then Some (handleSelectAll m)
  else if String.eqb key "u" || String.eqb key "U" then Some (handleRefresh m)
  else match digitOf key with
       | Some num => handleNumberKey m num
       | None => Some (m, [])
       end.

(** [m.selectedProject.UpdateStatus()] in the case [operationMsg]: the
    project the pointer leads to is refreshed in place, the error is
    dropped. *)
Definition refreshSelected (m : Model) : M Model :=
  match selectedProject m with
  | Some i =>
      match projects m !! i with
      | Some p =>
          let* (p', _) := UpdateStatus p in
          ret (set_projects m (<[i := p']> (projects m)))
      | None => ret m
      end
  | None => ret m
  end.

(** [Model.Update]; [None] is a run-time panic. *)
Definition Update (m : Model) (msg : Msg) : M (option (Model * list Cmd)) :=
  match msg with
  | KeyMsg key => ret (handleKey m key)
  | WindowSizeMsg w h => ret (Some (set_size m w h, []))
  | operationMsg text =>
      let* m := refreshSelected (set_message (set_loading m false) text) in
      ret (Some (m, []))
  | errorMsg e => ret (Some (set_err (set_loading m false) e, []))
  | batchMsg msg =>
      let (b, cmds) := ui.Update (batch m) msg in
      ret (Some (setBatch m b, List.map Batch cmds))
  | updatesCheckedMsg =>
      let m := set_currentCheckIndex (set_checkingUpdates m false) (-1) in
      let m := set_cacheAge m (calculateCacheAge m) in
      let* serr := SaveToCache json_MarshalIndent (projects m) (cacheFile m) in
      match serr with
      | Some e =>
          ret (Some (set_message m ("Warning: failed to save cache: "
                                    ++ SaveErr_Error e), []))
      | None => ret (Some (m, []))
      end
  | projectCheckProgressMsg index =>
      ret (Some (set_currentCheckIndex m index, [checkSingleProject index]))
  | projectCheckCompleteMsg index =>
      let nextIndex := ui.wrapInt (index + 1) in
      if nextIndex <? lenProjects m
      then ret (Some (m, [Send (projectCheckProgressMsg nextIndex)]))
      else ret (Some (m, [Send updatesCheckedMsg]))
  end.

(** What delivering [updatesCheckedMsg] leaves behind: the model, if there
    was no panic, and the world. *)
Definition afterChecked (m : Model) : M (option Model) :=
  fun w =>
    (option_map fst (fst (Update m updatesCheckedMsg w)),
     snd (Update m updatesCheckedMsg w)).

(** What the runtime does with a command: it runs the function of the
    command, which may change a project of the list in place, and takes
    the message the function returns ([None] for [tea.Quit], after which
    no message is delivered). *)
Definition runCmd (ps : list Project.t) (c : Cmd)
  : M (list Project.t * option Msg) :=
  match c with
  | Quit => ret (ps, None)
  | Send msg => ret (ps, Some msg)
  | checkSingleProject index =>
      if (0 <=? index) && (index <? Z.of_nat (List.length ps)) then
        match ps !! Z.to_nat index with
        | Some p =>
            let* (p', _) := UpdateImageInfo p in
            ret (<[Z.to_nat index := p']> ps, Some (projectCheckCompleteMsg index))
        | None => ret (ps, Some (projectCheckCompleteMsg index))
        end
      else ret (ps, Some (projectCheckCompleteMsg index))
  | performOperation i operation =>
      match ps !! i with
      | Some p =>
          let* (p', e) :=
            (if String.eqb operation "start" then Start p
             else if String.eqb operation "stop" then Stop p
             else if String.eqb operation "restart" then Restart p
             else ret (p, None)) in
          match e with
          | Some e => ret (<[i := p']> ps, Some (errorMsg (Some e)))
          | None =>
              ret (<[i := p']> ps,
                   Some (operationMsg ("Successfully " ++ operation ++ "ed "
                                       ++ Project.Name p')))
          end
      | None => ret (ps, None)
      end
  | Batch ui.Tick => ret (ps, Some (batchMsg ui.tickMsg))
  | Batch (ui.UpdateTask idx restart mode) =>
      match ps !! Z.to_nat idx with
      | Some p =>
          let* (p', msg) := ui.runTask idx restart mode p in
          ret (<[Z.to_nat idx := p']> ps, Some (batchMsg msg))
      | None => ret (ps, None)
      end
  end.

(** The event loop while one command leads to the next and no other
    message arrives in between: run the command, deliver its message, go
    on with the command [Update] returns.  It stops when the model panics
    or returns no command or several, or when the fuel is spent. *)
Fixpoint pump (fuel : nat) (m : Model) (c : Cmd) : M (option Model) :=
  match fuel with
  | O => ret (Some m)
  | S fuel =>
      let* (ps, msg) := runCmd (projects m) c in
      let m := set_projects m ps in
      match msg with
      | None => ret (Some m)
      | Some msg =>
          let* r := Update m msg in
          match r with
          | None => ret None
          | Some (m', [c']) => pump fuel m' c'
          | Some (m', _) => ret (Some m')
          end
      end
  end.

(** The update check of the whole list, one project after the other. *)
Fixpoint checkAll (ps : list Project.t) : M (list Project.t) :=
  match ps with
  | [] => ret []
  | p :: rest =>
      let* (p', _) := UpdateImageInfo p in
      let* rest' := checkAll rest in
      ret (p' :: rest')
  end.

End Shell.

(** The state the key handlers keep: the list is one a Go slice can
    hold, cursor and scroll offset are not negative, in a scrolling list
    the cursor is on the screen and on a row of the list (or on row zero
    of an empty list), every selection entry reads true and belongs to a
    project (or is entry zero of an empty list), and the selected project
    is one of the list. *)
Definition wellFormed (m : Model) : Prop :=
  lenProjects m <= ui.maxInt - maxVisibleItems /\
  0 <= cursor m /\ 0 <= viewportOffset m /\
  (screen m = ui.ScreenUpdateList \/ screen m = ui.ScreenContainerList ->
   viewportOffset m <= cursor m < viewportOffset m + maxVisibleItems /\
   (cursor m < lenProjects m \/ cursor m = 0)) /\
  (forall i b, selectedUpdates m !! i = Some b ->
               b = true /\ 0 <= i /\ (i < lenProjects m \/ i = 0)) /\
  (forall i, selectedProject m = Some i -> (i < List.length (projects m))%nat).

End tui.

(** The screen [q] or [esc] leads to. *)
Definition backTarget (s : ui.Screen) : ui.Screen :=
  match s with
  | ui.ScreenMainMenu => ui.ScreenConfirmExit
  | ui.ScreenContainerList => ui.ScreenMainMenu
  | ui.ScreenContainerDetail => ui.ScreenContainerList
  | ui.ScreenActionMenu => ui.ScreenContainerDetail
  | ui.ScreenHelp => ui.ScreenMainMenu
  | ui.ScreenUpdateList => ui.ScreenMainMenu
  | ui.ScreenUpdateModeSelect => ui.ScreenUpdateList
  | ui.ScreenUpdateRestartConfirm => ui.ScreenUpdateModeSelect
  | ui.ScreenUpdateConfirm => ui.ScreenUpdateList
  | ui.ScreenLoading => ui.ScreenMainMenu
  | ui.ScreenConfirmExit => ui.ScreenMainMenu
  | ui.ScreenUpdating => ui.ScreenUpdating
  end.

(** A handler result that neither changes [quitting] nor asks the runtime
    to quit. *)
Definition quiet (m : tui.Model) (r : tui.Model * list tui.Cmd) : Prop :=
  tui.quitting (fst r) = tui.quitting m /\ ~ In tui.Quit (snd r).

(** ** The program: loading the projects and the cache update mode

    Two blocks of [main]: the one that takes the projects from the cache
    or, failing that, from a search whose result it stores, and the loop
    of the mode [--update-cache].  What [main] prints, and the pause after
    a search, are not modelled. *)
Module main.

Section Main.
Variable json_MarshalIndent : list Project.t -> string + string.
Variable json_Unmarshal : string -> list Project.t + string.

(** The block after the directory check: [inr] is the exit with status 1
    after a failed search.  A cache that cannot be stored is only warned
    about. *)
Definition loadProjects (tree : filepath.Node) (searchDir cacheFile : string)
  : M (list Project.t + FindErr) :=
  let* cached := LoadFromCache json_Unmarshal cacheFile cacheMaxAge in
  match cached with
  | inl projects => ret (inl projects)
  | inr _ =>
      let* found := FindProjects tree searchDir defaultMaxDepth in
      match found with
      | inr e => ret (inr e)
      | inl projects =>
          let* _ := SaveToCache json_MarshalIndent projects cacheFile in
          ret (inl projects)
      end
  end.

(** The loop of the cache update mode over the projects still to check:
    each project is checked in place and the whole list is stored after
    each one. *)
Fixpoint updateCache (done todo : list Project.t) (cacheFile : string)
  : M (list Project.t) :=
  match todo with
  | [] => ret done
  | p :: rest =>
      let* (p', _) := UpdateImageInfo p in
      let* _ := SaveToCache json_MarshalIndent (done ++ p' :: rest)%list cacheFile in
      updateCache (done ++ [p'])%list rest cacheFile
  end.

End Main.

End main.

(** Two hosts with the same command history and the same answers. *)
Definition sameHistory (w w' : World) : Prop :=
  w_log w = w_log w' /\ w_oracle w = w_oracle w'.

(** * Properties *)

(** ** Strings *)

Example Split_lines : Split ("a" ++ LF ++ "b" ++ LF) LF = ["a"; "b"; ""].
Proof. reflexivity. Qed.

Example Split_empty : Split "" LF = [""].
Proof. reflexivity. Qed.

Example SplitN_first_colon : SplitN "Version: 1:2" ":" 2 = ["Version"; " 1:2"].
Proof. reflexivity. Qed.

Example TrimSpace_both : TrimSpace ("  a b " ++ LF) = "a b".
Proof. reflexivity. Qed.

Example TrimSpace_nbsp :
  TrimSpace (String (byte 194) (String (byte 160) "x ")) = "x".
Proof. reflexivity. Qed.

Example Fields_words :
  Fields "  nginx  version: v1.2 " = ["nginx"; "version:"; "v1.2"].
Proof. reflexivity. Qed.

Example ToLower_ascii : ToLower "VeRsion: X" = "version: x".
Proof. reflexivity. Qed.

Example LastIndex_dot : LastIndex "a.b.c" "." = Some 3%nat.
Proof. reflexivity. Qed.

Example Clean_dots : filepath.Clean "/a/./b/../c//" = "/a/c".
Proof. reflexivity. Qed.

Example Rel_child :
  filepath.Rel "/srv/docker/" "/srv/docker/app1/compose.yaml"
  = Some "app1/compose.yaml".
Proof. reflexivity. Qed.

Example Rel_self : filepath.Rel "/srv/docker/" "/srv/docker" = Some ".".
Proof. reflexivity. Qed.

Example Rel_up : filepath.Rel "/a/b" "/a/c/d" = Some "../c/d".
Proof. reflexivity. Qed.

Example Dir_Base :
  filepath.Base (filepath.Dir "/srv/docker/app1/compose.yaml") = "app1".
Proof. reflexivity. Qed.

(** ** The engine on sample hosts *)

Example UpdateStatus_running :
  fst (UpdateStatus sampleProject runningWorld)
  = (Project.setStatus sampleProject "running:2" 2, None).
Proof. vm_compute. reflexivity. Qed.

Example UpdateStatus_no_client :
  fst (UpdateStatus staleProject deadWorld) = (stopped staleProject, None).
Proof. vm_compute. reflexivity. Qed.

Example getRealVersion_from_label :
  fst (getRealVersion ociLabels "postgres:latest" "latest" labelledWorld) = "16.2".
Proof. vm_compute. reflexivity. Qed.

Example getRealVersion_all_probes_fail :
  fst (getRealVersion noLabels "postgres:latest" "latest" deadWorld) = "latest".
Proof. vm_compute. reflexivity. Qed.

Example cleanDockerError_last_line :
  cleanDockerError "pull" ("Pulling web" ++ LF ++ "no such service: web" ++ LF)
                   "exit status 1"
  = "pull failed: no such service: web".
Proof. vm_compute. reflexivity. Qed.

Example cleanDockerError_strips_echo :
  cleanDockerError "recreate"
                   ("docker-compose up: Error response from daemon: conflict" ++ LF)
                   "exit status 1"
  = "recreate failed: Error response from daemon: conflict".
Proof. vm_compute. reflexivity. Qed.

Example cleanDockerError_empty_output :
  cleanDockerError "pull" "" "exit status 1" = "pull failed: exit status 1".
Proof. vm_compute. reflexivity. Qed.

Example FindProjects_depth_limit :
  fst (FindProjects deepTree defaultSearchDir 2 okWorld)
  = inr (NoProjects defaultSearchDir) /\
  exists p, fst (FindProjects deepTree defaultSearchDir 3 okWorld) = inl [p] /\
            Project.Name p = "b".
Proof.
  split; [vm_compute; reflexivity |].
  eexists. split; vm_compute; reflexivity.
Qed.

(** ** Discovery: the control-file check *)

Lemma isComposeName_cases name :
  isComposeName name = true ->
  name = "docker-compose.yml" \/ name = "docker-compose.yaml" \/
  name = "compose.yml" \/ name = "compose.yaml".
Proof.
  unfold isComposeName. intros H.
  repeat (apply orb_prop in H; destruct H as [H | H]);
    apply String.eqb_eq in H; auto.
Qed.

Lemma compose_name_not_control name :
  isComposeName name = true -> Contains name "control" = false.
Proof.
  intros H. destruct (isComposeName_cases name H) as [-> | [-> | [-> | ->]]];
    reflexivity.
Qed.

Lemma acceptsName_isComposeName name : acceptsName name = isComposeName name.
Proof.
  unfold acceptsName.
  destruct (isComposeName name) eqn:E; [| reflexivity].
  now rewrite (compose_name_not_control name E).
Qed.

(** Induction on directory trees that reaches the entries of a directory. *)
Lemma Node_nested_ind (P : filepath.Node -> Prop) :
  (forall name, P (filepath.File name)) ->
  (forall name, P (filepath.Broken name)) ->
  (forall name, P (filepath.Directory name None)) ->
  (forall name entries, Forall P entries ->
                        P (filepath.Directory name (Some entries))) ->
  forall n, P n.
Proof.
  intros Hf Hb Hn Hd.
  fix IH 1. intros [name | name [entries |] | name].
  - apply Hf.
  - apply Hd. induction entries as [| e rest IHl]; constructor; [apply IH | exact IHl].
  - apply Hn.
  - apply Hb.
Qed.

Section WalkExt.
Context {A : Type}.
Variables f g :
  string -> option filepath.FileInfo -> option string -> A ->
  M (A * option filepath.WalkErr).
Hypothesis f_g : forall path info err acc w, f path info err acc w = g path info err acc w.

(** Two walks whose walk functions agree everywhere agree. *)
Lemma walk_ext n :
  forall path acc w, filepath.walk f path n acc w = filepath.walk g path n acc w.
Proof.
  induction n as [name | name | name | name entries IH] using Node_nested_ind;
    intros path acc w; simpl; try apply f_g.
  unfold bind. rewrite f_g.
  destruct (g path (Some (filepath.mkInfo name true)) None acc w)
    as [[acc1 err1] w1].
  destruct err1 as [e |]; [reflexivity |].
  revert acc1 w1.
  induction IH as [| child rest Hchild _ IHrest]; intros acc1 w1; [reflexivity |].
  rewrite Hchild.
  destruct (filepath.walk g _ child acc1 w1) as [[acc' err] w'].
  destruct err as [e |]; [| apply IHrest].
  destruct child; simpl; try reflexivity;
    destruct (filepath.isSkipDir e); try reflexivity; apply IHrest.
Qed.

Lemma Walk_ext root tree acc w :
  filepath.Walk f root tree acc w = filepath.Walk g root tree acc w.
Proof. unfold filepath.Walk, bind. now rewrite walk_ext. Qed.

End WalkExt.

(** C10: the control-file exclusion never excludes anything.  A name that
    passed the exact-name test does not contain [control], so the test of
    the walk function with the exclusion and the test without it agree on
    every file name, and discovery with the check returns what discovery
    without it returns, on every tree and host. *)
Theorem control_check_vacuous :
  (forall name, isComposeName name = true -> Contains name "control" = false) /\
  (forall name, acceptsName name = isComposeName name) /\
  (forall tree searchDir maxDepth w,
      FindProjects tree searchDir maxDepth w
      = FindProjectsNoControlCheck tree searchDir maxDepth w).
Proof.
  split; [exact compose_name_not_control |].
  split; [exact acceptsName_isComposeName |].
  intros tree searchDir maxDepth w.
  unfold FindProjects, FindProjectsNoControlCheck, FindProjectsWith, bind.
  rewrite (Walk_ext (findWalkFn acceptsName searchDir maxDepth)
                    (findWalkFn isComposeName searchDir maxDepth));
    [reflexivity |].
  intros path info err acc w0. unfold findWalkFn.
  destruct err as [e |]; [reflexivity |].
  destruct info as [info |]; [| reflexivity].
  now rewrite acceptsName_isComposeName.
Qed.

(** ** Version resolver: pinned tags *)

Lemma isGenericIn_false tags tagVersion :
  ~ In tagVersion tags -> isGenericIn tags tagVersion = false.
Proof.
  induction tags as [| tag rest IH]; simpl; [reflexivity |].
  intros H. destruct (String.eqb tagVersion tag) eqn:E.
  - apply String.eqb_eq in E. exfalso. apply H. left. congruence.
  - apply IH. intros Hin. apply H. now right.
Qed.

Section Resolver.
Variable json_Unmarshal_labels : string -> option (gmap string string).

(** C3: for a tag that is none of latest, stable, edge, main, master the
    resolver returns the tag itself and leaves the world as it found it:
    no command is run, neither the container probe nor the label
    inspection. *)
Theorem getRealVersion_pinned (imageName tagVersion : string) (w : World) :
  ~ In tagVersion ["latest"; "stable"; "edge"; "main"; "master"] ->
  getRealVersion json_Unmarshal_labels imageName tagVersion w = (tagVersion, w).
Proof.
  intros H. unfold getRealVersion.
  change genericTags with ["latest"; "stable"; "edge"; "main"; "master"].
  now rewrite (isGenericIn_false _ _ H).
Qed.

End Resolver.

Lemma getRealVersion_pinned_witness :
  getRealVersion noLabels "postgres:15" "15" deadWorld = ("15", deadWorld).
Proof.
  apply (getRealVersion_pinned noLabels "postgres:15" "15" deadWorld).
  simpl. intuition discriminate.
Defined.

(** ** Version resolver: the probe of a generic tag *)

Lemma isGenericIn_true tags tagVersion :
  In tagVersion tags -> isGenericIn tags tagVersion = true.
Proof.
  induction tags as [| tag rest IH]; simpl; [tauto |].
  intros [-> | H].
  - now rewrite String.eqb_refl.
  - destruct (String.eqb tagVersion tag); [reflexivity | now apply IH].
Qed.

Lemma versionOfLines_first pre line rest v :
  Forall (fun l => versionOfLine l = None) pre ->
  versionOfLine line = Some v ->
  versionOfLines (pre ++ line :: rest) = Some v.
Proof.
  intros Hpre Hline. induction Hpre as [| l pre Hl _ IH]; simpl.
  - now rewrite Hline.
  - now rewrite Hl.
Qed.

Lemma SplitN_cut s sep a b :
  cut s sep = Some (a, b) -> SplitN s sep 2 = [a; b].
Proof.
  intros H. unfold SplitN. simpl. now rewrite H.
Qed.

Lemma versionLabel_value line label value :
  Contains (ToLower line) "version:" = true ->
  cut line ":" = Some (label, value) ->
  TrimSpace value <> "" ->
  versionLabel line = Some (TrimSpace value).
Proof.
  intros Hc Hcut Hne. unfold versionLabel.
  rewrite Hc, (SplitN_cut _ _ _ _ Hcut).
  destruct (String.eqb (TrimSpace value) "") eqn:E; [| reflexivity].
  apply String.eqb_eq in E. contradiction.
Qed.

Section Probe.
Variable json_Unmarshal_labels : string -> option (gmap string string).

Lemma getRealVersion_probed imageName tagVersion w v :
  In tagVersion genericTags ->
  res_err (w_oracle w (w_log w) (runVersionCmd imageName)) = None ->
  probeVersion (res_out (w_oracle w (w_log w) (runVersionCmd imageName))) = Some v ->
  fst (getRealVersion json_Unmarshal_labels imageName tagVersion w) = v.
Proof.
  intros Hg Herr Hp. unfold getRealVersion.
  rewrite (isGenericIn_true _ _ Hg). simpl.
  unfold bind, exec, failed. simpl. rewrite Herr, Hp. reflexivity.
Qed.

(** C5 (as the code has it): when the probe of a generic tag succeeds,
    the inspected lines are read in order and the first line that yields a
    value decides.  On that line a [version:] label wins: the trimmed text
    after the line's first colon is returned when it is not empty.  The
    token heuristic is applied to a line only when the line gives no
    labelled value, and its token is then the result. *)
Theorem probe_first_line_decides
        (imageName tagVersion : string) (w : World)
        (pre rest : list string) (line : string) :
  In tagVersion genericTags ->
  res_err (w_oracle w (w_log w) (runVersionCmd imageName)) = None ->
  inspectedLines (res_out (w_oracle w (w_log w) (runVersionCmd imageName)))
  = (pre ++ line :: rest)%list ->
  Forall (fun l => versionOfLine l = None) pre ->
  (forall label value,
      Contains (ToLower (TrimSpace line)) "version:" = true ->
      cut (TrimSpace line) ":" = Some (label, value) ->
      TrimSpace value <> "" ->
      fst (getRealVersion json_Unmarshal_labels imageName tagVersion w)
      = TrimSpace value) /\
  (forall token,
      versionLabel (TrimSpace line) = None ->
      versionToken (Fields (TrimSpace line)) = Some token ->
      fst (getRealVersion json_Unmarshal_labels imageName tagVersion w) = token).
Proof.
  intros Hg Herr Hlines Hpre. split.
  - intros label value Hc Hcut Hne.
    apply getRealVersion_probed; [assumption | assumption |].
    unfold probeVersion. rewrite Hlines.
    apply versionOfLines_first; [assumption |].
    unfold versionOfLine.
    now rewrite (versionLabel_value _ _ _ Hc Hcut Hne).
  - intros token Hl Ht.
    apply getRealVersion_probed; [assumption | assumption |].
    unfold probeVersion. rewrite Hlines.
    apply versionOfLines_first; [assumption |].
    unfold versionOfLine. now rewrite Hl.
Qed.

End Probe.

Lemma probe_first_line_decides_witness :
  fst (getRealVersion noLabels "redis:latest" "latest"
                      (versionWorld bannerWithLabel)) = "7.2.4"
  /\ fst (getRealVersion noLabels "app:latest" "latest"
                         (versionWorld ("App" ++ LF ++ "Version: 18.7.1")))
     = "18.7.1".
Proof.
  split.
  - refine (proj2 (probe_first_line_decides noLabels "redis:latest" "latest"
                     (versionWorld bannerWithLabel)
                     [] ["build version: 11"] "Server v7.2.4" _ _ _ _)
                  "7.2.4" _ _);
      try reflexivity; [simpl; tauto | constructor].
  - refine (proj1 (probe_first_line_decides noLabels "app:latest" "latest"
                     (versionWorld ("App" ++ LF ++ "Version: 18.7.1"))
                     ["App"] [] "Version: 18.7.1" _ _ _ _)
                  "Version" " 18.7.1" _ _ _);
      try reflexivity; [simpl; tauto | repeat constructor | discriminate].
Defined.

(** C5, the claim as stated fails: the second inspected line is a
    [version:] line with value 11, yet the resolver returns the token of
    the first line. *)
Lemma labelled_line_not_returned :
  In "build version: 11" (inspectedLines bannerWithLabel) /\
  versionLabel "build version: 11" = Some "11" /\
  fst (getRealVersion noLabels "redis:latest" "latest"
                      (versionWorld bannerWithLabel)) = "7.2.4" /\
  fst (getRealVersion noLabels "redis:latest" "latest"
                      (versionWorld bannerWithLabel)) <> "11".
Proof.
  repeat split; try reflexivity.
  - simpl. tauto.
  - discriminate.
Qed.

(** ** Error clean-up: the KeyError scenario *)

Lemma exceptionLine_none line :
  Contains line "Error:" || Contains line "Exception:" = false ->
  exceptionLine line = None.
Proof. intros H. unfold exceptionLine. now rewrite H. Qed.

Lemma scanLines_keyError pre final relevant :
  Forall (fun l => passedOver l = true) pre ->
  TrimSpace final = keyErrorLine ->
  scanLines (pre ++ [final]) relevant = [keyErrorLine].
Proof.
  intros Hpre Hfinal. revert relevant.
  induction Hpre as [| l pre Hl _ IH]; intros relevant; simpl.
  - rewrite Hfinal. reflexivity.
  - unfold passedOver in Hl.
    destruct (String.eqb (TrimSpace l) "") eqn:E1; [apply IH |].
    destruct (isProgressLine (TrimSpace l)) eqn:E2; [apply IH |].
    destruct (isTracebackNoise (TrimSpace l)) eqn:E3; [apply IH |].
    simpl in Hl. apply negb_true_iff in Hl.
    rewrite (exceptionLine_none _ Hl).
    destruct (isErrorLine (TrimSpace l)); apply IH.
Qed.

Lemma cleanDockerError_keyError operation output err pre final :
  Split (TrimSpace output) LF = (pre ++ [final])%list ->
  Forall (fun l => passedOver l = true) pre ->
  TrimSpace final = keyErrorLine ->
  cleanDockerError operation output err = operation ++ " failed: " ++ keyErrorLine.
Proof.
  intros Hs Hpre Hfinal. unfold cleanDockerError.
  rewrite Hs, (scanLines_keyError pre final [] Hpre Hfinal). reflexivity.
Qed.

(** C6 (as the code has it): when both pull commands fail and the output
    of the legacy client ends in the line KeyError: 'ContainerConfig',
    while no earlier line that the progress and traceback filters let
    through contains [Error:] or [Exception:], [PullOnly] leaves the
    project as it was and returns the one-line error
    pull failed: KeyError: 'ContainerConfig'. *)
Theorem PullOnly_keyError (p : Project.t) (w : World)
        (pre : list string) (final : string) :
  let pull1 := composeCmd (Project.Path p) ["pull"] KCombinedOutput in
  let pull2 := legacyCmd (Project.Path p) ["pull"] KCombinedOutput in
  let r2 := w_oracle w (pull1 :: w_log w) pull2 in
  res_err (w_oracle w (w_log w) pull1) <> None ->
  res_err r2 <> None ->
  Split (TrimSpace (res_out r2)) LF = (pre ++ [final])%list ->
  Forall (fun l => passedOver l = true) pre ->
  TrimSpace final = keyErrorLine ->
  fst (PullOnly p w) = (p, Some "pull failed: KeyError: 'ContainerConfig'") /\
  Contains "pull failed: KeyError: 'ContainerConfig'" LF = false.
Proof.
  intros pull1 pull2 r2 H1 H2 Hs Hpre Hfinal. split; [| reflexivity].
  unfold PullOnly, bind, exec, failed. simpl.
  fold pull1.
  destruct (res_err (w_oracle w (w_log w) pull1)) as [e1 |] eqn:E1;
    [| contradiction].
  simpl. fold pull2. fold r2.
  destruct (res_err r2) as [e2 |] eqn:E2; [| contradiction].
  simpl. f_equal. f_equal.
  apply (cleanDockerError_keyError "pull" _ e2 pre final Hs Hpre Hfinal).
Qed.

Lemma PullOnly_keyError_witness :
  fst (PullOnly sampleProject (pullFailsWorld plainTraceback))
  = (sampleProject, Some "pull failed: KeyError: 'ContainerConfig'").
Proof.
  refine (proj1 (PullOnly_keyError sampleProject (pullFailsWorld plainTraceback)
                   ["Pulling web ... done"; "ERROR: for web  'ContainerConfig'";
                    "Traceback (most recent call last):";
                    "  File compose/cli/main.py, line 81, in main";
                    "    command_func()"; "    raise error_to_reraise"]
                   keyErrorLine _ _ _ _ _));
    try reflexivity; try discriminate.
  repeat constructor.
Defined.

(** C6, the claim as stated fails: the output ends in the KeyError line
    of an embedded traceback, but an earlier exception line is the one
    surfaced. *)
Lemma keyError_not_surfaced :
  List.last (Split (TrimSpace chainedTraceback) LF) "" = keyErrorLine /\
  fst (PullOnly sampleProject (pullFailsWorld chainedTraceback))
  = (sampleProject, Some "pull failed: HTTPError: 404 Client Error: Not Found").
Proof. split; reflexivity. Qed.

(** ** Cache store *)

Section CacheProps.
Variable json_MarshalIndent : list Project.t -> string + string.
Variable json_Unmarshal : string -> list Project.t + string.


Lemma LoadFromCache_unfold cacheFile maxAge w f :
  w_files w !! cacheFile = Some f ->
  fst (LoadFromCache json_Unmarshal cacheFile maxAge w)
  = if maxAge <? saturate (w_clock w (w_ticks w) - f_mtime f)
    then inr CacheExpired
    else if f_readable f
         then match json_Unmarshal (f_data f) with
              | inl projects => inl projects
              | inr e => inr (UnmarshalFailed e)
              end
         else inr (ReadFailed "permission denied").
Proof.
  intros Hf.
  unfold LoadFromCache, bind, os_Stat, time_Since, time_Now, os_ReadFile, ret.
  rewrite Hf. simpl.
  destruct (maxAge <? saturate (w_clock w (w_ticks w) - f_mtime f));
    [reflexivity |].
  simpl. rewrite Hf.
  destruct (f_readable f); [| reflexivity].
  destruct (json_Unmarshal (f_data f)); reflexivity.
Qed.


(** C4 (as the code has it): [LoadFromCache] fails on a missing file, on
    an unreadable one and on malformed content, and it reports a file as
    expired only when its age is strictly greater than [maxAge]: a file
    whose age is exactly [maxAge] is still loaded. *)
Theorem LoadFromCache_outcomes (cacheFile : string) (maxAge : Z) (w : World) :
  (w_files w !! cacheFile = None ->
   fst (LoadFromCache json_Unmarshal cacheFile maxAge w) = inr CacheNotFound) /\
  (forall f, w_files w !! cacheFile = Some f ->
     let age := saturate (w_clock w (w_ticks w) - f_mtime f) in
     (maxAge < age ->
      fst (LoadFromCache json_Unmarshal cacheFile maxAge w) = inr CacheExpired) /\
     (f_readable f = false ->
      exists e, fst (LoadFromCache json_Unmarshal cacheFile maxAge w) = inr e) /\
     (forall e, json_Unmarshal (f_data f) = inr e ->
      exists e', fst (LoadFromCache json_Unmarshal cacheFile maxAge w) = inr e') /\
     (forall projects,
        age <= maxAge -> f_readable f = true ->
        json_Unmarshal (f_data f) = inl projects ->
        fst (LoadFromCache json_Unmarshal cacheFile maxAge w) = inl projects)).
Proof.
  split.
  - intros Hnone.
    unfold LoadFromCache, bind, os_Stat, ret. now rewrite Hnone.
  - intros f Hf age. rewrite (LoadFromCache_unfold _ _ _ _ Hf). fold age.
    repeat split.
    + intros Hlt. apply Z.ltb_lt in Hlt. now rewrite Hlt.
    + intros Hr. rewrite Hr. destruct (maxAge <? age); eauto.
    + intros e He. rewrite He.
      destruct (maxAge <? age); [eauto |]. destruct (f_readable f); eauto.
    + intros projects Hle Hr Hd. rewrite Hr, Hd.
      destruct (maxAge <? age) eqn:E; [apply Z.ltb_lt in E; lia | reflexivity].
Qed.

End CacheProps.


Lemma LoadFromCache_outcomes_witness :
  fst (LoadFromCache sampleUnmarshal cachePath cacheMaxAge
         (cacheWorld sampleDocument 0 cacheMaxAge true)) = inl [sampleProject].
Proof.
  refine (proj2 (proj2 (proj2 (proj2
            (LoadFromCache_outcomes sampleUnmarshal cachePath cacheMaxAge
               (cacheWorld sampleDocument 0 cacheMaxAge true))
            (mkFile sampleDocument 0 true) _))) [sampleProject] _ _ _);
    try reflexivity; try (vm_compute; discriminate).
Defined.

(** C4, the claim as stated fails: a cache file whose modification time
    is exactly [now - maxAge] is not reported as expired, it is loaded. *)
Lemma exact_threshold_not_expired :
  let w := cacheWorld sampleDocument 0 cacheMaxAge true in
  w_clock w (w_ticks w) - cacheMaxAge = 0 /\
  fst (LoadFromCache sampleUnmarshal cachePath cacheMaxAge w) = inl [sampleProject] /\
  fst (LoadFromCache sampleUnmarshal cachePath cacheMaxAge w) <> inr CacheExpired.
Proof.
  repeat split; try reflexivity. discriminate.
Qed.

(** ** The aggregate update flag *)

Lemma UpdateStatus_shape p w :
  exists status running,
    fst (UpdateStatus p w) = (Project.setStatus p status running, None).
Proof.
  assert (Hc : forall w0, exists status running,
             fst (countRunning p w0) = (Project.setStatus p status running, None)).
  { intros w0. unfold countRunning, bind, exec, ret. simpl.
    destruct (failed _); simpl;
      match goal with |- context [if ?b then _ else _] => destruct b end;
      simpl; eauto. }
  unfold UpdateStatus, bind, exec, ret, stopped. simpl.
  destruct (failed _); simpl.
  - destruct (failed _); simpl; [eauto |].
    destruct (onlyEmptyLine _); simpl; [eauto | apply Hc].
  - destruct (onlyEmptyLine _); simpl; [eauto | apply Hc].
Qed.

Lemma GetImages_shape p w :
  (exists e, fst (GetImages p w) = (p, inr e)) \/
  (exists images, fst (GetImages p w) = (Project.setImages p images, inl images)).
Proof.
  unfold GetImages, bind, exec, ret. simpl.
  destruct (failed _); simpl; [| eauto].
  destruct (res_err _); simpl; eauto.
Qed.

Lemma checkImage_shape imageName p hasUpdates w :
  exists i,
    fst (checkImage imageName p hasUpdates w)
    = (Project.putInfo p imageName i, ImageInfo.HasUpdate i || hasUpdates).
Proof.
  unfold checkImage, bind, exec, ret. simpl.
  destruct (failed _ || _); simpl;
    [eexists (ImageInfo.mk _ _ _ _);
     apply (f_equal2 pair); [reflexivity | reflexivity] |].
  destruct (negb (failed _)); simpl;
    [eexists (ImageInfo.mk _ _ _ _);
     apply (f_equal2 pair); [reflexivity | reflexivity] |].
  destruct (res_deadline _); simpl; eexists (ImageInfo.mk _ _ _ _);
    (apply (f_equal2 pair); [reflexivity | reflexivity]).
Qed.

Lemma infoMap_putInfo p k i :
  Project.infoMap (Project.putInfo p k i) = <[k := i]> (Project.infoMap p).
Proof. reflexivity. Qed.

Lemma infoMap_ensureInfo p : Project.infoMap (ensureInfo p) = Project.infoMap p.
Proof. destruct p as [? ? ? ? ? ? [m |] ? ?]; reflexivity. Qed.

Lemma checkImages_cons a rest p h w :
  checkImages (a :: rest) p h w
  = checkImages rest (fst (fst (checkImage a p h w)))
                (snd (fst (checkImage a p h w))) (snd (checkImage a p h w)).
Proof.
  simpl. unfold bind. destruct (checkImage a p h w) as [[p1 h1] w1]. reflexivity.
Qed.

(** The loop of [UpdateImageInfo] over a duplicate-free image list: the
    entries of other images are untouched, and the flag it carries is set
    exactly when it was set before or an entry of a listed image is. *)
Lemma checkImages_spec (images : list string) :
  NoDup images ->
  forall p h w,
    let p' := fst (fst (checkImages images p h w)) in
    let h' := snd (fst (checkImages images p h w)) in
    (forall k, k ∉ images -> Project.infoMap p' !! k = Project.infoMap p !! k) /\
    (h' = true <->
     h = true \/
     exists k i, k ∈ images /\ Project.infoMap p' !! k = Some i /\
                 ImageInfo.HasUpdate i = true) /\
    Project.Images p' = Project.Images p.
Proof.
  induction 1 as [| a rest Ha Hnd IH]; intros p h w.
  - simpl. split; [reflexivity |]. split; [| reflexivity].
    split; [auto |]. intros [Hh | (k & i & Hk & _)]; [assumption |].
    inversion Hk.
  - rewrite checkImages_cons.
    destruct (checkImage_shape a p h w) as [i Hi]. rewrite Hi. simpl.
    specialize (IH (Project.putInfo p a i) (ImageInfo.HasUpdate i || h)
                   (snd (checkImage a p h w))).
    simpl in IH. destruct IH as (Hout & Hflag & Himgs).
    assert (Hsame : Project.infoMap
                      (fst (fst (checkImages rest (Project.putInfo p a i)
                                   (ImageInfo.HasUpdate i || h)
                                   (snd (checkImage a p h w))))) !! a = Some i).
    { rewrite (Hout a Ha), infoMap_putInfo. apply lookup_insert_eq. }
    split; [| split].
    + intros k Hk. apply not_elem_of_cons in Hk as [Hne Hk].
      rewrite (Hout k Hk), infoMap_putInfo. now apply lookup_insert_ne.
    + rewrite Hflag. split.
      * intros [Hh | (k & j & Hk & Hj & Hu)].
        -- apply orb_prop in Hh as [Hh | Hh]; [| now left].
           right. exists a, i. split; [apply list_elem_of_here | auto].
        -- right. exists k, j. split; [now apply list_elem_of_further | auto].
      * intros [Hh | (k & j & Hk & Hj & Hu)].
        -- left. rewrite Hh. apply orb_true_r.
        -- apply elem_of_cons in Hk as [-> | Hk].
           ++ left. rewrite Hsame in Hj. injection Hj as ->. now rewrite Hu.
           ++ right. eauto.
    + rewrite Himgs. reflexivity.
Qed.

Lemma checkImages_Images images :
  forall p h w,
    Project.Images (fst (fst (checkImages images p h w))) = Project.Images p.
Proof.
  induction images as [| a rest IH]; intros p h w; [reflexivity |].
  rewrite checkImages_cons.
  destruct (checkImage_shape a p h w) as [i ->]. simpl.
  now rewrite IH.
Qed.

Lemma UpdateImageInfo_unfold p w :
  (exists e, fst (UpdateImageInfo p w) = (ensureInfo p, Some e)) \/
  (exists images w1,
      fst (UpdateImageInfo p w)
      = (Project.setHasUpdates
           (fst (fst (checkImages images (Project.setImages (ensureInfo p) images)
                                  false w1)))
           (snd (fst (checkImages images (Project.setImages (ensureInfo p) images)
                                  false w1))),
         None)).
Proof.
  unfold UpdateImageInfo, bind.
  destruct (GetImages_shape (ensureInfo p) w) as [[e He] | [images He]];
    destruct (GetImages (ensureInfo p) w) as [[p1 res] w1]; simpl in He;
    injection He as -> ->.
  - left. eauto.
  - right. exists images, w1.
    destruct (checkImages images _ false w1) as [[p2 h2] w2]. reflexivity.
Qed.

Lemma recreate_shape p w :
  (exists e, fst (recreate p w) = (p, Some e)) \/
  (exists now status running,
      fst (recreate p w)
      = (Project.setStatus
           (Project.setLastUpdated (Project.setHasUpdates p false) now)
           status running, None)).
Proof.
  unfold recreate, bind, exec, time_Now, ret. simpl.
  destruct (failed _); simpl.
  - destruct (res_err _); simpl; [left; eauto |].
    right. eexists.
    match goal with
    | |- context [UpdateStatus ?q ?w0] =>
        destruct (UpdateStatus_shape q w0) as (st & n & ->)
    end. eauto.
  - right. eexists.
    match goal with
    | |- context [UpdateStatus ?q ?w0] =>
        destruct (UpdateStatus_shape q w0) as (st & n & ->)
    end. eauto.
Qed.

Lemma Update_shape p w :
  (exists e, fst (Update p w) = (p, Some e)) \/
  (exists now status running,
      fst (Update p w)
      = (Project.setStatus
           (Project.setLastUpdated (Project.setHasUpdates p false) now)
           status running, None)).
Proof.
  unfold Update, bind, exec, ret. simpl.
  destruct (failed _); simpl; [| apply recreate_shape].
  destruct (res_err _); simpl; [left; eauto | apply recreate_shape].
Qed.

Section Aggregate.
Variable json_Unmarshal_labels : string -> option (gmap string string).

Lemma recordRunning_spec lines :
  forall p w,
    let p' := fst (recordRunning json_Unmarshal_labels lines p w) in
    Project.HasUpdates p' = Project.HasUpdates p /\
    forall k i, Project.infoMap p' !! k = Some i ->
                Project.infoMap p !! k = Some i \/ ImageInfo.HasUpdate i = false.
Proof.
  induction lines as [| line rest IH]; intros p w; simpl.
  - auto.
  - destruct (String.eqb (TrimSpace line) ""); [apply IH |].
    unfold bind.
    destruct (getRealVersion _ _ _ w) as [v w1].
    match goal with
    | |- context [recordRunning _ rest ?q w1] =>
        destruct (IH q w1) as [Hh Hm]
    end.
    split; [exact Hh |].
    intros k i Hk. destruct (Hm k i Hk) as [Hold | Hf]; [| now right].
    rewrite infoMap_putInfo in Hold.
    destruct (decide (TrimSpace line = k)) as [<- | Hne].
    + rewrite lookup_insert_eq in Hold. injection Hold as <-. now right.
    + rewrite lookup_insert_ne in Hold by assumption. now left.
Qed.

(** C2 (as the code has it): the three operations treat the aggregate
    flag differently.  After a successful [UpdateImageInfo] the flag is
    set exactly when an entry is, provided the image list has no
    duplicate and no entry from an earlier check of an image that is no
    longer listed has [HasUpdate] set.  A successful [Update] clears the
    flag and leaves the entries alone; a failed one changes nothing.
    [GetRunningContainerInfo] never touches the flag, and the entries it
    writes have [HasUpdate] false. *)
Theorem aggregate_flag_by_operation (p : Project.t) (w : World) :
  (snd (fst (UpdateImageInfo p w)) = None ->
   NoDup (Project.Images (fst (fst (UpdateImageInfo p w)))) ->
   (forall k i, Project.infoMap p !! k = Some i ->
                k ∉ Project.Images (fst (fst (UpdateImageInfo p w))) ->
                ImageInfo.HasUpdate i = false) ->
   aggregateAgrees (fst (fst (UpdateImageInfo p w)))) /\
  ((snd (fst (Update p w)) = None ->
    Project.HasUpdates (fst (fst (Update p w))) = false /\
    Project.ImageInfo (fst (fst (Update p w))) = Project.ImageInfo p) /\
   (snd (fst (Update p w)) <> None -> fst (fst (Update p w)) = p)) /\
  (Project.HasUpdates (fst (fst (GetRunningContainerInfo json_Unmarshal_labels p w)))
   = Project.HasUpdates p /\
   forall k i,
     Project.infoMap (fst (fst (GetRunningContainerInfo json_Unmarshal_labels p w)))
       !! k = Some i ->
     Project.infoMap p !! k = Some i \/ ImageInfo.HasUpdate i = false).
Proof.
  split; [| split].
  - destruct (UpdateImageInfo_unfold p w) as [[e ->] | (images & w1 & ->)];
      simpl; [discriminate |].
    intros _.
    set (q := Project.setImages (ensureInfo p) images).
    intros Hnd Hstale.
    assert (Himgs : Project.Images (fst (fst (checkImages images q false w1)))
                    = images) by apply checkImages_Images.
    rewrite Himgs in Hnd, Hstale.
    destruct (checkImages_spec images Hnd q false w1) as (Hout & Hflag & _).
    unfold aggregateAgrees, anyImageUpdate. simpl.
    change (Project.infoMap (Project.setHasUpdates ?x ?b)) with (Project.infoMap x).
    rewrite Hflag. split.
    + intros [Hf | (k & i & _ & Hk & Hu)]; [discriminate | eauto].
    + intros (k & i & Hk & Hu). right.
      destruct (decide (k ∈ images)) as [Hin | Hnin]; [eauto |].
      rewrite (Hout k Hnin) in Hk.
      change (Project.infoMap q) with (Project.infoMap (ensureInfo p)) in Hk.
      rewrite infoMap_ensureInfo in Hk.
      rewrite (Hstale k i Hk Hnin) in Hu. discriminate.
  - destruct (Update_shape p w) as [[e ->] | (now & st & n & ->)]; simpl.
    + split; [discriminate | reflexivity].
    + split; [auto | congruence].
  - unfold GetRunningContainerInfo, bind, exec, ret. simpl.
    destruct (res_err _); simpl.
    + split; [now destruct p as [? ? ? ? ? ? [m |] ? ?] |].
      intros k i Hk. left. now rewrite infoMap_ensureInfo in Hk.
    + match goal with
      | |- context [recordRunning _ ?l ?q ?w0] =>
          destruct (recordRunning_spec l q w0) as [Hh Hm];
          destruct (recordRunning json_Unmarshal_labels l q w0) as [p' w']
      end.
      simpl in *. split.
      * rewrite Hh. now destruct p as [? ? ? ? ? ? [m |] ? ?].
      * intros k i Hk. destruct (Hm k i Hk) as [Hold | Hf]; [| now right].
        left. now rewrite infoMap_ensureInfo in Hold.
Qed.

End Aggregate.

Lemma aggregate_flag_by_operation_witness :
  aggregateAgrees
    (fst (fst (UpdateImageInfo sampleProject
                 (listingWorld ("nginx:latest" ++ LF ++ "redis:7"))))).
Proof.
  apply (proj1 (aggregate_flag_by_operation noLabels sampleProject
                  (listingWorld ("nginx:latest" ++ LF ++ "redis:7")))).
  - reflexivity.
  - vm_compute. apply NoDup_cons. split; [| apply NoDup_singleton].
    intros H. apply list_elem_of_singleton in H. discriminate H.
  - intros k i H.
    change (Project.infoMap sampleProject)
      with (∅ : gmap string ImageInfo.t) in H.
    rewrite lookup_empty in H. discriminate H.
Defined.

(** C2, the claim as stated fails: after a successful [Update] the
    aggregate flag is false while the entry of nginx still has
    [HasUpdate] set. *)
Lemma update_clears_flag_only :
  snd (fst (Update staleProject okWorld)) = None /\
  Project.HasUpdates (fst (fst (Update staleProject okWorld))) = false /\
  Project.infoMap (fst (fst (Update staleProject okWorld))) !! "nginx:latest"
  = Some staleEntry /\
  ~ aggregateAgrees (fst (fst (Update staleProject okWorld))).
Proof.
  assert (E : Project.infoMap (fst (fst (Update staleProject okWorld)))
              !! "nginx:latest" = Some staleEntry).
  { change (Project.infoMap (fst (fst (Update staleProject okWorld))))
      with (Project.infoMap staleProject).
    apply lookup_singleton_eq. }
  split; [reflexivity |]. split; [reflexivity |]. split; [exact E |].
  intros [_ H].
  assert (Hf : Project.HasUpdates (fst (fst (Update staleProject okWorld))) = true).
  { apply H. exists "nginx:latest", staleEntry. split; [exact E | reflexivity]. }
  discriminate Hf.
Qed.

(** The same disagreement the other way round: [GetRunningContainerInfo]
    overwrites the only entry that had [HasUpdate] set and leaves the
    aggregate flag set. *)
Example running_info_keeps_flag :
  let p' := fst (fst (GetRunningContainerInfo noLabels staleProject nginxRunningWorld)) in
  Project.HasUpdates p' = true /\
  Project.infoMap p' !! "nginx:latest"
  = Some (ImageInfo.mk "nginx:latest" "latest" "latest" false).
Proof. split; vm_compute; reflexivity. Qed.

(** ** Discovery: errors *)

Lemma findWalkFn_benign accept searchDir maxDepth path info err projects w :
  benign (snd (fst (findWalkFn accept searchDir maxDepth path info err projects w))).
Proof.
  unfold findWalkFn, benign.
  destruct err as [e |]; [now left |].
  destruct info as [info |]; [| now left].
  destruct (maxDepth <? _).
  - destruct (filepath.fi_IsDir info); simpl; auto.
  - destruct (negb _ && _); [| now left].
    unfold bind, time_Now. simpl.
    match goal with
    | |- context [UpdateStatus ?q ?w0] =>
        destruct (UpdateStatus_shape q w0) as (st & n & Hs);
        destruct (UpdateStatus q w0) as [[p' e'] w']
    end.
    simpl in Hs. injection Hs as -> ->. now left.
Qed.

Section WalkBenign.
Context {A : Type}.
Variable walkFn :
  string -> option filepath.FileInfo -> option string -> A ->
  M (A * option filepath.WalkErr).
Hypothesis walkFn_benign :
  forall path info err acc w, benign (snd (fst (walkFn path info err acc w))).

Lemma walk_benign n :
  forall path acc w, benign (snd (fst (filepath.walk walkFn path n acc w))).
Proof.
  induction n as [name | name | name | name entries IH] using Node_nested_ind;
    intros path acc w; simpl; try apply walkFn_benign.
  unfold bind.
  pose proof (walkFn_benign path (Some (filepath.mkInfo name true)) None acc w) as Hb.
  destruct (walkFn path (Some (filepath.mkInfo name true)) None acc w)
    as [[acc1 err1] w1]. simpl in Hb.
  destruct err1 as [e |]; [exact Hb |].
  clear Hb. revert acc1 w1.
  induction IH as [| child rest Hchild _ IHrest]; intros acc1 w1; [now left |].
  pose proof (Hchild (filepath.Join [path; filepath.nodeName child]) acc1 w1) as Hb.
  destruct (filepath.walk walkFn _ child acc1 w1) as [[acc' err] w'].
  simpl in Hb. destruct err as [e |]; [| apply IHrest].
  destruct Hb as [Hb | Hb]; [discriminate |]. injection Hb as ->.
  destruct child; simpl; try apply IHrest. now right.
Qed.

Lemma Walk_no_error root tree acc w :
  snd (fst (filepath.Walk walkFn root tree acc w)) = None.
Proof.
  unfold filepath.Walk, bind.
  pose proof (walk_benign tree root acc w) as Hb.
  destruct (filepath.walk walkFn root tree acc w) as [[acc' err] w'].
  simpl in Hb. destruct Hb as [-> | ->]; reflexivity.
Qed.

End WalkBenign.

(** C8 (as the code has it): [FindProjects] returns the not-found error
    exactly when the walk located no project, and the located projects
    otherwise.  The walk function answers every access error with nil and
    leaves the collected projects and the world as they are, at the search
    root as anywhere else, so the walk never reports an error and the
    wrapped search error is never returned: a search root that cannot be
    accessed or read ends in the not-found error. *)
Theorem FindProjects_errors (tree : filepath.Node) (searchDir : string)
        (maxDepth : Z) (w : World) :
  let located :=
    fst (fst (filepath.Walk (findWalkFn acceptsName searchDir maxDepth)
                            searchDir tree [] w)) in
  (fst (FindProjects tree searchDir maxDepth w) = inr (NoProjects searchDir)
   <-> located = []) /\
  (located <> [] -> fst (FindProjects tree searchDir maxDepth w) = inl located) /\
  (forall cause,
      fst (FindProjects tree searchDir maxDepth w) <> inr (SearchFailed cause)) /\
  (forall path info err projects w0,
      findWalkFn acceptsName searchDir maxDepth path info (Some err) projects w0
      = ((projects, None), w0)) /\
  (forall name,
      fst (FindProjects (filepath.Broken name) searchDir maxDepth w)
      = inr (NoProjects searchDir) /\
      fst (FindProjects (filepath.Directory name None) searchDir maxDepth w)
      = inr (NoProjects searchDir)).
Proof.
  intros located. subst located.
  assert (Hroot : forall name,
             fst (FindProjects (filepath.Broken name) searchDir maxDepth w)
             = inr (NoProjects searchDir) /\
             fst (FindProjects (filepath.Directory name None) searchDir maxDepth w)
             = inr (NoProjects searchDir))
    by (intros name; split; reflexivity).
  pose proof (Walk_no_error (findWalkFn acceptsName searchDir maxDepth)
                (findWalkFn_benign acceptsName searchDir maxDepth)
                searchDir tree [] w) as Hn.
  unfold FindProjects at 1 2 3, FindProjectsWith, bind.
  destruct (filepath.Walk _ searchDir tree [] w) as [[projects err] w'].
  simpl in Hn. subst err. simpl.
  destruct projects as [| p rest]; simpl.
  - split; [split; auto |].
    split; [intros H; now contradiction H |].
    split; [discriminate |]. split; [reflexivity | exact Hroot].
  - split; [split; discriminate |].
    split; [reflexivity |].
    split; [discriminate |]. split; [reflexivity | exact Hroot].
Qed.

(** C8, the claim as stated fails: when the search root itself cannot be
    accessed the traversal fails at its first step, and the result is the
    not-found error, not a wrapped I/O error. *)
Lemma unreadable_root_is_not_found :
  fst (FindProjects (filepath.Broken "docker") defaultSearchDir defaultMaxDepth
                    deadWorld)
  = inr (NoProjects defaultSearchDir) /\
  forall cause,
    fst (FindProjects (filepath.Broken "docker") defaultSearchDir defaultMaxDepth
                      deadWorld)
    <> inr (SearchFailed cause).
Proof. split; [reflexivity | discriminate]. Qed.

Lemma FindProjects_errors_witness :
  exists p1 p2,
    fst (FindProjects scenarioTree defaultSearchDir defaultMaxDepth deadWorld)
    = inl [p1; p2].
Proof.
  eexists _, _.
  etransitivity.
  - apply (proj1 (proj2 (FindProjects_errors scenarioTree defaultSearchDir
                           defaultMaxDepth deadWorld))).
    vm_compute. discriminate.
  - vm_compute. reflexivity.
Defined.

(** ** Paths *)

Lemma HasPrefix_slash c s : HasPrefix (String c s) "/" = Ascii.eqb "/" c.
Proof.
  unfold HasPrefix.
  change (String.prefix "/" (String c s))
    with (if ascii_dec "/" c then String.prefix "" s else false).
  destruct (ascii_dec "/" c) as [<- | Hne].
  - rewrite Ascii.eqb_refl. now destruct s.
  - symmetry. now apply Ascii.eqb_neq.
Qed.

Lemma Index_slash_cons c s :
  Index (String c s) "/"
  = if Ascii.eqb "/" c then Some O else option_map S (Index s "/").
Proof.
  change (Index (String c s) "/")
    with (if HasPrefix (String c s) "/" then Some O
          else option_map S (Index s "/")).
  now rewrite HasPrefix_slash.
Qed.

Lemma Index_slash_app a rest :
  Index a "/" = None ->
  Index (a ++ "/" ++ rest) "/" = Some (String.length a).
Proof.
  induction a as [| c a IH]; intros Ha.
  - change ("" ++ "/" ++ rest) with (String "/" rest).
    now rewrite Index_slash_cons.
  - rewrite Index_slash_cons in Ha.
    change ((String c a) ++ "/" ++ rest) with (String c (a ++ "/" ++ rest)).
    rewrite Index_slash_cons.
    destruct (Ascii.eqb "/" c); [discriminate |].
    destruct (Index a "/") eqn:E; [discriminate |].
    now rewrite IH.
Qed.

Lemma take_app a b : take (String.length a) (a ++ b) = a.
Proof. induction a as [| c a IH]; simpl; [now destruct b | now rewrite IH]. Qed.

Lemma drop_app a b n : drop (String.length a + n) (a ++ b) = drop n b.
Proof. induction a as [| c a IH]; simpl; [reflexivity | exact IH]. Qed.

Lemma cut_slash_app a rest :
  Index a "/" = None -> cut (a ++ "/" ++ rest) "/" = Some (a, rest).
Proof.
  intros Ha. unfold cut. rewrite (Index_slash_app a rest Ha).
  rewrite take_app. simpl String.length.
  now rewrite (drop_app a ("/" ++ rest) 1).
Qed.

Lemma cut_slash_none a : Index a "/" = None -> cut a "/" = None.
Proof. intros Ha. unfold cut. now rewrite Ha. Qed.

Lemma genSplit_Join a l n :
  Forall (fun e => Index e "/" = None) (a :: l) ->
  (List.length l < n)%nat ->
  genSplit (Join (a :: l) "/") "/" n = a :: l.
Proof.
  revert a n. induction l as [| b l IH]; intros a n Hall Hn.
  - inversion Hall as [| ? ? Ha _]; subst. simpl.
    destruct n as [| [| n]]; [lia | reflexivity |].
    simpl. now rewrite (cut_slash_none a Ha).
  - inversion Hall as [| ? ? Ha Hrest]; subst.
    destruct n as [| [| n]]; [lia | simpl in Hn; lia |].
    change (Join (a :: b :: l) "/") with (a ++ "/" ++ Join (b :: l) "/").
    change (genSplit (a ++ "/" ++ Join (b :: l) "/") "/" (S (S n)))
      with (match cut (a ++ "/" ++ Join (b :: l) "/") "/" with
            | Some (x, y) => x :: genSplit y "/" (S n)
            | None => [a ++ "/" ++ Join (b :: l) "/"]
            end).
    rewrite (cut_slash_app a _ Ha). f_equal.
    apply IH; [exact Hrest | simpl in Hn; lia].
Qed.

Lemma length_append a b :
  String.length (a ++ b) = (String.length a + String.length b)%nat.
Proof. induction a as [| c a IH]; simpl; [reflexivity | now rewrite IH]. Qed.

Lemma Join_length l : (List.length l <= S (String.length (Join l "/")))%nat.
Proof.
  induction l as [| a l IH]; [simpl; lia |].
  destruct l as [| b l]; [simpl; lia |].
  change (Join (a :: b :: l) "/") with (a ++ "/" ++ Join (b :: l) "/").
  rewrite length_append.
  change (String.length ("/" ++ Join (b :: l) "/"))
    with (S (String.length (Join (b :: l) "/"))).
  simpl List.length in *. lia.
Qed.

Lemma Split_Join a l :
  Forall (fun e => Index e "/" = None) (a :: l) ->
  Split (Join (a :: l) "/") "/" = a :: l.
Proof.
  intros Hall. unfold Split, SplitN. simpl (_ <? _).
  apply genSplit_Join; [exact Hall |].
  pose proof (Join_length (a :: l)). simpl List.length in *. lia.
Qed.

Lemma plainName_spec e :
  plainName e = true ->
  e <> "" /\ Index e "/" = None /\ e <> "." /\ e <> "..".
Proof.
  unfold plainName, Contains. intros H.
  apply andb_prop in H as [H H4]. apply andb_prop in H as [H H3].
  apply andb_prop in H as [H1 H2].
  apply negb_true_iff in H1, H2, H3, H4.
  apply String.eqb_neq in H1, H3, H4.
  destruct (Index e "/"); [discriminate | auto].
Qed.

Lemma append_assoc (a b c : string) : (a ++ b) ++ c = a ++ (b ++ c).
Proof.
  induction a as [| x a IH]; [reflexivity |].
  change ((String x a ++ b) ++ c) with (String x ((a ++ b) ++ c)).
  now rewrite IH.
Qed.

Lemma Join_snoc l x :
  l <> [] -> Join (l ++ [x]) "/" = Join l "/" ++ "/" ++ x.
Proof.
  induction l as [| a l IH]; intros Hne; [contradiction |].
  destruct l as [| b l]; [reflexivity |].
  change (Join ((a :: b :: l) ++ [x]) "/")
    with (a ++ "/" ++ Join ((b :: l) ++ [x]) "/").
  rewrite IH by discriminate.
  change (Join (a :: b :: l) "/") with (a ++ "/" ++ Join (b :: l) "/").
  now rewrite !append_assoc.
Qed.

(** [Clean] keeps the plain elements and drops the empty ones. *)
Lemma cleanElems_plain rooted l :
  Forall (fun e => e = "" \/ plainName e = true) l ->
  forall stack,
    filepath.cleanElems rooted l stack
    = (List.rev stack ++ List.filter nonEmpty l)%list.
Proof.
  induction 1 as [| e l He _ IH]; intros stack; simpl.
  - now rewrite app_nil_r.
  - destruct He as [-> | He].
    + simpl. apply IH.
    + destruct (plainName_spec e He) as (H1 & _ & H3 & H4).
      apply String.eqb_neq in H1, H3, H4.
      unfold nonEmpty at 1. rewrite H1, H3, H4. simpl.
      rewrite IH. simpl. now rewrite <- app_assoc.
Qed.

Lemma filter_nonEmpty_plain l :
  Forall (fun e => plainName e = true) l -> List.filter nonEmpty l = l.
Proof.
  induction 1 as [| e l He _ IH]; simpl; [reflexivity |].
  destruct (plainName_spec e He) as (H1 & _). apply String.eqb_neq in H1.
  unfold nonEmpty at 1. rewrite H1. simpl. now rewrite IH.
Qed.

(** The clean form of a rooted path written with empty and plain
    elements. *)
Lemma Clean_rooted l :
  l <> [] ->
  Forall (fun e => e = "" \/ plainName e = true) l ->
  filepath.Clean (Join ("" :: l) "/") = absPath (List.filter nonEmpty l).
Proof.
  intros Hne Hall. destruct l as [| a l]; [contradiction |].
  assert (Hsplit : Split (Join ("" :: a :: l) "/") "/" = "" :: a :: l).
  { apply Split_Join. constructor; [reflexivity |].
    eapply Forall_impl; [exact Hall |]. simpl.
    intros e [-> | He]; [reflexivity | apply (plainName_spec e He)]. }
  unfold filepath.Clean.
  change (Join ("" :: a :: l) "/") with (String "/" (Join (a :: l) "/")) in *.
  change (String.eqb (String "/" (Join (a :: l) "/")) "") with false.
  cbv iota. unfold filepath.Separator. rewrite HasPrefix_slash.
  change (Ascii.eqb "/" "/") with true. cbv iota zeta.
  rewrite Hsplit. change (filepath.cleanElems true ("" :: a :: l) [])
    with (filepath.cleanElems true (a :: l) []).
  rewrite (cleanElems_plain true (a :: l) Hall []). reflexivity.
Qed.

Lemma absPath_cons e es : absPath (e :: es) = Join ("" :: e :: es) "/".
Proof. reflexivity. Qed.

Lemma Forall_plain_or l :
  Forall (fun e => plainName e = true) l ->
  Forall (fun e => e = "" \/ plainName e = true) l.
Proof. intros H. eapply Forall_impl; [exact H | auto]. Qed.

Lemma Clean_absPath elems :
  Forall (fun e => plainName e = true) elems ->
  filepath.Clean (absPath elems) = absPath elems.
Proof.
  intros Hall. destruct elems as [| e es]; [reflexivity |].
  rewrite absPath_cons, Clean_rooted; [| discriminate | now apply Forall_plain_or].
  now rewrite filter_nonEmpty_plain.
Qed.

(** [filepath.Join] of a clean absolute path and a plain name. *)
Lemma Join_child elems name :
  Forall (fun e => plainName e = true) elems ->
  plainName name = true ->
  filepath.Join [absPath elems; name] = absPath (elems ++ [name]).
Proof.
  intros Hall Hn.
  destruct (plainName_spec name Hn) as (Hne & _).
  apply String.eqb_neq in Hne.
  unfold filepath.Join. simpl List.filter.
  change (String.eqb (absPath elems) "") with false. rewrite Hne. simpl negb.
  cbv iota.
  change (Join [absPath elems; name] filepath.Separator)
    with (absPath elems ++ "/" ++ name).
  destruct elems as [| e es].
  - change (absPath [] ++ "/" ++ name) with (Join ("" :: [""; name]) "/").
    rewrite Clean_rooted;
      [| discriminate
       | constructor; [now left | constructor; [now right | constructor]]].
    simpl. unfold nonEmpty. now rewrite Hne.
  - rewrite absPath_cons.
    rewrite <- (Join_snoc ("" :: e :: es) name) by discriminate.
    change (("" :: e :: es) ++ [name])%list with ("" :: ((e :: es) ++ [name]))%list.
    rewrite Clean_rooted.
    + rewrite filter_nonEmpty_plain; [reflexivity |].
      apply Forall_app. split; [exact Hall | repeat constructor; exact Hn].
    + discriminate.
    + apply Forall_plain_or, Forall_app.
      split; [exact Hall | repeat constructor; exact Hn].
Qed.

Lemma Split_absPath elems :
  Forall (fun e => plainName e = true) elems ->
  List.filter nonEmpty (Split (absPath elems) "/") = elems.
Proof.
  intros Hall. destruct elems as [| e es]; [reflexivity |].
  rewrite absPath_cons, Split_Join.
  - change (List.filter nonEmpty ("" :: e :: es))
      with (List.filter nonEmpty (e :: es)).
    now apply filter_nonEmpty_plain.
  - constructor; [reflexivity |].
    eapply Forall_impl; [exact Hall |]. intros x Hx. apply (plainName_spec x Hx).
Qed.

Lemma elemsOf_absPath elems :
  Forall (fun e => plainName e = true) elems ->
  filepath.elemsOf (absPath elems) = elems.
Proof.
  intros Hall. unfold filepath.elemsOf.
  change (String.eqb (absPath elems) ".") with false. cbv iota.
  now apply Split_absPath.
Qed.

Lemma absPath_inj a b :
  Forall (fun e => plainName e = true) a ->
  Forall (fun e => plainName e = true) b ->
  absPath a = absPath b -> a = b.
Proof.
  intros Ha Hb H.
  rewrite <- (elemsOf_absPath a Ha), <- (elemsOf_absPath b Hb). now rewrite H.
Qed.

Lemma dropCommon_app l extra :
  filepath.dropCommon l (l ++ extra) = ([], extra).
Proof.
  induction l as [| a l IH]; simpl; [now destruct extra |].
  now rewrite String.eqb_refl.
Qed.

(** [filepath.Rel] from a clean absolute path to a path below it. *)
Lemma Rel_below elems extra :
  Forall (fun e => plainName e = true) elems ->
  Forall (fun e => plainName e = true) extra ->
  extra <> [] ->
  filepath.Rel (absPath elems) (absPath (elems ++ extra))
  = Some (Join extra "/").
Proof.
  intros He Hx Hne.
  assert (Hall : Forall (fun e => plainName e = true) (elems ++ extra))
    by (apply Forall_app; auto).
  unfold filepath.Rel. rewrite !Clean_absPath by assumption.
  destruct (String.eqb (absPath (elems ++ extra)) (absPath elems)) eqn:E.
  - apply String.eqb_eq in E. apply absPath_inj in E; [| assumption | assumption].
    exfalso. apply Hne. apply (f_equal (@List.length string)) in E.
    rewrite length_app in E. destruct extra; [reflexivity | simpl in E; lia].
  - change (HasPrefix (absPath elems) filepath.Separator) with
      (HasPrefix (String "/" (Join elems "/")) "/").
    change (HasPrefix (absPath (elems ++ extra)) filepath.Separator) with
      (HasPrefix (String "/" (Join (elems ++ extra) "/")) "/").
    rewrite !HasPrefix_slash. simpl negb. cbv iota.
    rewrite !elemsOf_absPath by assumption.
    now rewrite dropCommon_app.
Qed.

Lemma depthOf_self d : depthOf d d = 1.
Proof. unfold depthOf, filepath.Rel. now rewrite String.eqb_refl. Qed.

Lemma depthOf_below elems extra :
  Forall (fun e => plainName e = true) elems ->
  Forall (fun e => plainName e = true) extra ->
  extra <> [] ->
  depthOf (absPath elems) (absPath (elems ++ extra))
  = Z.of_nat (List.length extra).
Proof.
  intros He Hx Hne. unfold depthOf. rewrite Rel_below by assumption.
  destruct extra as [| a l]; [contradiction |].
  unfold filepath.Separator. rewrite Split_Join; [reflexivity |].
  eapply Forall_impl; [exact Hx |]. intros x Hp. apply (plainName_spec x Hp).
Qed.

Lemma LastIndex_slash_none f : Index f "/" = None -> LastIndex f "/" = None.
Proof.
  induction f as [| c f IH]; intros H; [reflexivity |].
  rewrite Index_slash_cons in H.
  destruct (Ascii.eqb "/" c) eqn:E; [discriminate |].
  destruct (Index f "/"); [discriminate |].
  change (LastIndex (String c f) "/")
    with (match LastIndex f "/" with
          | Some i => Some (S i)
          | None => if HasPrefix (String c f) "/" then Some O else None
          end).
  rewrite IH by reflexivity. now rewrite HasPrefix_slash, E.
Qed.

Lemma LastIndex_slash_app pre f :
  Index f "/" = None ->
  LastIndex (pre ++ "/" ++ f) "/" = Some (String.length pre).
Proof.
  intros Hf. induction pre as [| c pre IH].
  - change ("" ++ "/" ++ f) with (String "/" f).
    change (LastIndex (String "/" f) "/")
      with (match LastIndex f "/" with
            | Some i => Some (S i)
            | None => if HasPrefix (String "/" f) "/" then Some O else None
            end).
    now rewrite (LastIndex_slash_none f Hf), HasPrefix_slash.
  - change (LastIndex (String c pre ++ "/" ++ f) "/")
      with (match LastIndex (pre ++ "/" ++ f) "/" with
            | Some i => Some (S i)
            | None => if HasPrefix (String c (pre ++ "/" ++ f)) "/"
                      then Some O else None
            end).
    now rewrite IH.
Qed.

Lemma take_app_more a b n :
  take (String.length a + n) (a ++ b) = a ++ take n b.
Proof.
  induction a as [| c a IH]; [reflexivity |].
  change (take (String.length (String c a) + n) (String c a ++ b))
    with (String c (take (String.length a + n) (a ++ b))).
  now rewrite IH.
Qed.

Lemma append_empty_r (a : string) : a ++ "" = a.
Proof.
  induction a as [| c a IH]; [reflexivity |].
  change (String c a ++ "") with (String c (a ++ "")). now rewrite IH.
Qed.

(** A path below a clean absolute path, written around its last
    separator. *)
Lemma absPath_snoc elems f :
  absPath (elems ++ [f])
  = (match elems with [] => "" | _ => absPath elems end) ++ "/" ++ f.
Proof.
  destruct elems as [| e es]; [reflexivity |].
  change (absPath ((e :: es) ++ [f])) with (Join (("" :: e :: es) ++ [f]) "/").
  now rewrite Join_snoc by discriminate.
Qed.

Lemma Dir_child elems f :
  Forall (fun e => plainName e = true) elems ->
  plainName f = true ->
  filepath.Dir (absPath (elems ++ [f])) = absPath elems.
Proof.
  intros Hall Hf. destruct (plainName_spec f Hf) as (_ & Hidx & _).
  unfold filepath.Dir, filepath.Separator.
  rewrite absPath_snoc, (LastIndex_slash_app _ f Hidx), take_app_more.
  destruct elems as [| e es]; [reflexivity |].
  change (take 1 ("/" ++ f)) with "/".
  rewrite absPath_cons.
  replace (Join ("" :: e :: es) "/" ++ "/")
    with (Join ("" :: ((e :: es) ++ [""])) "/").
  - rewrite Clean_rooted.
    + rewrite List.filter_app, filter_nonEmpty_plain by assumption.
      simpl. now rewrite app_nil_r.
    + discriminate.
    + apply Forall_app. split; [now apply Forall_plain_or |].
      constructor; [now left | constructor].
  - change ("" :: (e :: es) ++ [""])%list with (("" :: e :: es) ++ [""])%list.
    rewrite Join_snoc by discriminate.
    now rewrite (append_empty_r "/").
Qed.

Lemma rev_app_append s t acc :
  String.rev_app (s ++ t) acc = String.rev_app t (String.rev_app s acc).
Proof.
  revert acc. induction s as [| c s IH]; intros acc; [reflexivity |].
  change (String.rev_app (String c s ++ t) acc)
    with (String.rev_app (s ++ t) (String c acc)).
  now rewrite IH.
Qed.

Lemma rev_app_rev_app s a b :
  String.rev_app (String.rev_app s a) b = String.rev_app a (s ++ b).
Proof.
  revert a b. induction s as [| c s IH]; intros a b; [reflexivity |].
  change (String.rev_app (String c s) a) with (String.rev_app s (String c a)).
  rewrite IH. reflexivity.
Qed.

Lemma rev_involutive s : String.rev (String.rev s) = s.
Proof.
  unfold String.rev. rewrite rev_app_rev_app. simpl. apply append_empty_r.
Qed.

Lemma snoc_string a : a <> "" -> exists t c, a = t ++ String c "".
Proof.
  induction a as [| x a IH]; intros Hne; [contradiction |].
  destruct a as [| y a].
  - exists "", x. reflexivity.
  - destruct IH as (t & c & Ht); [discriminate |].
    exists (String x t), c. rewrite Ht. reflexivity.
Qed.

Lemma Index_slash_last t c :
  Index (t ++ String c "") "/" = None -> Ascii.eqb c "/" = false.
Proof.
  induction t as [| x t IH]; intros H.
  - change ("" ++ String c "") with (String c "") in H.
    rewrite Index_slash_cons in H. rewrite Ascii.eqb_sym.
    destruct (Ascii.eqb "/" c); [discriminate | reflexivity].
  - change (String x t ++ String c "") with (String x (t ++ String c "")) in H.
    rewrite Index_slash_cons in H.
    destruct (Ascii.eqb "/" x); [discriminate |].
    destruct (Index (t ++ String c "") "/"); [discriminate | now apply IH].
Qed.

(** [filepath.Base] of a path that ends in a plain name. *)
Lemma Base_last pre a :
  plainName a = true -> filepath.Base (pre ++ "/" ++ a) = a.
Proof.
  intros Ha. destruct (plainName_spec a Ha) as (Hne & Hidx & _).
  destruct (snoc_string a Hne) as (t & c & ->).
  pose proof (Index_slash_last t c Hidx) as Hc.
  unfold filepath.Base.
  destruct (String.eqb (pre ++ "/" ++ t ++ String c "") "") eqn:E.
  { apply String.eqb_eq in E. apply (f_equal String.length) in E.
    rewrite !length_append in E. simpl in E. lia. }
  assert (Hrev : String.rev (pre ++ "/" ++ t ++ String c "")
                 = String c (String.rev (pre ++ "/" ++ t))).
  { rewrite <- !append_assoc. unfold String.rev.
    now rewrite rev_app_append. }
  rewrite Hrev. simpl filepath.stripSlashesRev. rewrite Hc.
  rewrite <- Hrev, rev_involutive.
  unfold filepath.Separator.
  rewrite (LastIndex_slash_app pre _ Hidx).
  rewrite (drop_app pre ("/" ++ t ++ String c "") 1).
  change (drop 1 ("/" ++ t ++ String c "")) with (t ++ String c "").
  apply String.eqb_neq in Hne. now rewrite Hne.
Qed.

Lemma Base_absPath elems a :
  plainName a = true -> filepath.Base (absPath (elems ++ [a])) = a.
Proof. intros Ha. rewrite absPath_snoc. now apply Base_last. Qed.

(** ** Discovery: the two-project scenario *)

Lemma findWalkFn_directory accept searchDir maxDepth path name projects w :
  depthOf searchDir path <= maxDepth ->
  findWalkFn accept searchDir maxDepth path
             (Some (filepath.mkInfo name true)) None projects w
  = ((projects, None), w).
Proof.
  intros Hd. unfold findWalkFn. simpl.
  destruct (maxDepth <? depthOf searchDir path) eqn:E;
    [apply Z.ltb_lt in E; lia | reflexivity].
Qed.

Lemma findWalkFn_file accept searchDir maxDepth path name projects w :
  depthOf searchDir path <= maxDepth ->
  accept name = true ->
  exists status running w',
    findWalkFn accept searchDir maxDepth path
               (Some (filepath.mkInfo name false)) None projects w
    = (((projects ++
         [Project.setStatus (newProject path (w_clock w (w_ticks w)))
                            status running])%list, None), w').
Proof.
  intros Hd Ha. unfold findWalkFn. simpl.
  destruct (maxDepth <? depthOf searchDir path) eqn:E;
    [apply Z.ltb_lt in E; lia |].
  rewrite Ha. unfold bind, time_Now.
  match goal with
  | |- context [UpdateStatus ?q ?w0] =>
      destruct (UpdateStatus_shape q w0) as (st & n & Hs);
      destruct (UpdateStatus q w0) as [[p' e'] w']
  end.
  simpl in Hs. injection Hs as -> ->. eauto.
Qed.

(** The walk of a directory that holds one compose file and nothing
    else, below a clean absolute search root: one project is appended,
    named after the directory. *)
Lemma walk_project_directory accept elems maxDepth dir file projects w :
  Forall (fun e => plainName e = true) elems ->
  plainName dir = true -> plainName file = true ->
  accept file = true -> 2 <= maxDepth ->
  exists p w',
    filepath.walk (findWalkFn accept (absPath elems) maxDepth)
                  (absPath (elems ++ [dir]))
                  (filepath.Directory dir (Some [filepath.File file]))
                  projects w
    = (((projects ++ [p])%list, None), w') /\
    Project.Name p = dir /\
    Project.Path p = absPath (elems ++ [dir]) /\
    Project.ComposeFile p = absPath (elems ++ [dir; file]).
Proof.
  intros Hall Hdir Hfile Hacc Hdepth.
  assert (Hall1 : Forall (fun e => plainName e = true) (elems ++ [dir]))
    by (apply Forall_app; split; [assumption | repeat constructor; assumption]).
  cbn [filepath.walk]. unfold bind at 1.
  rewrite findWalkFn_directory.
  2:{ rewrite depthOf_below; [simpl; lia | assumption | | discriminate].
      repeat constructor; assumption. }
  cbn [filepath.nodeName]. rewrite (Join_child _ _ Hall1 Hfile).
  unfold bind at 1. cbn [filepath.walk].
  destruct (findWalkFn_file accept (absPath elems) maxDepth
              (absPath ((elems ++ [dir]) ++ [file])) file projects w)
    as (st & n & w' & ->); [| assumption |].
  { rewrite <- app_assoc. rewrite depthOf_below; [simpl; lia | assumption | | discriminate].
    repeat constructor; assumption. }
  eexists _, w'. split; [reflexivity |].
  cbn [Project.Name Project.Path Project.ComposeFile Project.setStatus newProject].
  rewrite (Dir_child _ _ Hall1 Hfile), (Base_absPath _ _ Hdir).
  now rewrite <- app_assoc.
Qed.

(** The walk of a directory with two entries when nothing stops it. *)
Lemma walk_two_entries {A} (f : string -> option filepath.FileInfo ->
                                 option string -> A ->
                                 M (A * option filepath.WalkErr))
      path name c1 c2 acc w acc1 w1 acc2 w2 :
  f path (Some (filepath.mkInfo name true)) None acc w = ((acc, None), w) ->
  filepath.walk f (filepath.Join [path; filepath.nodeName c1]) c1 acc w
  = ((acc1, None), w1) ->
  filepath.walk f (filepath.Join [path; filepath.nodeName c2]) c2 acc1 w1
  = ((acc2, None), w2) ->
  filepath.walk f path (filepath.Directory name (Some [c1; c2])) acc w
  = ((acc2, None), w2).
Proof.
  intros H0 H1 H2. cbn [filepath.walk]. unfold bind.
  now rewrite H0, H1, H2.
Qed.

(** C7: in a tree that holds app1/docker-compose.yml and
    app2/compose.yaml and nothing else under the search root, with depth
    limit 10, [FindProjects] returns exactly two projects, named app1 and
    app2 after the directories of the compose files.  This holds for
    every clean absolute search root and on every host: status resolution
    never fails. *)
Theorem FindProjects_scenario (elems : list string) (rootName : string) (w : World) :
  Forall (fun e => plainName e = true) elems ->
  exists p1 p2,
    fst (FindProjects (scenarioTreeAt rootName) (absPath elems) 10 w)
    = inl [p1; p2] /\
    Project.Name p1 = "app1" /\ Project.Name p2 = "app2" /\
    Project.ComposeFile p1 = absPath (elems ++ ["app1"; "docker-compose.yml"]) /\
    Project.ComposeFile p2 = absPath (elems ++ ["app2"; "compose.yaml"]).
Proof.
  intros Hall.
  destruct (walk_project_directory acceptsName elems 10 "app1"
              "docker-compose.yml" [] w)
    as (p1 & w1 & Hw1 & Hn1 & _ & Hc1); try reflexivity; try assumption; [lia |].
  destruct (walk_project_directory acceptsName elems 10 "app2"
              "compose.yaml" ([] ++ [p1])%list w1)
    as (p2 & w2 & Hw2 & Hn2 & _ & Hc2); try reflexivity; try assumption; [lia |].
  exists p1, p2. split; [| auto].
  unfold FindProjects, FindProjectsWith, filepath.Walk, scenarioTreeAt.
  unfold bind at 1 2.
  erewrite walk_two_entries; cycle 1.
  - apply findWalkFn_directory. rewrite depthOf_self. lia.
  - cbn [filepath.nodeName]. rewrite (Join_child elems) by (assumption || reflexivity).
    exact Hw1.
  - cbn [filepath.nodeName]. rewrite (Join_child elems) by (assumption || reflexivity).
    exact Hw2.
  - reflexivity.
Qed.

Lemma FindProjects_scenario_witness :
  exists p1 p2,
    fst (FindProjects scenarioTree defaultSearchDir defaultMaxDepth okWorld)
    = inl [p1; p2] /\
    Project.Name p1 = "app1" /\ Project.Name p2 = "app2" /\
    Project.ComposeFile p1 = "/home/dockeruser/docker/app1/docker-compose.yml" /\
    Project.ComposeFile p2 = "/home/dockeruser/docker/app2/compose.yaml".
Proof.
  apply (FindProjects_scenario ["home"; "dockeruser"; "docker"] "docker" okWorld).
  repeat constructor.
Defined.

(** ** The parallel update batch *)

Lemma foldr_insert_const {V} (v : V) (keys : list Z) (st : gmap Z V) (j : Z) :
  foldr (fun idx acc => <[idx := v]> acc) st keys !! j
  = if decide (j ∈ keys) then Some v else st !! j.
Proof.
  induction keys as [| k rest IH]; simpl.
  - destruct (decide (j ∈ [])) as [H | _]; [inversion H | reflexivity].
  - destruct (decide (k = j)) as [-> | Hne].
    + rewrite lookup_insert_eq.
      destruct (decide (j ∈ j :: rest)) as [_ | H]; [reflexivity |].
      exfalso. apply H. apply list_elem_of_here.
    + rewrite lookup_insert_ne by assumption. rewrite IH.
      destruct (decide (j ∈ rest)) as [Hin | Hnin];
        destruct (decide (j ∈ k :: rest)) as [Hin' | Hnin']; try reflexivity.
      * exfalso. apply Hnin'. now apply list_elem_of_further.
      * apply elem_of_cons in Hin' as [-> | Hin']; [congruence | contradiction].
Qed.

Lemma selected_keys {V} (sel : gmap Z V) (idx : Z) :
  idx ∈ (map_to_list sel).*1 <-> idx ∈ dom sel.
Proof.
  rewrite elem_of_dom, list_elem_of_fmap. split.
  - intros ([k v] & -> & H). apply elem_of_map_to_list in H. eauto.
  - intros [v H]. exists (idx, v). split; [reflexivity |].
    now apply elem_of_map_to_list.
Qed.

Lemma selected_keys_length {V} (sel : gmap Z V) :
  List.length (map_to_list sel).*1 = size sel.
Proof. rewrite length_fmap. apply length_map_to_list. Qed.

Lemma dispatch_all (m : ui.Model) (keys : list Z) (st : gmap Z string) :
  (forall idx, idx ∈ keys -> 0 <= idx < Z.of_nat (List.length (ui.projects m))) ->
  exists st',
    foldr (ui.dispatch m) (Some (st, [])) keys
    = Some (st', List.rev (ui.taskFor m <$> keys)) /\
    forall j, st' !! j = if decide (j ∈ keys) then Some "updating" else st !! j.
Proof.
  induction keys as [| k rest IH]; intros Hvalid; simpl.
  - exists st. split; [reflexivity |]. intros j.
    destruct (decide (j ∈ [])) as [H | _]; [inversion H | reflexivity].
  - destruct IH as (st1 & -> & Hst1).
    { intros idx Hin. apply Hvalid. now apply list_elem_of_further. }
    pose proof (Hvalid k (list_elem_of_here _ _)) as [Hlo Hhi].
    unfold ui.dispatch.
    destruct (Z.of_nat (List.length (ui.projects m)) <=? k) eqn:E1;
      [apply Z.leb_le in E1; lia |].
    destruct (k <? 0) eqn:E2; [apply Z.ltb_lt in E2; lia |].
    eexists. split; [reflexivity |].
    intros j. destruct (decide (k = j)) as [-> | Hne].
    + rewrite lookup_insert_eq.
      destruct (decide (j ∈ j :: rest)) as [_ | H]; [reflexivity |].
      exfalso. apply H. apply list_elem_of_here.
    + rewrite lookup_insert_ne by assumption. rewrite Hst1.
      destruct (decide (j ∈ rest)) as [Hin | Hnin];
        destruct (decide (j ∈ k :: rest)) as [Hin' | Hnin']; try reflexivity.
      * exfalso. apply Hnin'. now apply list_elem_of_further.
      * apply elem_of_cons in Hin' as [-> | Hin']; [congruence | contradiction].
Qed.

Lemma wrapInt_small z : - 2 ^ 63 <= z <= ui.maxInt -> ui.wrapInt z = z.
Proof.
  unfold ui.wrapInt, ui.maxInt. intros H.
  rewrite Z.mod_small by lia. lia.
Qed.

Lemma deliver_cons m msg msgs :
  ui.deliver m (msg :: msgs) = ui.deliver (fst (ui.Update m msg)) msgs.
Proof. reflexivity. Qed.

Lemma Update_tick m : fst (ui.Update m ui.tickMsg) = m.
Proof. simpl. now destruct (ui.loading m). Qed.

(** Statuses along a run whose completions name each project at most once:
    a project that has not completed keeps its status, one that has
    completed shows its outcome. *)
Lemma deliver_status (msgs : list ui.Msg) :
  forall m,
    NoDup (ui.completed msgs).*1 ->
    (forall idx, idx ∉ (ui.completed msgs).*1 ->
                 ui.projectUpdateStatus (ui.deliver m msgs) !! idx
                 = ui.projectUpdateStatus m !! idx) /\
    (forall idx (s : bool), (idx, s) ∈ ui.completed msgs ->
                   ui.projectUpdateStatus (ui.deliver m msgs) !! idx
                   = Some (if s then "success" else "failed")).
Proof.
  induction msgs as [| msg rest IH]; intros m Hnd.
  - split; [reflexivity |]. intros idx s H. inversion H.
  - rewrite deliver_cons. destruct msg as [i name s0 e | |].
    + change (ui.completed (ui.updateCompleteMsg i name s0 e :: rest))
        with ((i, s0) :: ui.completed rest) in *.
      simpl in Hnd. apply NoDup_cons in Hnd as [Hi Hnd].
      destruct (IH (fst (ui.Update m (ui.updateCompleteMsg i name s0 e))) Hnd)
        as [Hkeep Hdone].
      split.
      * intros idx Hidx. simpl in Hidx.
        apply not_elem_of_cons in Hidx as [Hne Hidx].
        rewrite (Hkeep idx Hidx). simpl. now apply lookup_insert_ne.
      * intros idx s Hin. apply elem_of_cons in Hin as [Heq | Hin].
        -- injection Heq as -> ->. rewrite (Hkeep i Hi). simpl.
           rewrite lookup_insert_eq. now destruct s0.
        -- now apply Hdone.
    + apply (IH m Hnd).
    + change (ui.completed (ui.tickMsg :: rest)) with (ui.completed rest) in *.
      rewrite Update_tick. apply (IH m Hnd).
Qed.

(** Counters along a run: [k] completions before, [n] the total. *)
Lemma deliver_counters (msgs : list ui.Msg) :
  forall m k n,
    ui.updatesTotal m = Z.of_nat n ->
    ui.updatesCompleted m = Z.of_nat k ->
    (ui.loading m = false <-> k = n) ->
    (k + List.length (ui.completed msgs) <= n)%nat ->
    Z.of_nat n <= ui.maxInt ->
    ui.updatesTotal (ui.deliver m msgs) = Z.of_nat n /\
    ui.updatesCompleted (ui.deliver m msgs)
    = Z.of_nat (k + List.length (ui.completed msgs)) /\
    (ui.loading (ui.deliver m msgs) = false
     <-> (k + List.length (ui.completed msgs))%nat = n).
Proof.
  induction msgs as [| msg rest IH]; intros m k n Ht Hc Hl Hle Hmax.
  - simpl. rewrite Nat.add_0_r. auto.
  - rewrite deliver_cons. destruct msg as [i name s0 e | |].
    + change (ui.completed (ui.updateCompleteMsg i name s0 e :: rest))
        with ((i, s0) :: ui.completed rest) in *.
      simpl List.length in *.
      replace (k + S (List.length (ui.completed rest)))%nat
        with (S k + List.length (ui.completed rest))%nat in * by lia.
      assert (Hw : ui.wrapInt (ui.updatesCompleted m + 1) = Z.of_nat (S k)).
      { rewrite Hc, wrapInt_small; [lia |]. unfold ui.maxInt in *. lia. }
      apply IH; simpl; try assumption.
      rewrite Hw, Ht.
      destruct (Z.of_nat n <=? Z.of_nat (S k)) eqn:E.
      * apply Z.leb_le in E. split; [lia | reflexivity].
      * apply Z.leb_gt in E. split; [| lia].
        intros Hf. apply Hl in Hf. lia.
    + change (ui.completed (ui.allUpdatesCompleteMsg :: rest))
        with (ui.completed rest) in *.
      apply IH; assumption.
    + change (ui.completed (ui.tickMsg :: rest)) with (ui.completed rest) in *.
      rewrite Update_tick. apply IH; assumption.
Qed.

Lemma completions_bounded (sel : gmap Z bool) (l : list Z) :
  NoDup l -> (forall idx, idx ∈ l -> idx ∈ dom sel) ->
  (List.length l <= size sel)%nat.
Proof.
  intros Hnd Hsub.
  rewrite <- (selected_keys_length sel).
  apply submseteq_length, NoDup_submseteq; [exact Hnd |].
  intros idx Hin. apply selected_keys. now apply Hsub.
Qed.

(** The guard of the update list: Enter leaves the list for the mode
    selection only with a non-empty selection. *)
Lemma handleEnter_update_list_guard (m m' : ui.Model) (cmds : list ui.Cmd) :
  ui.screen m = ui.ScreenUpdateList ->
  ui.handleEnter m = Some (m', cmds) ->
  ui.screen m' = ui.ScreenUpdateModeSelect ->
  ui.selectedUpdates m' <> ∅.
Proof.
  unfold ui.handleEnter. intros Hscr H Hs. rewrite Hscr in H.
  destruct (0 <? ui.len (ui.selectedUpdates m)) eqn:E; injection H as <- <-.
  - simpl. intros Hempty. rewrite Hempty in E. discriminate E.
  - congruence.
Qed.

(** The three ways [handleEnter] starts a batch all run the same block
    and then [performUpdates]. *)
Lemma handleEnter_starts_batch (m : ui.Model) :
  (ui.screen m = ui.ScreenUpdateModeSelect -> ui.cursor m = 0 ->
   ui.handleEnter m
   = ui.performUpdates (ui.beginUpdates (ui.withUpdateMode m "pull"))) /\
  (ui.screen m = ui.ScreenUpdateRestartConfirm ->
   ui.handleEnter m = ui.withTick (ui.performUpdates (ui.beginUpdates m))) /\
  (ui.screen m = ui.ScreenUpdateConfirm -> ui.cursor m = 0 ->
   ui.handleEnter m = ui.withTick (ui.performUpdates (ui.beginUpdates m))).
Proof.
  unfold ui.handleEnter. repeat split.
  - intros -> ->. reflexivity.
  - intros ->. reflexivity.
  - intros -> ->. reflexivity.
Qed.

(** A task reports the index it was made for, and reports success
    exactly when the engine operation returned no error. *)
Lemma runTask_message (idx : Z) (restart : bool) (mode : string)
      (p : Project.t) (w : World) :
  exists err,
    snd (fst (ui.runTask idx restart mode p w))
    = ui.updateCompleteMsg idx (Project.Name p)
        (match err with None => true | Some _ => false end) err.
Proof.
  unfold ui.runTask, bind.
  destruct ((if String.eqb mode "pull" then PullOnly p
             else if restart then Update p else PullOnly p) w)
    as [[p' err] w'].
  exists err. reflexivity.
Qed.

(** C9: a batch over a non-empty selection of existing projects.  The
    start block sets every selected project to pending; [performUpdates]
    sets each to updating and makes exactly one task per selected project.
    Along any run in which each task reports at most once, every
    completion message adds one to the completed count and moves its
    project from updating to success or failed, the others staying as they
    are; and [loading] is false exactly when the completed count has
    reached the number of selected projects, whatever the outcomes. *)
Theorem parallel_update_batch (m : ui.Model) (msgs : list ui.Msg) :
  ui.selectedUpdates m <> ∅ ->
  (forall idx, idx ∈ dom (ui.selectedUpdates m) ->
               0 <= idx < Z.of_nat (List.length (ui.projects m))) ->
  ui.len (ui.selectedUpdates m) <= ui.maxInt ->
  NoDup (ui.completed msgs).*1 ->
  (forall idx, idx ∈ (ui.completed msgs).*1 -> idx ∈ dom (ui.selectedUpdates m)) ->
  (forall idx, idx ∈ dom (ui.selectedUpdates m) ->
               ui.projectUpdateStatus (ui.beginUpdates m) !! idx = Some "pending") /\
  exists m1 cmds,
    ui.performUpdates (ui.beginUpdates m) = Some (m1, cmds) /\
    cmds ≡ₚ ui.taskFor m <$> (map_to_list (ui.selectedUpdates m)).*1 /\
    (forall idx, idx ∈ dom (ui.selectedUpdates m) ->
                 ui.projectUpdateStatus m1 !! idx = Some "updating") /\
    ui.updatesTotal (ui.deliver m1 msgs) = ui.len (ui.selectedUpdates m) /\
    ui.updatesCompleted (ui.deliver m1 msgs)
    = Z.of_nat (List.length (ui.completed msgs)) /\
    (forall idx (s : bool), (idx, s) ∈ ui.completed msgs ->
                 ui.projectUpdateStatus (ui.deliver m1 msgs) !! idx
                 = Some (if s then "success" else "failed")) /\
    (forall idx, idx ∈ dom (ui.selectedUpdates m) ->
                 idx ∉ (ui.completed msgs).*1 ->
                 ui.projectUpdateStatus (ui.deliver m1 msgs) !! idx
                 = Some "updating") /\
    (ui.loading (ui.deliver m1 msgs) = false
     <-> List.length (ui.completed msgs) = size (ui.selectedUpdates m)).
Proof.
  intros Hne Hvalid Hmax Hnd Hsub.
  set (keys := (map_to_list (ui.selectedUpdates m)).*1).
  split.
  - intros idx Hin. simpl. fold keys. rewrite foldr_insert_const.
    destruct (decide (idx ∈ keys)) as [_ | Hn]; [reflexivity |].
    exfalso. apply Hn. now apply selected_keys.
  - destruct (dispatch_all (ui.beginUpdates m) keys
                (ui.projectUpdateStatus (ui.beginUpdates m)))
      as (st' & Hfold & Hst').
    { intros idx Hin. apply Hvalid. now apply selected_keys. }
    unfold ui.performUpdates.
    change (ui.selectedUpdates (ui.beginUpdates m)) with (ui.selectedUpdates m).
    fold keys. rewrite Hfold.
    eexists _, _. split; [reflexivity |].
    split; [symmetry; apply Permutation_rev |].
    assert (Hupd : forall idx, idx ∈ dom (ui.selectedUpdates m) ->
                               st' !! idx = Some "updating").
    { intros idx Hin. rewrite Hst'.
      destruct (decide (idx ∈ keys)) as [_ | Hn]; [reflexivity |].
      exfalso. apply Hn. now apply selected_keys. }
    split; [exact Hupd |].
    pose proof (completions_bounded _ _ Hnd Hsub) as Hlen.
    rewrite length_fmap in Hlen.
    assert (Hpos : size (ui.selectedUpdates m) <> O).
    { intros H0. apply Hne. now apply map_size_empty_iff. }
    match goal with
    | |- context [ui.deliver ?m1 msgs] =>
        destruct (deliver_counters msgs m1 O (size (ui.selectedUpdates m)))
          as (Ht & Hc & Hl);
        [reflexivity | reflexivity
         | simpl; split; [discriminate | intros H0; now symmetry in H0]
         | simpl; lia | exact Hmax |];
        destruct (deliver_status msgs m1 Hnd) as [Hkeep Hdone]
    end.
    simpl in Hc, Hl.
    split; [exact Ht |]. split; [exact Hc |]. split; [exact Hdone |].
    split; [| exact Hl].
    intros idx Hin Hnot. rewrite (Hkeep idx Hnot). simpl. now apply Hupd.
Qed.

Lemma parallel_update_batch_witness :
  exists m1 cmds,
    ui.performUpdates (ui.beginUpdates selectingModel) = Some (m1, cmds) /\
    ui.projectUpdateStatus (ui.deliver m1 sampleRun) !! 2 = Some "success" /\
    ui.projectUpdateStatus (ui.deliver m1 sampleRun) !! 0 = Some "failed" /\
    ui.loading (ui.deliver m1 sampleRun) = false.
Proof.
  assert (Hdom : dom (ui.selectedUpdates selectingModel) = {[0; 2]}).
  { unfold selectingModel. simpl.
    rewrite dom_insert_L, dom_singleton_L. reflexivity. }
  destruct (parallel_update_batch selectingModel sampleRun)
    as (_ & m1 & cmds & Hp & _ & _ & _ & _ & Hdone & _ & Hl).
  - apply insert_non_empty.
  - intros idx H. rewrite Hdom in H.
    apply elem_of_union in H as [H | H]; apply elem_of_singleton in H;
      subst idx; simpl; lia.
  - vm_compute. discriminate.
  - simpl. apply NoDup_cons. split; [| apply NoDup_singleton].
    intros H. apply list_elem_of_singleton in H. discriminate H.
  - intros idx H. rewrite Hdom. simpl in H.
    apply elem_of_cons in H as [-> | H];
      [| apply list_elem_of_singleton in H; subst idx]; set_solver.
  - exists m1, cmds. split; [exact Hp |].
    split; [apply (Hdone 2 true); simpl; apply list_elem_of_here |].
    split; [apply (Hdone 0 false); simpl;
            apply list_elem_of_further, list_elem_of_here |].
    apply Hl. reflexivity.
Defined.

(** ** Strings: one-byte separators *)

Lemma HasPrefix_byte c d s :
  HasPrefix (String d s) (String c "") = Ascii.eqb c d.
Proof.
  unfold HasPrefix.
  change (String.prefix (String c "") (String d s))
    with (if ascii_dec c d then String.prefix "" s else false).
  destruct (ascii_dec c d) as [<- | Hne].
  - rewrite Ascii.eqb_refl. now destruct s.
  - symmetry. now apply Ascii.eqb_neq.
Qed.

Lemma Index_byte_nil c : Index "" (String c "") = None.
Proof. reflexivity. Qed.

Lemma Index_byte_cons c d s :
  Index (String d s) (String c "")
  = if Ascii.eqb c d then Some O else option_map S (Index s (String c "")).
Proof.
  change (Index (String d s) (String c ""))
    with (if HasPrefix (String d s) (String c "") then Some O
          else option_map S (Index s (String c ""))).
  now rewrite HasPrefix_byte.
Qed.

Lemma Contains_byte_false c s :
  Contains s (String c "") = false <-> Index s (String c "") = None.
Proof. unfold Contains. destruct (Index s (String c "")); split; congruence. Qed.

Lemma lacks_cons c d s :
  Index (String d s) (String c "") = None
  <-> Ascii.eqb c d = false /\ Index s (String c "") = None.
Proof.
  rewrite Index_byte_cons.
  destruct (Ascii.eqb c d); [split; [discriminate | intros [? _]; discriminate] |].
  destruct (Index s (String c "")); simpl; split; try tauto; try discriminate.
  intros [_ ?]; discriminate.
Qed.

Lemma string_app_cons d (a b : string) : String d a ++ b = String d (a ++ b).
Proof. reflexivity. Qed.

Lemma lacks_app c a b :
  Index (a ++ b) (String c "") = None
  <-> Index a (String c "") = None /\ Index b (String c "") = None.
Proof.
  induction a as [| d a IH].
  - change ("" ++ b) with b. split; [intros H; split; [reflexivity | exact H] | tauto].
  - rewrite string_app_cons, !lacks_cons, IH. tauto.
Qed.

Lemma lacks_drop c n s :
  Index s (String c "") = None -> Index (drop n s) (String c "") = None.
Proof.
  revert s. induction n as [| n IH]; intros s H; [exact H |].
  destruct s as [| d s]; [exact H |].
  simpl. apply IH. now apply lacks_cons in H.
Qed.

Lemma lacks_take c n s :
  Index s (String c "") = None -> Index (take n s) (String c "") = None.
Proof.
  revert s. induction n as [| n IH]; intros s H; [reflexivity |].
  destruct s as [| d s]; [reflexivity |].
  simpl. apply lacks_cons in H as [H1 H2]. apply lacks_cons. auto.
Qed.

Lemma lacks_rev_app c s acc :
  Index (String.rev_app s acc) (String c "") = None
  <-> Index s (String c "") = None /\ Index acc (String c "") = None.
Proof.
  revert acc. induction s as [| d s IH]; intros acc.
  - simpl. split; [intros H; split; [reflexivity | exact H] | tauto].
  - change (String.rev_app (String d s) acc) with (String.rev_app s (String d acc)).
    rewrite IH, !lacks_cons. tauto.
Qed.

Lemma lacks_rev c s :
  Index (String.rev s) (String c "") = None <-> Index s (String c "") = None.
Proof.
  unfold String.rev. rewrite lacks_rev_app. split; [tauto | intros H; now split].
Qed.

(** The first occurrence of a byte cuts the string in two. *)
Lemma Index_byte_Some c s i :
  Index s (String c "") = Some i ->
  Index (take i s) (String c "") = None /\
  s = take i s ++ String c (drop (i + 1) s) /\
  (i < String.length s)%nat.
Proof.
  revert i. induction s as [| d s IH]; intros i H; [discriminate |].
  rewrite Index_byte_cons in H.
  destruct (Ascii.eqb c d) eqn:E.
  - injection H as <-. apply Ascii.eqb_eq in E as ->.
    simpl. split; [reflexivity |]. split; [reflexivity | lia].
  - destruct (Index s (String c "")) as [j |] eqn:Ej; [| discriminate].
    simpl in H. injection H as <-.
    destruct (IH j eq_refl) as (H1 & H2 & H3).
    simpl. split; [apply lacks_cons; auto |].
    split; [| lia]. rewrite string_app_cons. f_equal. exact H2.
Qed.

Lemma length_drop n s : (String.length (drop n s) = String.length s - n)%nat.
Proof.
  revert s. induction n as [| n IH]; intros s; [simpl; lia |].
  destruct s as [| d s]; [reflexivity |]. simpl. apply IH.
Qed.

Lemma genSplit_unfold s sep n :
  genSplit s sep (S (S n))
  = match cut s sep with
    | Some (a, b) => a :: genSplit b sep (S n)
    | None => [s]
    end.
Proof. reflexivity. Qed.

(** The pieces of a split at a byte do not contain the byte, and joined
    with it they give the string back. *)
Lemma genSplit_byte c n :
  forall s, (String.length s <= n)%nat ->
    Forall (fun piece => Index piece (String c "") = None)
           (genSplit s (String c "") (S n)) /\
    Join (genSplit s (String c "") (S n)) (String c "") = s /\
    genSplit s (String c "") (S n) <> [].
Proof.
  induction n as [| n IH]; intros s Hlen.
  - destruct s; [| simpl in Hlen; lia].
    simpl. split; [constructor; [reflexivity | constructor] |].
    split; [reflexivity | discriminate].
  - rewrite genSplit_unfold. unfold cut.
    destruct (Index s (String c "")) as [i |] eqn:Ei.
    + destruct (Index_byte_Some c s i Ei) as (H1 & H2 & H3).
      change (String.length (String c "")) with 1%nat.
      destruct (IH (drop (i + 1) s)) as (Ha & Hb & Hc).
      { rewrite length_drop. lia. }
      split; [constructor; assumption |].
      split; [| discriminate].
      destruct (genSplit (drop (i + 1) s) (String c "") (S n)) as [| x l] eqn:El;
        [contradiction |].
      change (Join (take i s :: x :: l) (String c ""))
        with (take i s ++ String c "" ++ Join (x :: l) (String c "")).
      rewrite Hb. change (String c "" ++ drop (i + 1) s) with (String c (drop (i + 1) s)).
      now rewrite <- H2.
    + split; [constructor; [exact Ei | constructor] |].
      split; [reflexivity | discriminate].
Qed.

Lemma Split_byte c s :
  Forall (fun piece => Index piece (String c "") = None) (Split s (String c "")) /\
  Join (Split s (String c "")) (String c "") = s /\
  Split s (String c "") <> [].
Proof. unfold Split, SplitN. simpl (_ <? _). apply genSplit_byte. lia. Qed.

(** Absence of a byte is kept by a split at another separator. *)
Lemma genSplit_lacks c sep n :
  forall s, Index s (String c "") = None ->
    Forall (fun piece => Index piece (String c "") = None) (genSplit s sep n).
Proof.
  induction n as [| n IH]; intros s H; [constructor |].
  destruct n as [| n]; [constructor; [exact H | constructor] |].
  rewrite genSplit_unfold. unfold cut.
  destruct (Index s sep) as [i |].
  - constructor; [now apply lacks_take |]. apply IH. now apply lacks_drop.
  - constructor; [exact H | constructor].
Qed.

(** ** Strings: trimming *)

Ltac lead_byte :=
  try change (nat_of_ascii "194"%char) with 194%nat;
  try change (nat_of_ascii "225"%char) with 225%nat;
  try change (nat_of_ascii "226"%char) with 226%nat;
  try change (nat_of_ascii "227"%char) with 227%nat;
  cbv iota beta zeta.

Lemma wideSpaceRune_drop s s' :
  wideSpaceRune s = Some s' -> s' = drop 2 s \/ s' = drop 3 s.
Proof.
  destruct s as [| c [| d [| e s3]]]; try discriminate.
  - destruct c as [[] [] [] [] [] [] [] []]; discriminate.
  - destruct c as [[] [] [] [] [] [] [] []]; try discriminate.
    unfold wideSpaceRune. lead_byte.
    destruct (_ || _); [| discriminate]. intros [= <-]. now left.
  - destruct c as [[] [] [] [] [] [] [] []]; try discriminate;
      unfold wideSpaceRune; lead_byte;
      match goal with
      | |- (if ?b then _ else _) = _ -> _ => destruct b; [| discriminate]
      end; intros [= <-]; auto.
Qed.

Lemma spaceRune_drop s s' :
  spaceRune s = Some s' -> exists k, (0 < k)%nat /\ s' = drop k s /\ s <> "".
Proof.
  destruct s as [| c s1]; [discriminate |].
  unfold spaceRune. destruct (isAsciiSpace c).
  - intros [= <-]. exists 1%nat. split; [lia |]. split; [reflexivity | discriminate].
  - intros H. destruct (wideSpaceRune_drop _ _ H) as [-> | ->].
    + exists 2%nat. split; [lia |]. split; [reflexivity | discriminate].
    + exists 3%nat. split; [lia |]. split; [reflexivity | discriminate].
Qed.

Lemma spaceRuneRev_drop r r' :
  spaceRuneRev r = Some r' -> exists k, r' = drop k r.
Proof.
  destruct r as [| c r1]; [discriminate |].
  unfold spaceRuneRev. destruct (isAsciiSpace c).
  - intros [= <-]. now exists 1%nat.
  - destruct r1 as [| d r2]; [discriminate |].
    destruct (wideSpaceRune (String d (String c ""))) as [[| ? ?] |].
    + intros [= <-]. now exists 2%nat.
    + destruct r2 as [| e r3]; [discriminate |].
      destruct (wideSpaceRune _) as [[| ? ?] |]; try discriminate.
      intros [= <-]. now exists 3%nat.
    + destruct r2 as [| e r3]; [discriminate |].
      destruct (wideSpaceRune _) as [[| ? ?] |]; try discriminate.
      intros [= <-]. now exists 3%nat.
Qed.

Lemma drop_drop a b s : drop a (drop b s) = drop (b + a) s.
Proof.
  revert s. induction b as [| b IH]; intros s; [reflexivity |].
  destruct s as [| c s]; [now destruct a |]. simpl. apply IH.
Qed.

Lemma trimLeftFuel_drop fuel s : exists k, trimLeftFuel fuel s = drop k s.
Proof.
  revert s. induction fuel as [| f IH]; intros s; [now exists O |].
  simpl. destruct (spaceRune s) as [s' |] eqn:E; [| now exists O].
  destruct (spaceRune_drop _ _ E) as (k & _ & -> & _).
  destruct (IH (drop k s)) as [j ->]. rewrite drop_drop. eauto.
Qed.

Lemma trimRightFuel_drop fuel r : exists k, trimRightFuel fuel r = drop k r.
Proof.
  revert r. induction fuel as [| f IH]; intros r; [now exists O |].
  simpl. destruct (spaceRuneRev r) as [r' |] eqn:E; [| now exists O].
  destruct (spaceRuneRev_drop _ _ E) as (k & ->).
  destruct (IH (drop k r)) as [j ->]. rewrite drop_drop. eauto.
Qed.

Lemma TrimSpace_lacks c s :
  Index s (String c "") = None -> Index (TrimSpace s) (String c "") = None.
Proof.
  intros H. unfold TrimSpace, TrimRightSpace, TrimLeftSpace.
  apply lacks_rev.
  destruct (trimRightFuel_drop
              (String.length (trimLeftFuel (String.length s) s))
              (String.rev (trimLeftFuel (String.length s) s))) as [k ->].
  apply lacks_drop. apply lacks_rev.
  destruct (trimLeftFuel_drop (String.length s) s) as [j ->].
  now apply lacks_drop.
Qed.

(** With enough fuel the left trim stops at a byte that starts no white
    space. *)
Lemma trimLeftFuel_done fuel :
  forall s, (String.length s <= fuel)%nat -> spaceRune (trimLeftFuel fuel s) = None.
Proof.
  induction fuel as [| f IH]; intros s Hlen.
  - destruct s; [reflexivity | simpl in Hlen; lia].
  - simpl. destruct (spaceRune s) as [s' |] eqn:E; [| exact E].
    apply IH. destruct (spaceRune_drop _ _ E) as (k & Hk & -> & Hne).
    rewrite length_drop. destruct s; [contradiction |]. simpl in *. lia.
Qed.

Lemma take_drop n s : take n s ++ drop n s = s.
Proof.
  revert s. induction n as [| n IH]; intros s; [reflexivity |].
  destruct s as [| c s]; [reflexivity |].
  simpl. rewrite string_app_cons. now rewrite IH.
Qed.

Lemma rev_app_distr_string a b :
  String.rev (a ++ b) = String.rev b ++ String.rev a.
Proof.
  unfold String.rev. rewrite rev_app_append.
  assert (G : forall s acc, String.rev_app s acc = String.rev_app s "" ++ acc).
  { induction s as [| c s IH]; intros acc; [reflexivity |].
    change (String.rev_app (String c s) acc) with (String.rev_app s (String c acc)).
    change (String.rev_app (String c s) "") with (String.rev_app s (String c "")).
    rewrite (IH (String c acc)), (IH (String c "")).
    rewrite append_assoc. reflexivity. }
  apply G.
Qed.

(** The right trim keeps a prefix of the string. *)
Lemma TrimRightSpace_prefix t : exists x, t = TrimRightSpace t ++ x.
Proof.
  unfold TrimRightSpace.
  destruct (trimRightFuel_drop (String.length t) (String.rev t)) as [k ->].
  exists (String.rev (take k (String.rev t))).
  rewrite <- rev_app_distr_string, take_drop. symmetry. apply rev_involutive.
Qed.

(** A trimmed string does not start with an ASCII blank. *)
Lemma TrimSpace_head s c r :
  TrimSpace s = String c r -> isAsciiSpace c = false.
Proof.
  unfold TrimSpace. intros H.
  destruct (TrimRightSpace_prefix (TrimLeftSpace s)) as [x Hx].
  rewrite H in Hx. rewrite string_app_cons in Hx.
  pose proof (trimLeftFuel_done (String.length s) s (le_n _)) as Hd.
  fold (TrimLeftSpace s) in Hd. rewrite Hx in Hd.
  unfold spaceRune in Hd. destruct (isAsciiSpace c); [discriminate | reflexivity].
Qed.

(** ** Status reader *)

Lemma countRunning_agrees p w :
  exists status running,
    fst (countRunning p w) = (Project.setStatus p status running, None) /\
    statusAgrees (Project.setStatus p status running).
Proof.
  unfold countRunning, bind, exec, ret. simpl.
  match goal with
  | |- context [if failed ?r then _ else _] => destruct (failed r)
  end; simpl;
    match goal with
    | |- context [if 0 <? ?n then _ else _] =>
        assert (Hn : 0 <= n) by (destruct (firstLineNonEmpty _); lia);
        destruct (0 <? n) eqn:E
    end; simpl; do 2 eexists; (split; [reflexivity |]); unfold statusAgrees; simpl.
  all: try (right; split; [now apply Z.ltb_lt | reflexivity]).
  all: left; split; [reflexivity | apply Z.ltb_ge in E; lia].
Qed.

Lemma UpdateStatus_agrees p w :
  exists status running,
    fst (UpdateStatus p w) = (Project.setStatus p status running, None) /\
    statusAgrees (Project.setStatus p status running).
Proof.
  assert (Hs : statusAgrees (Project.setStatus p "stopped" 0)).
  { left. split; reflexivity. }
  unfold UpdateStatus, bind, exec, ret, stopped. simpl.
  destruct (failed _); simpl.
  - destruct (failed _); simpl; [eauto |].
    destruct (onlyEmptyLine _); simpl; [eauto | apply countRunning_agrees].
  - destruct (onlyEmptyLine _); simpl; [eauto | apply countRunning_agrees].
Qed.

Lemma HasPrefix_app a b : HasPrefix (a ++ b) a = true.
Proof.
  unfold HasPrefix. induction a as [| c a IH]; [now destruct b |].
  change (String.prefix (String c a) (String c a ++ b))
    with (if ascii_dec c c then String.prefix a (a ++ b) else false).
  destruct (ascii_dec c c); [exact IH | contradiction].
Qed.

Lemma IsRunning_running n p :
  Project.Status p = "running:" ++ n -> IsRunning p = true.
Proof. unfold IsRunning. intros ->. apply HasPrefix_app. Qed.

(** X1: [UpdateStatus] never fails, writes only the two status fields,
    and leaves them in agreement: either the status is [stopped] with a
    count of zero, or the count is positive and the status is [running:]
    followed by that count; [IsRunning] and [StatusDisplay] then read the
    same state. *)
Theorem UpdateStatus_status_agrees (p : Project.t) (w : World) :
  let p' := fst (fst (UpdateStatus p w)) in
  snd (fst (UpdateStatus p w)) = None /\
  p' = Project.setStatus p (Project.Status p') (Project.RunningContainers p') /\
  ((Project.Status p' = "stopped" /\ Project.RunningContainers p' = 0 /\
    IsRunning p' = false /\ StatusDisplay p' = "Stopped") \/
   (0 < Project.RunningContainers p' /\
    Project.Status p' = "running:" ++ pretty (Project.RunningContainers p') /\
    IsRunning p' = true /\
    StatusDisplay p' = "Running (" ++ pretty (Project.RunningContainers p') ++ ")")).
Proof.
  destruct (UpdateStatus_agrees p w) as (status & running & -> & Hag). simpl.
  split; [reflexivity |]. split; [reflexivity |].
  destruct Hag as [[Hs Hr] | [Hr Hs]]; simpl in Hs, Hr.
  - left. subst. repeat split.
  - right. split; [exact Hr |]. split; [exact Hs |].
    assert (Hi : IsRunning (Project.setStatus p status running) = true)
      by (eapply IsRunning_running; exact Hs).
    split; [exact Hi |]. unfold StatusDisplay. now rewrite Hi.
Qed.

(** ** Lifecycle operations *)

(** X2: [Stop] does not ask the engine for the state afterwards: when a
    [down] command succeeds the project is marked stopped with no
    container, whatever was recorded before.  The legacy client runs only
    after the modern one failed; when both fail the project is left as it
    was and the error carries the raw output of the legacy client. *)
Theorem Stop_outcome (p : Project.t) (w : World) :
  let down1 := composeCmd (Project.Path p) ["down"] KCombinedOutput in
  let down2 := legacyCmd (Project.Path p) ["down"] KCombinedOutput in
  let r1 := w_oracle w (w_log w) down1 in
  let r2 := w_oracle w (down1 :: w_log w) down2 in
  (res_err r1 = None ->
   fst (Stop p w) = (Project.setStatus p "stopped" 0, None) /\
   w_log (snd (Stop p w)) = down1 :: w_log w) /\
  (res_err r1 <> None -> res_err r2 = None ->
   fst (Stop p w) = (Project.setStatus p "stopped" 0, None) /\
   w_log (snd (Stop p w)) = down2 :: down1 :: w_log w) /\
  (res_err r1 <> None -> res_err r2 <> None ->
   fst (Stop p w) = (p, Some ("failed to stop: " ++ res_out r2)) /\
   w_log (snd (Stop p w)) = down2 :: down1 :: w_log w).
Proof.
  intros down1 down2 r1 r2.
  unfold Stop, bind, exec, ret, failed, stopped. simpl.
  fold down1. fold r1.
  destruct (res_err r1) as [e1 |] eqn:E1; simpl; fold down2; fold r2.
  - split; [discriminate |].
    destruct (res_err r2) as [e2 |] eqn:E2; simpl.
    + split; [discriminate |]. intros _ _. split; reflexivity.
    + split; [intros _ _; split; reflexivity |]. congruence.
  - split; [intros _; split; reflexivity |].
    split; congruence.
Qed.

Lemma Stop_outcome_witness :
  fst (Stop staleProject okWorld) = (Project.setStatus staleProject "stopped" 0, None) /\
  w_log (snd (Stop staleProject okWorld))
  = [composeCmd (Project.Path staleProject) ["down"] KCombinedOutput].
Proof. apply (proj1 (Stop_outcome staleProject okWorld)). reflexivity. Defined.

Lemma status_op_shape (op1 op2 : Cmd) (msg : string) (p : Project.t) (w : World) :
  let m : M (Project.t * option string) :=
    let* r := exec op1 in
    if failed r then
      let* r2 := exec op2 in
      if failed r2 then ret (p, Some (msg ++ res_out r2))
      else UpdateStatus p
    else UpdateStatus p in
  (exists out, fst (m w) = (p, Some (msg ++ out))) \/
  (exists status running,
      fst (m w) = (Project.setStatus p status running, None) /\
      statusAgrees (Project.setStatus p status running)).
Proof.
  unfold bind, exec, ret. simpl.
  destruct (failed _); simpl; [| right; apply UpdateStatus_agrees].
  destruct (failed _); simpl; [left; eauto | right; apply UpdateStatus_agrees].
Qed.

(** X3: [Start] and [Restart] either fail and leave the project exactly
    as it was, the error being the fixed prefix followed by the raw output
    of the legacy client, or succeed and change nothing but the two status
    fields, which then agree. *)
Theorem Start_Restart_status_only (p : Project.t) (w : World) :
  ((exists out, fst (Start p w) = (p, Some ("failed to start: " ++ out))) \/
   (exists status running,
       fst (Start p w) = (Project.setStatus p status running, None) /\
       statusAgrees (Project.setStatus p status running))) /\
  ((exists out, fst (Restart p w) = (p, Some ("failed to restart: " ++ out))) \/
   (exists status running,
       fst (Restart p w) = (Project.setStatus p status running, None) /\
       statusAgrees (Project.setStatus p status running))).
Proof.
  split.
  - apply (status_op_shape (composeCmd (Project.Path p) ["up"; "-d"] KCombinedOutput)
             (legacyCmd (Project.Path p) ["up"; "-d"] KCombinedOutput)).
  - apply (status_op_shape (composeCmd (Project.Path p) ["restart"] KCombinedOutput)
             (legacyCmd (Project.Path p) ["restart"] KCombinedOutput)).
Qed.

(** X4: [PullOnly] never touches the image list, the version entries,
    the update flag or the time stamp: a failed pull leaves the project as
    it was, a successful one rewrites the two status fields only.  (This
    is what separates it from [Update], which clears the flag and stamps
    the time.) *)
Theorem PullOnly_status_only (p : Project.t) (w : World) :
  (exists e, fst (PullOnly p w) = (p, Some e)) \/
  (exists status running,
      fst (PullOnly p w) = (Project.setStatus p status running, None) /\
      statusAgrees (Project.setStatus p status running)).
Proof.
  unfold PullOnly, bind, exec, ret. simpl.
  destruct (failed _); simpl; [| right; apply UpdateStatus_agrees].
  destruct (res_err _); simpl; [left; eauto | right; apply UpdateStatus_agrees].
Qed.

(** ** Image listing and tags *)

Lemma nonEmptyLines_spec lines :
  Forall (fun l => Index l LF = None) lines ->
  Forall (fun i => i <> "" /\ Contains i LF = false) (nonEmptyLines lines).
Proof.
  induction 1 as [| l lines Hl _ IH]; simpl; [constructor |].
  destruct (String.eqb l "") eqn:E; simpl; [exact IH |].
  constructor; [| exact IH].
  split; [now apply String.eqb_neq | now apply Contains_byte_false].
Qed.

(** X5: on success [GetImages] stores exactly the list it returns, and
    every image in it is a non-empty single line of the listing; on
    failure (both clients failed) the project is left as it was and the
    error of the legacy client is returned. *)
Theorem GetImages_listing (p : Project.t) (w : World) :
  match snd (fst (GetImages p w)) with
  | inl images =>
      fst (fst (GetImages p w)) = Project.setImages p images /\
      Forall (fun i => i <> "" /\ Contains i LF = false) images
  | inr e =>
      fst (fst (GetImages p w)) = p /\
      res_err (w_oracle w (w_log w)
                 (composeCmd (Project.Path p) ["config"; "--images"] KOutput)) <> None
  end.
Proof.
  unfold GetImages, bind, exec, ret, failed. simpl.
  set (r1 := w_oracle w (w_log w) _).
  destruct (res_err r1) as [e1 |] eqn:E1; simpl.
  - match goal with
    | |- context [res_err ?r] => destruct (res_err r) as [e2 |] eqn:E2
    end; simpl.
    + split; [reflexivity | discriminate].
    + split; [reflexivity |]. apply nonEmptyLines_spec, Split_byte.
  - split; [reflexivity |]. apply nonEmptyLines_spec, Split_byte.
Qed.

Lemma Join_snoc_sep l x sep :
  l <> [] -> Join (l ++ [x]) sep = Join l sep ++ sep ++ x.
Proof.
  induction l as [| a l IH]; intros Hne; [contradiction |].
  destruct l as [| b l]; [reflexivity |].
  change (Join ((a :: b :: l) ++ [x]) sep)
    with (a ++ sep ++ Join ((b :: l) ++ [x]) sep).
  rewrite IH by discriminate.
  change (Join (a :: b :: l) sep) with (a ++ sep ++ Join (b :: l) sep).
  now rewrite !append_assoc.
Qed.

(** X6: the tag [tagOf] reads off an image reference never contains a
    colon.  A reference with a colon is its repository part, a colon and
    the tag (so the tag is what follows the last colon, also when that
    colon belongs to a registry port); a reference without one has the tag
    [latest]. *)
Theorem tagOf_last_colon (imageName : string) :
  Contains (tagOf imageName) ":" = false /\
  (Contains imageName ":" = true ->
   exists repository, imageName = repository ++ ":" ++ tagOf imageName) /\
  (Contains imageName ":" = false -> tagOf imageName = "latest").
Proof.
  unfold tagOf.
  destruct (Split_byte ":" imageName) as (Hall & Hjoin & Hne).
  change (String ":" "") with ":" in *.
  destruct (Contains imageName ":") eqn:Ec.
  - destruct (exists_last Hne) as (l & tag & Hl).
    rewrite Hl in Hall, Hjoin. rewrite Hl, last_last.
    apply Forall_app in Hall as [_ Htag]. inversion Htag as [| ? ? Ht _]; subst.
    split; [now apply (Contains_byte_false ":") |].
    split; [| discriminate]. intros _.
    destruct l as [| a l].
    + simpl in Hl. apply (Contains_byte_false ":") in Ht.
      simpl in Ec. congruence.
    + exists (Join (a :: l) ":").
      apply Join_snoc_sep. discriminate.
  - split; [reflexivity |]. split; [discriminate | reflexivity].
Qed.

Lemma tagOf_last_colon_witness :
  exists repository,
    "registry:5000/nginx" = repository ++ ":" ++ tagOf "registry:5000/nginx".
Proof. apply (proj1 (proj2 (tagOf_last_colon "registry:5000/nginx"))). reflexivity. Defined.

(** ** Version resolver: what it returns and what it runs *)

Lemma versionToken_nonempty fields v : versionToken fields = Some v -> v <> "".
Proof.
  induction fields as [| f rest IH]; [discriminate |].
  simpl. destruct (TrimPrefix (TrimPrefix f "v") "V") as [| c s] eqn:E.
  - rewrite andb_false_r. exact IH.
  - destruct (_ && _); [| exact IH]. intros [= <-]. discriminate.
Qed.

Lemma versionLabel_nonempty line v : versionLabel line = Some v -> v <> "".
Proof.
  unfold versionLabel. destruct (Contains _ _); [| discriminate].
  destruct (SplitN line ":" 2) as [| p0 [| p1 [| ? ?]]]; try discriminate.
  destruct (String.eqb (TrimSpace p1) "") eqn:E; [discriminate |].
  intros [= <-]. now apply String.eqb_neq.
Qed.

Lemma probeVersion_nonempty output v : probeVersion output = Some v -> v <> "".
Proof.
  unfold probeVersion. induction (inspectedLines output) as [| l rest IH];
    [discriminate |].
  simpl. unfold versionOfLine.
  destruct (versionLabel (TrimSpace l)) as [v1 |] eqn:E1.
  - intros [= <-]. now apply (versionLabel_nonempty _ _ E1).
  - destruct (versionToken (Fields (TrimSpace l))) as [v2 |] eqn:E2; [| exact IH].
    intros [= <-]. now apply (versionToken_nonempty _ _ E2).
Qed.

Section ResolverProps.
Variable json_Unmarshal_labels : string -> option (gmap string string).

Lemma nonEmptyLabel_nonempty labels key v :
  nonEmptyLabel labels key = Some v -> v <> "".
Proof.
  unfold nonEmptyLabel. destruct (labels !! key) as [x |]; [| discriminate].
  destruct (String.eqb x "") eqn:E; [discriminate |].
  intros [= <-]. now apply String.eqb_neq.
Qed.

Lemma versionFromLabels_nonempty labels tagVersion v :
  versionFromLabels labels tagVersion = Some v -> v <> "".
Proof.
  unfold versionFromLabels.
  destruct (nonEmptyLabel labels "org.opencontainers.image.version") as [a |] eqn:Ea;
    [destruct (negb (String.eqb a tagVersion));
     [intros [= <-]; now apply (nonEmptyLabel_nonempty _ _ _ Ea) |] |];
    (destruct (nonEmptyLabel labels "version") as [b |] eqn:Eb;
     [intros [= <-]; now apply (nonEmptyLabel_nonempty _ _ _ Eb) |
      apply nonEmptyLabel_nonempty]).
Qed.

Lemma labelFallback_nonempty imageName tagVersion w :
  tagVersion <> "" ->
  fst (labelFallback json_Unmarshal_labels imageName tagVersion w) <> "".
Proof.
  intros Ht. unfold labelFallback, bind, exec, ret. simpl.
  destruct (failed _); [exact Ht |].
  destruct (json_Unmarshal_labels _) as [labels |]; [| exact Ht].
  destruct (versionFromLabels labels tagVersion) as [v |] eqn:E; [| exact Ht].
  simpl. now apply (versionFromLabels_nonempty _ _ _ E).
Qed.

(** X7: [getRealVersion] never answers with an empty version for a
    non-empty tag: every probe result it accepts is checked to be
    non-empty, and the tag itself is the last resort. *)
Theorem getRealVersion_nonempty (imageName tagVersion : string) (w : World) :
  tagVersion <> "" ->
  fst (getRealVersion json_Unmarshal_labels imageName tagVersion w) <> "".
Proof.
  intros Ht. unfold getRealVersion.
  destruct (negb (isGenericIn genericTags tagVersion)); [exact Ht |].
  unfold bind, exec. simpl.
  destruct (failed _); [now apply labelFallback_nonempty |].
  destruct (probeVersion _) as [v |] eqn:E;
    [simpl; now apply (probeVersion_nonempty _ _ E) |].
  now apply labelFallback_nonempty.
Qed.

(** X8: [getRealVersion] runs at most two commands, the container probe
    and then the label inspection, and the inspection only when the probe
    failed or printed no version; it reads no clock and writes no file.
    For a tag that is not generic it runs nothing. *)
Theorem getRealVersion_probes (imageName tagVersion : string) (w : World) :
  let w' := snd (getRealVersion json_Unmarshal_labels imageName tagVersion w) in
  let probe := w_oracle w (w_log w) (runVersionCmd imageName) in
  w_files w' = w_files w /\ w_ticks w' = w_ticks w /\
  w_log w' =
    (if negb (isGenericIn genericTags tagVersion) then w_log w
     else if failed probe
          then inspectLabelsCmd imageName :: runVersionCmd imageName :: w_log w
          else match probeVersion (res_out probe) with
               | Some _ => runVersionCmd imageName :: w_log w
               | None =>
                   inspectLabelsCmd imageName :: runVersionCmd imageName :: w_log w
               end).
Proof.
  assert (Hl : forall w0,
             let w1 := snd (labelFallback json_Unmarshal_labels imageName tagVersion w0) in
             w_files w1 = w_files w0 /\ w_ticks w1 = w_ticks w0 /\
             w_log w1 = inspectLabelsCmd imageName :: w_log w0).
  { intros w0. unfold labelFallback, bind, exec, ret. simpl.
    destruct (failed _); [auto |].
    destruct (json_Unmarshal_labels _) as [labels |]; [| auto].
    destruct (versionFromLabels labels tagVersion); auto. }
  unfold getRealVersion.
  destruct (negb (isGenericIn genericTags tagVersion)); [simpl; auto |].
  unfold bind, exec. simpl.
  destruct (failed _); simpl; [apply (Hl (mkWorld _ _ _ _ _ _)) |].
  destruct (probeVersion _) as [v |]; simpl;
    [auto | apply (Hl (mkWorld _ _ _ _ _ _))].
Qed.

End ResolverProps.

Lemma getRealVersion_nonempty_witness :
  fst (getRealVersion ociLabels "postgres:latest" "latest" labelledWorld) <> "".
Proof. apply getRealVersion_nonempty. discriminate. Defined.

(** ** Update check: the entries it writes *)

Lemma checkImage_entry imageName p hasUpdates w :
  exists i,
    fst (checkImage imageName p hasUpdates w)
    = (Project.putInfo p imageName i, ImageInfo.HasUpdate i || hasUpdates) /\
    checkedEntry imageName i.
Proof.
  unfold checkImage, bind, exec, ret, checkedEntry. simpl.
  destruct (failed _ || _); simpl.
  { eexists (ImageInfo.mk _ _ _ _). split;
      [apply (f_equal2 pair); reflexivity | simpl; auto]. }
  destruct (negb (failed _)); simpl.
  { eexists (ImageInfo.mk _ _ _ _). split;
      [apply (f_equal2 pair); reflexivity | simpl].
    split; [reflexivity |]. split; [reflexivity |].
    match goal with |- context [if ?b then _ else _] => destruct b end; auto 6. }
  destruct (res_deadline _); simpl.
  - eexists (ImageInfo.mk _ _ _ _). split;
      [apply (f_equal2 pair); reflexivity | simpl; auto 6].
  - eexists (ImageInfo.mk _ _ _ _). split;
      [apply (f_equal2 pair); reflexivity | simpl].
    split; [reflexivity |]. split; [reflexivity |].
    match goal with |- context [if ?b then _ else _] => destruct b end; auto 6.
Qed.

Lemma checkImages_entries images :
  forall p h w,
    let p' := fst (fst (checkImages images p h w)) in
    (forall k, (exists i, Project.infoMap p !! k = Some i /\ checkedEntry k i) ->
               exists i, Project.infoMap p' !! k = Some i /\ checkedEntry k i) /\
    (forall k, k ∈ images ->
               exists i, Project.infoMap p' !! k = Some i /\ checkedEntry k i).
Proof.
  induction images as [| a rest IH]; intros p h w.
  - simpl. split; [auto |]. intros k Hk. inversion Hk.
  - rewrite checkImages_cons.
    destruct (checkImage_entry a p h w) as (i & -> & Hi). simpl.
    destruct (IH (Project.putInfo p a i) (ImageInfo.HasUpdate i || h)
                 (snd (checkImage a p h w))) as [Hkeep Hnew].
    simpl in Hkeep, Hnew.
    assert (Ha : exists j, Project.infoMap (Project.putInfo p a i) !! a = Some j /\
                           checkedEntry a j).
    { exists i. rewrite infoMap_putInfo, lookup_insert_eq. auto. }
    split.
    + intros k (j & Hj & Hc). apply Hkeep.
      destruct (decide (a = k)) as [<- | Hne]; [exact Ha |].
      exists j. rewrite infoMap_putInfo, lookup_insert_ne by assumption. auto.
    + intros k Hk. apply elem_of_cons in Hk as [-> | Hk]; [| now apply Hnew].
      now apply Hkeep.
Qed.

(** X9: after a successful [UpdateImageInfo] every listed image has an
    entry under its own name whose current version is the tag of the
    reference and whose latest version is one of four values: [not pulled]
    (update assumed), [timeout] (no update reported), the tag itself (no
    update) or the tag followed by [(newer)] (update).  The image list is
    the one [GetImages] returned. *)
Theorem UpdateImageInfo_entries (p : Project.t) (w : World) :
  let p' := fst (fst (UpdateImageInfo p w)) in
  snd (fst (UpdateImageInfo p w)) = None ->
  forall imageName, imageName ∈ Project.Images p' ->
    exists i, Project.infoMap p' !! imageName = Some i /\ checkedEntry imageName i.
Proof.
  destruct (UpdateImageInfo_unfold p w) as [[e ->] | (images & w1 & ->)];
    simpl; [discriminate |].
  intros _ imageName Hin.
  change (Project.infoMap (Project.setHasUpdates ?x ?b)) with (Project.infoMap x).
  rewrite checkImages_Images in Hin. simpl in Hin.
  now apply checkImages_entries.
Qed.

Lemma UpdateImageInfo_entries_witness :
  exists i,
    Project.infoMap
      (fst (fst (UpdateImageInfo sampleProject
                   (listingWorld ("nginx:latest" ++ LF ++ "redis:7")))))
      !! "redis:7" = Some i /\
    checkedEntry "redis:7" i.
Proof.
  apply (UpdateImageInfo_entries sampleProject
           (listingWorld ("nginx:latest" ++ LF ++ "redis:7"))).
  - reflexivity.
  - vm_compute. apply list_elem_of_further, list_elem_of_here.
Defined.

(** X10: when the image listing fails, [UpdateImageInfo] stops there: no
    image is looked up or pulled, the error of the listing is returned, and
    the project keeps its image list, entries, update flag and time stamp
    (a nil map has become an empty one). *)
Theorem UpdateImageInfo_listing_fails (p : Project.t) (w : World) :
  let list1 := composeCmd (Project.Path p) ["config"; "--images"] KOutput in
  let list2 := legacyCmd (Project.Path p) ["config"; "--images"] KOutput in
  forall e1 e2,
    res_err (w_oracle w (w_log w) list1) = Some e1 ->
    res_err (w_oracle w (list1 :: w_log w) list2) = Some e2 ->
    fst (UpdateImageInfo p w) = (ensureInfo p, Some e2) /\
    w_log (snd (UpdateImageInfo p w)) = list2 :: list1 :: w_log w /\
    Project.infoMap (ensureInfo p) = Project.infoMap p /\
    Project.HasUpdates (ensureInfo p) = Project.HasUpdates p /\
    Project.Images (ensureInfo p) = Project.Images p.
Proof.
  intros list1 list2 e1 e2 H1 H2.
  assert (Hp : Project.Path (ensureInfo p) = Project.Path p)
    by (now destruct p as [? ? ? ? ? ? [m |] ? ?]).
  unfold UpdateImageInfo, GetImages, bind, exec, ret, failed. simpl.
  rewrite Hp. fold list1. rewrite H1. simpl. fold list2. rewrite H2. simpl.
  split; [reflexivity |]. split; [reflexivity |].
  split; [apply infoMap_ensureInfo |].
  now destruct p as [? ? ? ? ? ? [m |] ? ?].
Qed.

Lemma UpdateImageInfo_listing_fails_witness :
  fst (UpdateImageInfo staleProject deadWorld)
  = (ensureInfo staleProject, Some "exit status 1").
Proof.
  apply (UpdateImageInfo_listing_fails staleProject deadWorld
           "exit status 1" "exit status 1"); reflexivity.
Defined.

(** ** Error clean-up: one line, always *)

Lemma Index_HasPrefix s sub i :
  Index s sub = Some i -> HasPrefix (drop i s) sub = true.
Proof.
  revert i. induction s as [| c s IH]; intros i.
  - change (Index "" sub) with (if HasPrefix "" sub then Some O else None).
    destruct (HasPrefix "" sub) eqn:E; [| discriminate].
    intros [= <-]. exact E.
  - change (Index (String c s) sub)
      with (if HasPrefix (String c s) sub then Some O
            else option_map S (Index s sub)).
    destruct (HasPrefix (String c s) sub) eqn:E.
    + intros [= <-]. exact E.
    + destruct (Index s sub) as [j |]; [| discriminate].
      intros [= <-]. simpl. now apply IH.
Qed.

Lemma app_nonempty_r (a : string) c b : a ++ String c b <> "".
Proof. destruct a; discriminate. Qed.

Lemma exceptionLine_single line l :
  Index line LF = None -> exceptionLine line = Some l ->
  l <> "" /\ Index l LF = None.
Proof.
  intros Hline. unfold exceptionLine.
  destruct (Contains line "Error:" || Contains line "Exception:"); [| discriminate].
  pose proof (genSplit_lacks (byte 10) ":" 2 line Hline) as Hp.
  change (SplitN line ":" 2) with (genSplit line ":" 2).
  destruct (genSplit line ":" 2) as [| p0 [| p1 [| ? ?]]]; try discriminate.
  inversion Hp as [| ? ? H0 Hp1]; subst. inversion Hp1 as [| ? ? H1 _]; subst.
  intros [= <-]. split; [apply app_nonempty_r |].
  apply lacks_app. split.
  - destruct (LastIndex (TrimSpace p0) "."); [apply lacks_drop |];
      now apply TrimSpace_lacks.
  - apply (lacks_app (byte 10) ": "). split; [reflexivity |].
    now apply TrimSpace_lacks.
Qed.

Lemma scanLines_single lines :
  Forall (fun l => Index l LF = None) lines ->
  forall relevant,
    Forall (fun l => l <> "" /\ Index l LF = None) relevant ->
    Forall (fun l => l <> "" /\ Index l LF = None) (scanLines lines relevant).
Proof.
  induction 1 as [| line0 lines Hl _ IH]; intros relevant Hrel; simpl;
    [exact Hrel |].
  destruct (String.eqb (TrimSpace line0) "") eqn:E; [now apply IH |].
  destruct (isProgressLine _); [now apply IH |].
  destruct (isTracebackNoise _); [now apply IH |].
  assert (Ht : Index (TrimSpace line0) LF = None) by now apply TrimSpace_lacks.
  destruct (exceptionLine (TrimSpace line0)) as [l |] eqn:Ex.
  - constructor; [| constructor]. now apply (exceptionLine_single _ _ Ht Ex).
  - destruct (isErrorLine _); [| now apply IH].
    apply IH. apply Forall_app. split; [exact Hrel |].
    constructor; [| constructor]. split; [now apply String.eqb_neq | exact Ht].
Qed.

Lemma lastNonEmpty_single revLines :
  Forall (fun l => Index l LF = None) revLines ->
  Forall (fun l => l <> "" /\ Index l LF = None) (lastNonEmpty revLines).
Proof.
  induction 1 as [| l rest Hl _ IH]; simpl; [constructor |].
  destruct (String.eqb l "") eqn:E; simpl; [exact IH |].
  constructor; [| constructor]. split; [now apply String.eqb_neq | exact Hl].
Qed.

Lemma lastNonEmpty_nil revLines :
  lastNonEmpty revLines = [] -> Forall (fun l => l = "") revLines.
Proof.
  induction revLines as [| l rest IH]; simpl; [constructor |].
  destruct (String.eqb l "") eqn:E; simpl; [| discriminate].
  intros H. constructor; [now apply String.eqb_eq | now apply IH].
Qed.

Lemma keepLast_single (P : string -> Prop) relevant :
  Forall P relevant -> Forall P (keepLast relevant).
Proof.
  intros H. destruct relevant as [| a [| b rest]]; [exact H | exact H |].
  unfold keepLast. constructor; [| constructor].
  destruct (exists_last (l := a :: b :: rest)) as (l & x & E); [discriminate |].
  rewrite E in H. rewrite E, last_last. apply Forall_app in H as [_ H]. now inversion H.
Qed.

Lemma keepLast_nil relevant : keepLast relevant = [] -> relevant = [].
Proof. destruct relevant as [| a [| b rest]]; [auto | discriminate | discriminate]. Qed.

Lemma stripEcho_single errorMsg :
  errorMsg <> "" /\ Index errorMsg LF = None ->
  stripEcho errorMsg <> "" /\ Index (stripEcho errorMsg) LF = None.
Proof.
  intros [Hne Hl]. unfold stripEcho.
  destruct (_ && _); [| auto].
  destruct (Index errorMsg "Error") as [i |] eqn:E1.
  - split; [| now apply lacks_drop].
    apply Index_HasPrefix in E1. intros H0. rewrite H0 in E1. discriminate.
  - destruct (Index errorMsg "error") as [i |] eqn:E2; [| auto].
    split; [| now apply lacks_drop].
    apply Index_HasPrefix in E2. intros H0. rewrite H0 in E2. discriminate.
Qed.

(** A trimmed text all of whose lines are empty is empty. *)
Lemma blank_lines_empty output :
  Forall (fun l => l = "") (Split (TrimSpace output) LF) -> TrimSpace output = "".
Proof.
  intros Hall.
  destruct (Split_byte (byte 10) (TrimSpace output)) as (_ & Hjoin & Hne).
  change (String (byte 10) "") with LF in *.
  destruct (Split (TrimSpace output) LF) as [| a [| b rest]]; [contradiction | |].
  - inversion Hall; subst. now rewrite <- Hjoin.
  - inversion Hall; subst.
    change (Join ("" :: b :: rest) LF)
      with (String (byte 10) (Join (b :: rest) LF)) in Hjoin.
    symmetry in Hjoin. apply TrimSpace_head in Hjoin. discriminate.
Qed.

(** X11: the message [cleanDockerError] builds is the operation, the
    words [failed:] and one line.  When the trimmed output is empty the
    line is the text of the error passed in; otherwise it is a non-empty
    piece of the output that contains no line break, and the error passed
    in is not used at all. *)
Theorem cleanDockerError_single_line (operation output err : string) :
  (TrimSpace output = "" ->
   cleanDockerError operation output err = operation ++ " failed: " ++ err) /\
  (TrimSpace output <> "" ->
   exists msg,
     cleanDockerError operation output err = operation ++ " failed: " ++ msg /\
     msg <> "" /\ Contains msg LF = false /\
     forall err', cleanDockerError operation output err'
                  = cleanDockerError operation output err).
Proof.
  split.
  - intros E. unfold cleanDockerError. rewrite E. reflexivity.
  - intros Hne. unfold cleanDockerError.
    pose proof (proj1 (Split_byte (byte 10) (TrimSpace output))) as Hlines.
    change (String (byte 10) "") with LF in Hlines.
    set (lines := Split (TrimSpace output) LF) in *.
    set (relevant := match scanLines lines [] with
                     | [] => lastNonEmpty (List.rev lines)
                     | _ :: _ => scanLines lines []
                     end).
    assert (Hrel : Forall (fun l => l <> "" /\ Index l LF = None) relevant).
    { subst relevant.
      pose proof (scanLines_single lines Hlines [] (List.Forall_nil _)) as Hs.
      destruct (scanLines lines []); [| exact Hs].
      apply lastNonEmpty_single. now apply Forall_rev. }
    assert (Hsome : relevant <> []).
    { subst relevant. intros H0.
      destruct (scanLines lines []); [| discriminate].
      apply lastNonEmpty_nil in H0. apply Forall_rev in H0.
      rewrite List.rev_involutive in H0. apply Hne. now apply blank_lines_empty. }
    pose proof (keepLast_single _ relevant Hrel) as Hk.
    destruct (keepLast relevant) as [| errorMsg rest] eqn:Ek.
    + apply keepLast_nil in Ek. contradiction.
    + inversion Hk as [| ? ? Hm _]; subst.
      destruct (stripEcho_single errorMsg Hm) as [H1 H2].
      exists (stripEcho errorMsg).
      split; [reflexivity |]. split; [exact H1 |].
      split; [now apply (Contains_byte_false (byte 10)) | reflexivity].
Qed.

Lemma cleanDockerError_single_line_witness :
  exists msg,
    cleanDockerError "pull" plainTraceback "exit status 1" = "pull failed: " ++ msg /\
    msg <> "" /\ Contains msg LF = false /\
    forall err', cleanDockerError "pull" plainTraceback err'
                 = cleanDockerError "pull" plainTraceback "exit status 1".
Proof.
  apply (proj2 (cleanDockerError_single_line "pull" plainTraceback "exit status 1")).
  vm_compute. discriminate.
Defined.

(** ** Cache store: what it touches *)

Section CacheFootprint.
Variable json_MarshalIndent : list Project.t -> string + string.
Variable json_Unmarshal : string -> list Project.t + string.

Lemma SaveToCache_keeps (projects : list Project.t) (cacheFile : string) (w : World) :
  let w' := snd (SaveToCache json_MarshalIndent projects cacheFile w) in
  w_log w' = w_log w /\ w_oracle w' = w_oracle w /\
  (forall path, path <> cacheFile -> w_files w' !! path = w_files w !! path).
Proof.
  unfold SaveToCache, bind, os_WriteFile, ret.
  destruct (json_MarshalIndent projects) as [data | e]; simpl; [| auto].
  destruct (w_writable w cacheFile); simpl; [| auto].
  split; [reflexivity |]. split; [reflexivity |].
  intros path Hne. now apply lookup_insert_ne.
Qed.

Lemma LoadFromCache_keeps (cacheFile : string) (maxAge : Z) (w : World) :
  let w' := snd (LoadFromCache json_Unmarshal cacheFile maxAge w) in
  w_files w' = w_files w /\ w_log w' = w_log w /\ w_oracle w' = w_oracle w.
Proof.
  unfold LoadFromCache, bind, os_Stat, time_Since, time_Now, os_ReadFile, ret.
  destruct (w_files w !! cacheFile) as [f |] eqn:Ef; simpl; [| auto].
  destruct (maxAge <? _); simpl; [auto |].
  rewrite Ef. destruct (f_readable f); simpl; [| auto].
  destruct (json_Unmarshal (f_data f)); simpl; auto.
Qed.

(** X12: [SaveToCache] runs no command and touches no file but the cache
    file.  When the collection cannot be encoded nothing is written at all
    and the error is the marshalling error; otherwise the outcome is the
    outcome of the single write of the encoded document. *)
Theorem SaveToCache_footprint (projects : list Project.t) (cacheFile : string)
        (w : World) :
  let w' := snd (SaveToCache json_MarshalIndent projects cacheFile w) in
  w_log w' = w_log w /\
  (forall path, path <> cacheFile -> w_files w' !! path = w_files w !! path) /\
  match json_MarshalIndent projects with
  | inr e =>
      SaveToCache json_MarshalIndent projects cacheFile w = (Some (MarshalFailed e), w)
  | inl data =>
      match fst (os_WriteFile cacheFile data w) with
      | Some e =>
          fst (SaveToCache json_MarshalIndent projects cacheFile w)
          = Some (WriteFailed e)
      | None =>
          fst (SaveToCache json_MarshalIndent projects cacheFile w) = None /\
          exists f, w_files w' !! cacheFile = Some f /\ f_data f = data
      end
  end.
Proof.
  unfold SaveToCache, bind, os_WriteFile, ret.
  destruct (json_MarshalIndent projects) as [data | e]; simpl; [| auto].
  destruct (w_writable w cacheFile); simpl.
  - split; [reflexivity |]. split.
    + intros path Hne. now apply lookup_insert_ne.
    + split; [reflexivity |]. eexists. rewrite lookup_insert_eq. split; reflexivity.
  - auto.
Qed.

(** X13: [LoadFromCache] only reads: it runs no command and leaves every
    file as it is, also when the cache is expired, unreadable or
    malformed.  A missing file is reported without reading the clock, and
    the clock is read once otherwise. *)
Theorem LoadFromCache_read_only (cacheFile : string) (maxAge : Z) (w : World) :
  let w' := snd (LoadFromCache json_Unmarshal cacheFile maxAge w) in
  w_files w' = w_files w /\ w_log w' = w_log w /\
  match w_files w !! cacheFile with
  | None => LoadFromCache json_Unmarshal cacheFile maxAge w = (inr CacheNotFound, w)
  | Some _ => w_ticks w' = S (w_ticks w)
  end.
Proof.
  unfold LoadFromCache, bind, os_Stat, time_Since, time_Now, os_ReadFile, ret.
  destruct (w_files w !! cacheFile) as [f |] eqn:Ef; simpl; [| auto].
  destruct (maxAge <? _); simpl; [auto |].
  rewrite Ef. destruct (f_readable f); simpl; [| auto].
  destruct (json_Unmarshal (f_data f)); simpl; auto.
Qed.

End CacheFootprint.

(** ** Discovery: what it builds and what it runs *)

Lemma onlyRan_refl ok w : onlyRan ok w w.
Proof.
  unfold onlyRan. split; [exists []; split; [reflexivity | constructor] |].
  repeat split; reflexivity || lia.
Qed.

Lemma onlyRan_trans ok a b c : onlyRan ok a b -> onlyRan ok b c -> onlyRan ok a c.
Proof.
  intros ((n1 & L1 & F1) & Hf1 & Ho1 & Hc1 & Hw1 & Ht1)
         ((n2 & L2 & F2) & Hf2 & Ho2 & Hc2 & Hw2 & Ht2).
  split.
  - exists (n2 ++ n1)%list. split; [rewrite L2, L1; apply app_assoc |].
    apply Forall_app; auto.
  - repeat split; try congruence. lia.
Qed.

Lemma onlyRan_exec ok c w : ok c = true -> onlyRan ok w (snd (exec c w)).
Proof.
  intros Hc. unfold exec. simpl. split.
  - exists [c]. split; [reflexivity | constructor; [exact Hc | constructor]].
  - repeat split; reflexivity || lia.
Qed.

Lemma onlyRan_tick ok w : onlyRan ok w (snd (time_Now w)).
Proof.
  unfold time_Now. simpl. split.
  - exists []. split; [reflexivity | constructor].
  - repeat split; simpl; reflexivity || lia.
Qed.

Lemma countRunning_onlyRan p w : onlyRan isStatusQuery w (snd (countRunning p w)).
Proof.
  unfold countRunning, bind, ret.
  set (c1 := composeCmd _ _ _). set (c2 := legacyCmd _ _ _).
  pose proof (onlyRan_exec isStatusQuery c1 w eq_refl) as H1.
  destruct (exec c1 w) as [r1 w1]. simpl in H1.
  destruct (failed r1).
  - pose proof (onlyRan_exec isStatusQuery c2 w1 eq_refl) as H2.
    destruct (exec c2 w1) as [r2 w2]. simpl in H2.
    destruct (0 <? _); simpl; eapply onlyRan_trans; eassumption.
  - simpl. destruct (0 <? _); exact H1.
Qed.

Lemma UpdateStatus_onlyRan p w : onlyRan isStatusQuery w (snd (UpdateStatus p w)).
Proof.
  unfold UpdateStatus, bind, ret.
  set (c1 := composeCmd _ _ _). set (c2 := legacyCmd _ _ _).
  pose proof (onlyRan_exec isStatusQuery c1 w eq_refl) as H1.
  destruct (exec c1 w) as [r1 w1]. simpl in H1.
  destruct (failed r1).
  - pose proof (onlyRan_exec isStatusQuery c2 w1 eq_refl) as H2.
    destruct (exec c2 w1) as [r2 w2]. simpl in H2.
    assert (H12 : onlyRan isStatusQuery w w2) by (eapply onlyRan_trans; eassumption).
    destruct (failed r2); [exact H12 |].
    destruct (onlyEmptyLine _); [exact H12 |].
    eapply onlyRan_trans; [exact H12 | apply countRunning_onlyRan].
  - destruct (onlyEmptyLine _); [exact H1 |].
    eapply onlyRan_trans; [exact H1 | apply countRunning_onlyRan].
Qed.

Section WalkInvariant.
Context {A : Type}.
Variable walkFn :
  string -> option filepath.FileInfo -> option string -> A ->
  M (A * option filepath.WalkErr).
Variable J : A -> World -> Prop.
Hypothesis walkFn_keeps :
  forall path info err acc w,
    J acc w -> J (fst (fst (walkFn path info err acc w))) (snd (walkFn path info err acc w)).

(** What every call of the walk function keeps, the walk keeps. *)
Lemma walk_keeps n :
  forall path acc w,
    J acc w ->
    J (fst (fst (filepath.walk walkFn path n acc w)))
      (snd (filepath.walk walkFn path n acc w)).
Proof.
  induction n as [name | name | name | name entries IH] using Node_nested_ind;
    intros path acc w HJ; simpl; try now apply walkFn_keeps.
  unfold bind.
  pose proof (walkFn_keeps path (Some (filepath.mkInfo name true)) None acc w HJ) as H1.
  destruct (walkFn path (Some (filepath.mkInfo name true)) None acc w)
    as [[acc1 err1] w1]. simpl in H1.
  destruct err1 as [e |]; [exact H1 |].
  revert acc1 w1 H1.
  induction IH as [| child rest Hchild _ IHrest]; intros acc1 w1 H1; [exact H1 |].
  pose proof (Hchild (filepath.Join [path; filepath.nodeName child]) acc1 w1 H1) as H2.
  destruct (filepath.walk walkFn _ child acc1 w1) as [[acc' err] w'].
  simpl in H2. destruct err as [e |]; [| now apply IHrest].
  destruct child; simpl; try exact H2;
    destruct (filepath.isSkipDir e); try exact H2; now apply IHrest.
Qed.

Lemma Walk_keeps root tree acc w :
  J acc w ->
  J (fst (fst (filepath.Walk walkFn root tree acc w)))
    (snd (filepath.Walk walkFn root tree acc w)).
Proof.
  intros HJ. unfold filepath.Walk, bind.
  pose proof (walk_keeps tree root acc w HJ) as H.
  destruct (filepath.walk walkFn root tree acc w) as [[acc' err] w'].
  simpl in H. destruct err as [[| | msg] |]; exact H.
Qed.

End WalkInvariant.

Lemma discovered_later w a b p :
  (w_ticks a <= w_ticks b)%nat -> discovered w a p -> discovered w b p.
Proof.
  intros Hab (H1 & H2 & H3 & H4 & H5 & H6 & n & Hn & Ht).
  repeat (split; [assumption |]). exists n. split; [lia | exact Ht].
Qed.

Lemma findWalkFn_keeps accept searchDir maxDepth w0 path info err projects w :
  Forall (discovered w0 w) projects /\ onlyRan isStatusQuery w0 w ->
  let r := findWalkFn accept searchDir maxDepth path info err projects w in
  Forall (discovered w0 (snd r)) (fst (fst r)) /\ onlyRan isStatusQuery w0 (snd r).
Proof.
  intros [Hall Hran]. unfold findWalkFn.
  destruct err as [e |]; [now split |].
  destruct info as [info |]; [| now split].
  destruct (maxDepth <? _).
  { destruct (filepath.fi_IsDir info); now split. }
  destruct (negb _ && _); [| now split].
  unfold bind, time_Now.
  set (w1 := mkWorld (w_log w) (w_oracle w) (S (w_ticks w)) (w_clock w)
                     (w_files w) (w_writable w)).
  set (q := newProject path (w_clock w (w_ticks w))).
  destruct (UpdateStatus_agrees q w1) as (st & n & Hs & Hag).
  pose proof (UpdateStatus_onlyRan q w1) as Hu.
  destruct (UpdateStatus q w1) as [[p' e'] w2]. simpl in Hs, Hu.
  injection Hs as -> ->. simpl.
  assert (H01 : onlyRan isStatusQuery w0 w1).
  { eapply onlyRan_trans; [exact Hran |]. apply (onlyRan_tick isStatusQuery w). }
  assert (H02 : onlyRan isStatusQuery w0 w2)
    by (eapply onlyRan_trans; eassumption).
  destruct Hran as (_ & _ & _ & Hclock & _ & Ht0).
  destruct Hu as (_ & _ & _ & _ & _ & Ht2). simpl in Ht2.
  split; [| exact H02].
  apply Forall_app. split.
  - eapply Forall_impl; [exact Hall |]. intros p. apply discovered_later. lia.
  - constructor; [| constructor].
    unfold discovered. simpl. repeat (split; [reflexivity |]).
    split; [exact Hag |]. exists (w_ticks w). split; [lia |]. now rewrite Hclock.
Qed.

Lemma FindProjects_found (tree : filepath.Node) (searchDir : string)
      (maxDepth : Z) (w : World) :
  let w' := snd (FindProjects tree searchDir maxDepth w) in
  onlyRan isStatusQuery w w' /\
  forall projects,
    fst (FindProjects tree searchDir maxDepth w) = inl projects ->
    projects <> [] /\ Forall (discovered w w') projects.
Proof.
  pose proof (Walk_keeps (findWalkFn acceptsName searchDir maxDepth)
                (fun projects w1 =>
                   Forall (discovered w w1) projects /\ onlyRan isStatusQuery w w1)
                (fun path info err acc w1 H =>
                   findWalkFn_keeps acceptsName searchDir maxDepth w path info err
                                    acc w1 H)
                searchDir tree [] w
                (conj (List.Forall_nil _) (onlyRan_refl isStatusQuery w))) as [Hall Hran].
  unfold FindProjects, FindProjectsWith, bind.
  destruct (filepath.Walk _ searchDir tree [] w) as [[projects err] w1].
  simpl in Hall, Hran.
  destruct err as [e |]; simpl; [split; [exact Hran | discriminate] |].
  destruct projects as [| p rest]; simpl; [split; [exact Hran | discriminate] |].
  split; [exact Hran |]. intros ? [= <-]. split; [discriminate | exact Hall].
Qed.

(** X14: what a successful search returns and what the search does on the
    way.  The list is not empty, and each project in it has the directory
    of its compose file as path, the last element of that directory as
    name, no image list, a nil version map, a cleared update flag, a status
    that agrees with its container count, and a time stamp read from the
    clock during the search.  The search itself, successful or not, runs
    nothing but container queries ([ps]) and touches no file. *)
Theorem FindProjects_discovered (tree : filepath.Node) (searchDir : string)
        (maxDepth : Z) (w : World) :
  let w' := snd (FindProjects tree searchDir maxDepth w) in
  onlyRan isStatusQuery w w' /\
  forall projects,
    fst (FindProjects tree searchDir maxDepth w) = inl projects ->
    projects <> [] /\ Forall (discovered w w') projects.
Proof. apply FindProjects_found. Qed.

Lemma FindProjects_discovered_witness :
  let found := FindProjects scenarioTree defaultSearchDir defaultMaxDepth runningWorld in
  Forall (discovered runningWorld (snd found))
         (match fst found with inl projects => projects | inr _ => [] end).
Proof.
  refine (proj2 (proj2 (FindProjects_discovered scenarioTree defaultSearchDir
                          defaultMaxDepth runningWorld) _ _)).
  vm_compute. reflexivity.
Defined.

Lemma depthOf_positive searchDir path : 1 <= depthOf searchDir path.
Proof.
  unfold depthOf.
  destruct (Split_byte "/" (match filepath.Rel searchDir path with
                            | Some r => r
                            | None => ""
                            end)) as (_ & _ & Hne).
  change (String "/" "") with filepath.Separator in Hne.
  destruct (Split _ filepath.Separator); [contradiction | simpl; lia].
Qed.

(** X15: the depth limit prunes without looking inside.  A readable
    directory that lies deeper than [maxDepth] is answered with [SkipDir]
    at once: nothing below it is visited, no project is added and nothing
    is run.  Since the search root itself has depth one, a limit below one
    finds nothing on any tree and leaves the host untouched. *)
Theorem FindProjects_depth_pruning (searchDir : string) (maxDepth : Z) :
  (forall accept path name entries projects w,
      maxDepth < depthOf searchDir path ->
      filepath.walk (findWalkFn accept searchDir maxDepth) path
                    (filepath.Directory name (Some entries)) projects w
      = ((projects, Some filepath.SkipDir), w)) /\
  (maxDepth < 1 ->
   forall tree w,
     FindProjects tree searchDir maxDepth w = (inr (NoProjects searchDir), w)).
Proof.
  assert (Hdir : forall accept path name entries projects w,
             maxDepth < depthOf searchDir path ->
             filepath.walk (findWalkFn accept searchDir maxDepth) path
                           (filepath.Directory name (Some entries)) projects w
             = ((projects, Some filepath.SkipDir), w)).
  { intros accept path name entries projects w Hd.
    simpl. unfold bind, findWalkFn.
    apply Z.ltb_lt in Hd. rewrite Hd. reflexivity. }
  split; [exact Hdir |].
  intros Hmax tree w.
  assert (Hd : maxDepth < depthOf searchDir searchDir)
    by (pose proof (depthOf_positive searchDir searchDir); lia).
  unfold FindProjects, FindProjectsWith, filepath.Walk, bind.
  destruct tree as [name | name [entries |] | name].
  - simpl. unfold findWalkFn. apply Z.ltb_lt in Hd. rewrite Hd. reflexivity.
  - rewrite Hdir by exact Hd. reflexivity.
  - reflexivity.
  - reflexivity.
Qed.

Lemma FindProjects_depth_pruning_witness :
  FindProjects scenarioTree defaultSearchDir 0 runningWorld
  = (inr (NoProjects defaultSearchDir), runningWorld).
Proof. apply (proj2 (FindProjects_depth_pruning defaultSearchDir 0)). lia. Defined.

(** ** The shell: layout helpers *)

Lemma length_take n s :
  String.length (take n s) = Nat.min n (String.length s).
Proof.
  revert s. induction n as [| n IH]; intros s; [reflexivity |].
  destruct s as [| c s]; [reflexivity |]. simpl. now rewrite IH.
Qed.

(** X16: [truncateMiddle] never returns more than [maxLen] bytes: for a
    limit that is not negative the result has the length of the text or
    the limit, whichever is smaller, and a text that fits comes back
    unchanged.  A negative limit is a run-time panic for every text. *)
Theorem truncateMiddle_length (s : string) (maxLen : Z) :
  (0 <= maxLen ->
   exists r, tui.truncateMiddle s maxLen = Some r /\
             Z.of_nat (String.length r) = Z.min (Z.of_nat (String.length s)) maxLen /\
             (Z.of_nat (String.length s) <= maxLen -> r = s)) /\
  (maxLen < 0 -> tui.truncateMiddle s maxLen = None).
Proof.
  unfold tui.truncateMiddle. split.
  - intros Hm.
    destruct (Z.of_nat (String.length s) <=? maxLen) eqn:E1.
    + apply Z.leb_le in E1. exists s. split; [reflexivity |]. split; [lia | auto].
    + apply Z.leb_gt in E1.
      destruct (maxLen <? 6) eqn:E2.
      * destruct (maxLen <? 0) eqn:E3; [apply Z.ltb_lt in E3; lia |].
        eexists. split; [reflexivity |]. rewrite length_take. split; lia.
      * apply Z.ltb_ge in E2. eexists. split; [reflexivity |].
        rewrite !length_append, length_take, length_drop.
        change (String.length "...") with 3%nat. split; lia.
  - intros Hm.
    destruct (Z.of_nat (String.length s) <=? maxLen) eqn:E1;
      [apply Z.leb_le in E1; lia |].
    destruct (maxLen <? 6) eqn:E2; [| apply Z.ltb_ge in E2; lia].
    destruct (maxLen <? 0) eqn:E3; [reflexivity | apply Z.ltb_ge in E3; lia].
Qed.

Lemma truncateMiddle_length_witness :
  exists r, tui.truncateMiddle "super-lange-bookworm-version-mit-krass-vielen-zeichen" 30
            = Some r /\
            Z.of_nat (String.length r)
            = Z.min (Z.of_nat (String.length
                       "super-lange-bookworm-version-mit-krass-vielen-zeichen")) 30 /\
            (Z.of_nat (String.length
                         "super-lange-bookworm-version-mit-krass-vielen-zeichen") <= 30 ->
             r = "super-lange-bookworm-version-mit-krass-vielen-zeichen").
Proof.
  apply (proj1 (truncateMiddle_length
                  "super-lange-bookworm-version-mit-krass-vielen-zeichen" 30)).
  lia.
Defined.

Lemma max_spec a b : tui.max a b = Z.max a b.
Proof. unfold tui.max. destruct (b <? a) eqn:E; lia. Qed.

(** X17: the columns of the update table are never narrower than their
    defaults.  Up to 80 terminal columns the defaults are used, and the
    row (24 fixed columns and the five of the table) is then 133 columns
    wide; from 149 terminal columns on the row fits the terminal. *)
Theorem calculateColumnWidths_fit (width : Z) :
  width <= 2 ^ 32 ->
  let cw := tui.calculateColumnWidths width in
  let row := 24 + tui.Project cw + tui.Image cw + tui.Tag cw + tui.Local cw
             + tui.Repository cw in
  (12 <= tui.Project cw /\ 12 <= tui.Image cw /\ 25 <= tui.Tag cw /\
   25 <= tui.Local cw /\ 35 <= tui.Repository cw) /\
  (width <= 80 -> row = 133) /\
  (149 <= width -> row <= width).
Proof.
  intros Hw. unfold tui.calculateColumnWidths. cbv zeta.
  change (14 + 10) with 24.
  destruct (80 <? width) eqn:E;
    cbn [tui.Project tui.Image tui.Tag tui.Local tui.Repository].
  - apply Z.ltb_lt in E.
    rewrite (wrapInt_small (width - 24)) by (unfold ui.maxInt; lia).
    rewrite !wrapInt_small by (unfold ui.maxInt; lia).
    rewrite !max_spec.
    split; [repeat split; lia |]. split; [lia |]. intros H149.
    pose proof (Z.quot_pos ((width - 24) * 10) 100).
    Z.to_euclidean_division_equations. lia.
  - apply Z.ltb_ge in E. split; [repeat split; lia |]. split; [reflexivity | lia].
Qed.

Lemma calculateColumnWidths_fit_witness :
  24 + tui.Project (tui.calculateColumnWidths 200)
  + tui.Image (tui.calculateColumnWidths 200)
  + tui.Tag (tui.calculateColumnWidths 200)
  + tui.Local (tui.calculateColumnWidths 200)
  + tui.Repository (tui.calculateColumnWidths 200) <= 200.
Proof.
  apply (proj2 (proj2 (calculateColumnWidths_fit 200 ltac:(lia)))). lia.
Defined.

Lemma Repeat_length s count r :
  tui.Repeat s count = Some r ->
  0 <= count /\ Z.of_nat (String.length r) = count * Z.of_nat (String.length s).
Proof.
  unfold tui.Repeat. destruct (count <? 0) eqn:E; [discriminate |].
  apply Z.ltb_ge in E. intros [= <-]. split; [exact E |].
  rewrite <- (Z2Nat.id count) at 2 by exact E.
  induction (Z.to_nat count) as [| n IH]; [reflexivity |].
  simpl Nat.iter. rewrite length_append. lia.
Qed.

(** X18: for a width that is not negative [renderProgressBar] draws
    exactly [width] cells of seven bytes each, whatever the percentage: it
    is clamped to 0..100 first, the filled cells come first, none is
    filled at 0 or below and all are at 100 or above.  A negative width is
    a run-time panic. *)
Theorem renderProgressBar_cells (percent width : Z) :
  - 2 ^ 32 <= width <= 2 ^ 32 ->
  (0 <= width ->
   exists filled a b,
     0 <= filled <= width /\
     tui.Repeat tui.fullBlock filled = Some a /\
     tui.Repeat tui.lightShade (width - filled) = Some b /\
     tui.renderProgressBar percent width = Some (a ++ b) /\
     Z.of_nat (String.length (a ++ b)) = 7 * width /\
     (percent <= 0 -> filled = 0) /\ (100 <= percent -> filled = width)) /\
  (width < 0 -> tui.renderProgressBar percent width = None).
Proof.
  intros Hw. unfold tui.renderProgressBar.
  set (p1 := if percent <? 0 then 0 else percent).
  set (p2 := if 100 <? p1 then 100 else p1).
  assert (Hp : 0 <= p2 <= 100 /\ (percent <= 0 -> p2 = 0) /\ (100 <= percent -> p2 = 100)).
  { subst p1 p2. destruct (percent <? 0) eqn:E1;
      [apply Z.ltb_lt in E1 | apply Z.ltb_ge in E1];
      match goal with |- context [100 <? ?x] => destruct (100 <? x) eqn:E2 end;
      [apply Z.ltb_lt in E2 | apply Z.ltb_ge in E2 |
       apply Z.ltb_lt in E2 | apply Z.ltb_ge in E2]; lia. }
  destruct Hp as (Hp & Hp0 & Hp100).
  rewrite (wrapInt_small (p2 * width)) by (unfold ui.maxInt; nia).
  set (filled := Z.quot (p2 * width) 100).
  split.
  - intros H0.
    assert (Hf : 0 <= filled <= width).
    { subst filled. pose proof (Z.quot_pos (p2 * width) 100).
      Z.to_euclidean_division_equations. nia. }
    rewrite (wrapInt_small (width - filled)) by (unfold ui.maxInt; lia).
    unfold tui.Repeat at 1 2.
    destruct (filled <? 0) eqn:E1; [apply Z.ltb_lt in E1; lia |].
    destruct (width - filled <? 0) eqn:E2; [apply Z.ltb_lt in E2; lia |].
    eexists filled, _, _. split; [exact Hf |].
    unfold tui.Repeat. rewrite E1, E2.
    split; [reflexivity |]. split; [reflexivity |]. split; [reflexivity |].
    split.
    + rewrite length_append.
      destruct (Repeat_length tui.fullBlock filled _
                  ltac:(unfold tui.Repeat; rewrite E1; reflexivity)) as [_ Ha].
      destruct (Repeat_length tui.lightShade (width - filled) _
                  ltac:(unfold tui.Repeat; rewrite E2; reflexivity)) as [_ Hb].
      change (Z.of_nat (String.length tui.fullBlock)) with 7 in Ha.
      change (Z.of_nat (String.length tui.lightShade)) with 7 in Hb. lia.
    + split; intros Hc; subst filled.
      * rewrite (Hp0 Hc). reflexivity.
      * rewrite (Hp100 Hc). rewrite Z.mul_comm. apply Z.quot_mul. lia.
  - intros Hneg.
    assert (Hf : filled <= 0).
    { subst filled. Z.to_euclidean_division_equations. nia. }
    unfold tui.Repeat at 1.
    destruct (filled <? 0) eqn:E1; [reflexivity |].
    apply Z.ltb_ge in E1. assert (filled = 0) as -> by lia.
    rewrite (wrapInt_small (width - 0)) by (unfold ui.maxInt; lia).
    unfold tui.Repeat.
    destruct (width - 0 <? 0) eqn:E2; [reflexivity | apply Z.ltb_ge in E2; lia].
Qed.

Lemma renderProgressBar_cells_witness :
  tui.renderProgressBar 40 (-1) = None.
Proof. apply (proj2 (renderProgressBar_cells 40 (-1) ltac:(lia))). lia. Defined.

(** ** The shell: the state the handlers keep *)

Ltac tui_proj :=
  cbn [tui.cursor tui.screen tui.viewportOffset
       tui.selectedUpdates tui.selectedRestarts tui.loading tui.projects
       tui.set_projects tui.set_screen tui.set_cursor
       tui.set_selectedUpdates tui.set_selectedRestarts tui.set_loading
       tui.set_viewportOffset tui.setBatch tui.set_selectedProject
       tui.set_message tui.set_err tui.set_quitting tui.set_cacheAge
       tui.set_checkingUpdates tui.set_currentCheckIndex tui.set_size
       tui.withProjects tui.withScreen tui.withCursor
       tui.withSelectedUpdates tui.withSelectedRestarts tui.withLoading
       tui.withViewportOffset
       tui.batch tui.selectedProject tui.message tui.err tui.quitting
       tui.cacheAge tui.checkingUpdates tui.currentCheckIndex tui.cacheFile
       tui.width tui.height tui.debugMode tui.viewRenderCount
       ui.projects ui.screen ui.cursor ui.selectedUpdates ui.selectedRestarts
       ui.updateMode ui.loading ui.updateProgress ui.updatesTotal
       ui.updatesCompleted ui.projectUpdateStatus ui.projectUpdateResult
       ui.currentUpdateIndex ui.viewportOffset fst snd] in *.

Ltac tui_cbn :=
  unfold tui.lenProjects in *; tui_proj;
  unfold tui.cursor, tui.screen, tui.viewportOffset, tui.selectedUpdates,
         tui.selectedRestarts, tui.loading, tui.projects in *;
  tui_proj.

(** [wellFormed] reads six fields only. *)
Lemma wellFormed_fields m m' :
  tui.projects m' = tui.projects m -> tui.screen m' = tui.screen m ->
  tui.cursor m' = tui.cursor m -> tui.viewportOffset m' = tui.viewportOffset m ->
  tui.selectedUpdates m' = tui.selectedUpdates m ->
  tui.selectedProject m' = tui.selectedProject m ->
  tui.wellFormed m -> tui.wellFormed m'.
Proof.
  unfold tui.wellFormed, tui.lenProjects. intros -> -> -> -> -> ->. auto.
Qed.

(** Entering a screen at its first line. *)
Lemma wellFormed_enter m m' :
  tui.projects m' = tui.projects m ->
  tui.cursor m' = 0 \/ (tui.cursor m' = 1 /\ tui.screen m' = ui.ScreenConfirmExit) ->
  tui.viewportOffset m' = 0 \/
  (tui.viewportOffset m' = tui.viewportOffset m /\
   tui.screen m' <> ui.ScreenUpdateList /\ tui.screen m' <> ui.ScreenContainerList) ->
  tui.selectedUpdates m' = tui.selectedUpdates m \/ tui.selectedUpdates m' = ∅ ->
  tui.selectedProject m' = tui.selectedProject m ->
  tui.wellFormed m -> tui.wellFormed m'.
Proof.
  unfold tui.wellFormed, tui.lenProjects, tui.maxVisibleItems.
  intros -> Hc Hv Hs -> (Hlen & Hcur & Hvp & Hlist & Hsel & Hsp).
  split; [exact Hlen |].
  split; [destruct Hc as [-> | [-> _]]; lia |].
  split; [destruct Hv as [-> | [-> _]]; lia |].
  split.
  - intros Hscr.
    destruct Hv as [-> | (_ & H1 & H2)]; [| destruct Hscr; contradiction].
    destruct Hc as [-> | [_ Hx]]; [lia |].
    destruct Hscr as [Hscr | Hscr]; rewrite Hscr in Hx; discriminate.
  - split; [| exact Hsp].
    destruct Hs as [-> | ->]; [exact Hsel |].
    intros i b H. rewrite lookup_empty in H. discriminate.
Qed.

Lemma handleBack_wellFormed m :
  tui.wellFormed m ->
  tui.wellFormed (fst (tui.handleBack m)) /\
  tui.projects (fst (tui.handleBack m)) = tui.projects m.
Proof.
  intros Hwf. unfold tui.handleBack.
  destruct (tui.screen m) eqn:Hscr; tui_cbn; (split; [| reflexivity]);
    try exact Hwf;
    (eapply wellFormed_enter; [.. | exact Hwf]; tui_cbn;
     try reflexivity; auto;
     try (right; repeat split; (reflexivity || discriminate))).
Qed.

Ltac wf_split :=
  split; [first [assumption | lia] |];
  split; [first [assumption | lia] |];
  split; [first [assumption | lia] |];
  split; [intros Hs; first [lia | destruct Hs; discriminate] |];
  split; assumption.

Lemma handleUp_wellFormed m :
  tui.wellFormed m ->
  tui.wellFormed (tui.handleUp m) /\ tui.projects (tui.handleUp m) = tui.projects m.
Proof.
  intros Hwf. unfold tui.handleUp.
  destruct (0 <? tui.cursor m) eqn:E; [| now split].
  apply Z.ltb_lt in E.
  destruct m as [[ps scr cur selU selR mode ld prog tot comp st res cui vp]
                   sp msg er q ca chk cci cf wd ht dbg vrc].
  unfold tui.wellFormed, tui.maxVisibleItems in *. tui_cbn.
  destruct Hwf as (Hlen & Hcur & Hvp & Hlist & Hsel & Hsp).
  destruct scr; tui_cbn; try (split; [wf_split | reflexivity]).
  - (* container list *)
    destruct (Hlist (or_intror eq_refl)) as [H1 H2].
    destruct (cur - 1 <? vp) eqn:E2; tui_cbn; (split; [| reflexivity]);
      [apply Z.ltb_lt in E2 | apply Z.ltb_ge in E2]; wf_split.
  - (* update list *)
    destruct (Hlist (or_introl eq_refl)) as [H1 H2].
    destruct (cur - 1 <? vp) eqn:E2; tui_cbn; (split; [| reflexivity]);
      [apply Z.ltb_lt in E2 | apply Z.ltb_ge in E2]; wf_split.
Qed.

Lemma stepDown_wellFormed m last :
  tui.screen m <> ui.ScreenUpdateList -> tui.screen m <> ui.ScreenContainerList ->
  tui.wellFormed m ->
  tui.wellFormed (tui.stepDown m last) /\
  tui.projects (tui.stepDown m last) = tui.projects m.
Proof.
  intros H1 H2 Hwf. unfold tui.stepDown.
  destruct (tui.cursor m <? last); [| now split].
  split; [| reflexivity].
  destruct Hwf as (Hlen & Hcur & Hvp & Hlist & Hsel & Hsp).
  unfold tui.wellFormed. tui_cbn.
  split; [exact Hlen |]. split; [lia |].
  split; [exact Hvp |].
  split; [intros [H | H]; contradiction | split; assumption].
Qed.

Lemma listDown_wellFormed m :
  tui.screen m = ui.ScreenUpdateList \/ tui.screen m = ui.ScreenContainerList ->
  tui.wellFormed m ->
  tui.wellFormed (tui.listDown m) /\ tui.projects (tui.listDown m) = tui.projects m.
Proof.
  intros Hscr Hwf. unfold tui.listDown.
  destruct (tui.cursor m <? tui.lenProjects m - 1) eqn:E; [| now split].
  apply Z.ltb_lt in E.
  destruct m as [[ps scr cur selU selR mode ld prog tot comp st res cui vp]
                   sp msg er q ca chk cci cf wd ht dbg vrc].
  unfold tui.wellFormed, tui.maxVisibleItems in *. tui_cbn.
  destruct Hwf as (Hlen & Hcur & Hvp & Hlist & Hsel & Hsp).
  destruct (Hlist Hscr) as [H1 H2].
  unfold ui.maxInt in Hlen.
  rewrite (wrapInt_small (vp + 10)) by (unfold ui.maxInt; lia).
  destruct (vp + 10 <=? cur + 1) eqn:E2; tui_cbn; (split; [| reflexivity]).
  - apply Z.leb_le in E2.
    rewrite (wrapInt_small (cur + 1 - 10)) by (unfold ui.maxInt; lia).
    rewrite (wrapInt_small (cur + 1 - 10 + 1)) by (unfold ui.maxInt; lia).
    wf_split.
  - apply Z.leb_gt in E2. wf_split.
Qed.

Lemma handleDown_wellFormed m :
  tui.wellFormed m ->
  tui.wellFormed (fst (tui.handleDown m)) /\
  tui.projects (fst (tui.handleDown m)) = tui.projects m.
Proof.
  intros Hwf. unfold tui.handleDown.
  destruct (tui.screen m) eqn:Hscr; cbn [fst]; try (now split);
    try (apply stepDown_wellFormed; [rewrite Hscr; discriminate ..| exact Hwf]);
    apply listDown_wellFormed; auto.
Qed.

Lemma toggle_lookup sel i j b :
  tui.toggle sel i !! j = Some b -> sel !! j = Some b \/ (j = i /\ b = true).
Proof.
  unfold tui.toggle. destruct (tui.selected sel i).
  - intros H. left. destruct (decide (i = j)) as [-> | Hne].
    + rewrite lookup_delete_eq in H. discriminate.
    + now rewrite lookup_delete_ne in H.
  - intros H. destruct (decide (i = j)) as [-> | Hne].
    + rewrite lookup_insert_eq in H. injection H as <-. now right.
    + rewrite lookup_insert_ne in H by assumption. now left.
Qed.

Lemma handleSpace_wellFormed m :
  tui.wellFormed m ->
  tui.wellFormed (fst (tui.handleSpace m)) /\
  tui.projects (fst (tui.handleSpace m)) = tui.projects m.
Proof.
  intros Hwf. unfold tui.handleSpace.
  destruct (tui.screen m) eqn:Hscr; cbn [fst]; try (now split).
  - split; [| reflexivity].
    destruct Hwf as (Hlen & Hcur & Hvp & Hlist & Hsel & Hsp).
    destruct (Hlist (or_introl Hscr)) as [H1 H2].
    unfold tui.wellFormed. tui_cbn.
    repeat (split; [assumption |]). split; [| exact Hsp].
    intros i b H. apply toggle_lookup in H as [H | [-> ->]]; [now apply Hsel |].
    split; [reflexivity |]. split; [exact Hcur | exact H2].
Qed.

Lemma foldl_insert_true (l : list Z) (sel : gmap Z bool) (j : Z) :
  foldl (fun sel i => <[i := true]> sel) sel l !! j
  = if decide (j ∈ l) then Some true else sel !! j.
Proof.
  revert sel. induction l as [| k rest IH]; intros sel; simpl.
  - destruct (decide (j ∈ [])) as [H | _]; [inversion H | reflexivity].
  - rewrite IH.
    destruct (decide (j ∈ rest)) as [Hin | Hnin];
      destruct (decide (j ∈ k :: rest)) as [Hin' | Hnin']; try reflexivity.
    + exfalso. apply Hnin'. now apply list_elem_of_further.
    + apply elem_of_cons in Hin' as [-> | Hin']; [| contradiction].
      apply lookup_insert_eq.
    + apply lookup_insert_ne. intros ->. apply Hnin'. apply list_elem_of_here.
Qed.

Lemma handleSelectAll_wellFormed m :
  tui.wellFormed m ->
  tui.wellFormed (fst (tui.handleSelectAll m)) /\
  tui.projects (fst (tui.handleSelectAll m)) = tui.projects m.
Proof.
  intros Hwf. unfold tui.handleSelectAll.
  destruct (tui.screen m) eqn:Hscr; cbn [fst]; try (now split).
  destruct (_ =? _); cbn [fst]; (split; [| reflexivity]).
  - destruct Hwf as (Hlen & Hcur & Hvp & Hlist & Hsel & Hsp).
    unfold tui.wellFormed. tui_cbn.
    repeat (split; [assumption |]). split; [| exact Hsp].
    intros i b H. rewrite lookup_empty in H. discriminate.
  - destruct Hwf as (Hlen & Hcur & Hvp & Hlist & Hsel & Hsp).
    unfold tui.wellFormed. tui_cbn.
    repeat (split; [assumption |]). split; [| exact Hsp].
    intros i b H. rewrite foldl_insert_true in H.
    match type of H with
    | context [decide ?P] => destruct (decide P) as [Hin | _]
    end; [| now apply Hsel].
    injection H as <-. apply elem_of_seqZ in Hin.
    split; [reflexivity |]. tui_cbn. lia.
Qed.

Lemma handleRefresh_wellFormed m :
  tui.wellFormed m ->
  tui.wellFormed (fst (tui.handleRefresh m)) /\
  tui.projects (fst (tui.handleRefresh m)) = tui.projects m.
Proof.
  intros Hwf. unfold tui.handleRefresh.
  destruct (tui.screen m); cbn [fst]; try (now split).
  destruct (negb _); cbn [fst]; [| now split].
  split; [| reflexivity]. revert Hwf. now apply wellFormed_fields.
Qed.

Lemma handleAction_wellFormed m :
  tui.wellFormed m ->
  tui.wellFormed (fst (tui.handleAction m)) /\
  tui.projects (fst (tui.handleAction m)) = tui.projects m.
Proof.
  intros Hwf. unfold tui.handleAction.
  destruct (tui.selectedProject m) as [i |]; [| now split].
  cbv zeta.
  assert (H : tui.wellFormed (tui.set_err (tui.set_loading m true) None))
    by (revert Hwf; now apply wellFormed_fields).
  destruct (tui.selectedIsRunning _).
  - destruct (_ =? 0); [now split |]. destruct (_ =? 1); now split.
  - destruct (_ =? 0); now split.
Qed.

Lemma dispatch_total (b : ui.Model) (keys : list Z) (st : gmap Z string) :
  (forall idx, idx ∈ keys -> 0 <= idx) ->
  exists st' cmds, foldr (ui.dispatch b) (Some (st, [])) keys = Some (st', cmds).
Proof.
  induction keys as [| k rest IH]; intros Hk; simpl; [eauto |].
  destruct IH as (st1 & cmds1 & ->).
  { intros idx Hin. apply Hk. now apply list_elem_of_further. }
  unfold ui.dispatch.
  destruct (_ <=? k); [eauto |].
  destruct (k <? 0) eqn:E; [| eauto].
  apply Z.ltb_lt in E. pose proof (Hk k (list_elem_of_here _ _)). lia.
Qed.

Lemma performUpdates_total (b : ui.Model) :
  (forall i v, ui.selectedUpdates b !! i = Some v -> 0 <= i) ->
  exists st cmds,
    ui.performUpdates b
    = Some (ui.mkModel (ui.projects b) (ui.screen b) (ui.cursor b)
                       (ui.selectedUpdates b) (ui.selectedRestarts b)
                       (ui.updateMode b) (ui.loading b) (ui.updateProgress b)
                       (ui.updatesTotal b) (ui.updatesCompleted b) st
                       (ui.projectUpdateResult b) (ui.currentUpdateIndex b)
                       (ui.viewportOffset b), cmds).
Proof.
  intros Hsel. unfold ui.performUpdates.
  destruct (dispatch_total b (map_to_list (ui.selectedUpdates b)).*1
                           (ui.projectUpdateStatus b)) as (st & cmds & ->).
  { intros idx Hin. apply selected_keys, elem_of_dom in Hin as [v Hv]. eauto. }
  eauto.
Qed.

(** What [Enter] does on the screens of the update flow, as far as the
    navigation fields go: it stays, or moves to a screen without a
    scrolling list, or enters a screen at its first line. *)
Lemma ui_handleEnter_moves (b : ui.Model) :
  (forall i v, ui.selectedUpdates b !! i = Some v -> 0 <= i) ->
  exists b' cmds,
    ui.handleEnter b = Some (b', cmds) /\
    ui.projects b' = ui.projects b /\
    (ui.selectedUpdates b' = ui.selectedUpdates b \/ ui.selectedUpdates b' = ∅) /\
    ((ui.screen b' = ui.screen b /\ ui.cursor b' = ui.cursor b /\
      ui.viewportOffset b' = ui.viewportOffset b) \/
     (ui.screen b' <> ui.ScreenUpdateList /\ ui.screen b' <> ui.ScreenContainerList /\
      (ui.cursor b' = ui.cursor b \/ ui.cursor b' = 0) /\
      ui.viewportOffset b' = ui.viewportOffset b) \/
     (ui.cursor b' = 0 /\ ui.viewportOffset b' = 0)).
Proof.
  intros Hsel.
  assert (Hstart : forall b0,
             ui.selectedUpdates b0 = ui.selectedUpdates b ->
             exists st cmds,
               ui.performUpdates (ui.beginUpdates b0)
               = Some (ui.mkModel (ui.projects b0) ui.ScreenUpdating (ui.cursor b0)
                         (ui.selectedUpdates b0) (ui.selectedRestarts b0)
                         (ui.updateMode b0) true ""
                         (ui.len (ui.selectedUpdates b0)) 0 st
                         (foldr (fun idx st => <[idx := ""]> st) ∅
                                (map_to_list (ui.selectedUpdates b0)).*1)
                         (-1) (ui.viewportOffset b0), cmds)).
  { intros b0 Hb0.
    destruct (performUpdates_total (ui.beginUpdates b0)) as (st & cmds & ->).
    - simpl. rewrite Hb0. exact Hsel.
    - simpl. eauto. }
  unfold ui.handleEnter.
  destruct (ui.screen b) eqn:Hscr; try (exists b, []; split; [reflexivity |];
                                        split; [reflexivity |]; split; auto).
  - (* update list *)
    destruct (0 <? _); [| exists b, []; split; [reflexivity |];
                          split; [reflexivity |]; split; auto].
    eexists _, _. split; [reflexivity |]. simpl.
    split; [reflexivity |]. split; [auto |].
    right. left. repeat split; (discriminate || auto).
  - (* mode selection *)
    destruct (ui.cursor b =? 0) eqn:Ec.
    + unfold ui.startPullOnly.
      destruct (Hstart (ui.withUpdateMode b "pull") eq_refl) as (st & cmds & ->).
      eexists _, _. split; [reflexivity |]. simpl.
      split; [reflexivity |]. split; [auto |].
      right. left. repeat split; (discriminate || auto).
    + eexists _, _. split; [reflexivity |]. simpl.
      split; [reflexivity |]. split; [auto |].
      right. left. repeat split; (discriminate || auto).
  - (* restart selection *)
    unfold ui.startAfterRestartConfirm.
    destruct (Hstart b eq_refl) as (st & cmds & ->). simpl.
    eexists _, _. split; [reflexivity |]. simpl.
    split; [reflexivity |]. split; [auto |].
    right. left. repeat split; (discriminate || auto).
  - (* old confirmation *)
    destruct (ui.cursor b =? 0).
    + unfold ui.startAfterRestartConfirm.
      destruct (Hstart b eq_refl) as (st & cmds & ->). simpl.
      eexists _, _. split; [reflexivity |]. simpl.
      split; [reflexivity |]. split; [auto |].
      right. left. repeat split; (discriminate || auto).
    + eexists _, _. split; [reflexivity |]. simpl.
      split; [reflexivity |]. split; [auto |]. right. right. auto.
  - (* updating *)
    destruct (negb _ && _); [| exists b, []; split; [reflexivity |];
                               split; [reflexivity |]; split; auto].
    eexists _, _. split; [reflexivity |]. simpl.
    split; [reflexivity |]. split; [auto |].
    right. left. repeat split; (discriminate || auto).
Qed.

(** The three ways a handler moves through the screens keep the state
    well formed. *)
Lemma wellFormed_moves m m' :
  tui.projects m' = tui.projects m ->
  (tui.selectedUpdates m' = tui.selectedUpdates m \/ tui.selectedUpdates m' = ∅) ->
  tui.selectedProject m' = tui.selectedProject m ->
  ((tui.screen m' = tui.screen m /\ tui.cursor m' = tui.cursor m /\
    tui.viewportOffset m' = tui.viewportOffset m) \/
   (tui.screen m' <> ui.ScreenUpdateList /\ tui.screen m' <> ui.ScreenContainerList /\
    (tui.cursor m' = tui.cursor m \/ tui.cursor m' = 0) /\
    tui.viewportOffset m' = tui.viewportOffset m) \/
   (tui.cursor m' = 0 /\ tui.viewportOffset m' = 0)) ->
  tui.wellFormed m -> tui.wellFormed m'.
Proof.
  unfold tui.wellFormed, tui.lenProjects, tui.maxVisibleItems.
  intros -> Hs -> Hmove (Hlen & Hcur & Hvp & Hlist & Hsel & Hsp).
  assert (Hsel' : forall i b, tui.selectedUpdates m' !! i = Some b ->
                              b = true /\ 0 <= i /\
                              (i < Z.of_nat (List.length (tui.projects m)) \/ i = 0)).
  { destruct Hs as [-> | ->]; [exact Hsel |].
    intros i b H. rewrite lookup_empty in H. discriminate. }
  destruct Hmove as [(-> & -> & ->) | [(H1 & H2 & Hc & ->) | (-> & ->)]].
  - auto 10.
  - split; [exact Hlen |]. split; [destruct Hc as [-> | ->]; lia |].
    split; [exact Hvp |]. split; [intros [H | H]; contradiction | auto].
  - split; [exact Hlen |]. split; [lia |]. split; [lia |].
    split; [intros _; lia | auto].
Qed.

Section ShellInvariant.
Variable time_Format : Z -> string.
Variable json_MarshalIndent : list Project.t -> string + string.

Lemma handleEnter_wellFormed m :
  tui.wellFormed m ->
  exists m' cmds,
    tui.handleEnter time_Format m = Some (m', cmds) /\
    tui.wellFormed m' /\ tui.projects m' = tui.projects m.
Proof.
  intros Hwf. unfold tui.handleEnter.
  assert (Hflow : exists m' cmds,
             match ui.handleEnter (tui.batch m) with
             | Some (b, cmds) => Some (tui.setBatch m b, List.map tui.Batch cmds)
             | None => None
             end = Some (m', cmds) /\
             tui.wellFormed m' /\ tui.projects m' = tui.projects m).
  { destruct (ui_handleEnter_moves (tui.batch m)) as (b' & cmds & -> & Hp & Hs & Hm).
    { intros i v H. now apply (proj2 (proj2 (proj2 (proj2 Hwf)))) in H. }
    eexists _, _. split; [reflexivity |]. split; [| exact Hp].
    eapply (wellFormed_moves m); [exact Hp | exact Hs | reflexivity | exact Hm | exact Hwf]. }
  destruct (tui.screen m) eqn:Hscr; try exact Hflow; try (now eauto).
  - (* main menu *)
    destruct (_ =? 0).
    { eexists _, _. split; [reflexivity |]. split; [| reflexivity].
      eapply (wellFormed_moves m); [reflexivity | now left | reflexivity | | exact Hwf].
      right. right. split; reflexivity. }
    destruct (_ =? 1).
    { eexists _, _. split; [reflexivity |]. split; [| reflexivity].
      eapply (wellFormed_moves m); [reflexivity | now right | reflexivity | | exact Hwf].
      right. right. split; reflexivity. }
    destruct (_ =? 2).
    { eexists _, _. split; [reflexivity |]. split; [| reflexivity].
      eapply (wellFormed_moves m); [reflexivity | now left | reflexivity | | exact Hwf].
      right. left. split; [discriminate |]. split; [discriminate |].
      split; [now right | reflexivity]. }
    eauto.
  - (* container list *)
    destruct (tui.cursor m <? tui.lenProjects m) eqn:E1; [| eauto].
    apply Z.ltb_lt in E1.
    destruct (tui.cursor m <? 0) eqn:E2.
    { apply Z.ltb_lt in E2. destruct Hwf as (_ & Hcur & _). lia. }
    apply Z.ltb_ge in E2.
    eexists _, _. split; [reflexivity |]. split; [| reflexivity].
    assert (H : tui.wellFormed
                  (tui.set_selectedProject m (Some (Z.to_nat (tui.cursor m))))).
    { destruct Hwf as (Hlen & Hcur & Hvp & Hlist & Hsel & Hsp).
      split; [exact Hlen |]. split; [exact Hcur |]. split; [exact Hvp |].
      split; [exact Hlist |]. split; [exact Hsel |].
      intros i [= <-]. unfold tui.lenProjects in E1.
      change (tui.projects (tui.set_selectedProject m ?x)) with (tui.projects m). lia. }
    eapply (wellFormed_moves (tui.set_selectedProject m (Some (Z.to_nat (tui.cursor m)))));
      [reflexivity | now left | reflexivity | | exact H].
    right. left. split; [discriminate |]. split; [discriminate |].
    split; [now right | reflexivity].
  - (* container detail *)
    eexists _, _. split; [reflexivity |]. split; [| reflexivity].
    eapply (wellFormed_moves m); [reflexivity | now left | reflexivity | | exact Hwf].
    right. left. split; [discriminate |]. split; [discriminate |].
    split; [now right | reflexivity].
  - (* action menu *)
    destruct (handleAction_wellFormed m Hwf) as [H1 H2].
    destruct (tui.handleAction m) as [m' cmds]. eauto.
  - (* exit confirmation *)
    destruct (_ =? 0).
    + eexists _, _. split; [reflexivity |]. split; [| reflexivity].
      revert Hwf. now apply wellFormed_fields.
    + eexists _, _. split; [reflexivity |]. split; [| reflexivity].
      eapply (wellFormed_moves m); [reflexivity | now left | reflexivity | | exact Hwf].
      right. left. split; [discriminate |]. split; [discriminate |].
      split; [now right | reflexivity].
Qed.

Lemma set_cursor_plain m c :
  tui.screen m <> ui.ScreenUpdateList -> tui.screen m <> ui.ScreenContainerList ->
  0 <= c ->
  tui.wellFormed m -> tui.wellFormed (tui.set_cursor m c).
Proof.
  intros H1 H2 Hc (Hlen & Hcur & Hvp & Hlist & Hsel & Hsp).
  unfold tui.wellFormed. tui_cbn.
  split; [exact Hlen |]. split; [exact Hc |]. split; [exact Hvp |].
  split; [intros [H | H]; contradiction | auto].
Qed.

Lemma set_cursor_row m num :
  tui.screen m = ui.ScreenUpdateList \/ tui.screen m = ui.ScreenContainerList ->
  1 <= num <= tui.visibleCount m ->
  tui.wellFormed m ->
  tui.wellFormed
    (tui.set_cursor m (ui.wrapInt (ui.wrapInt (tui.viewportOffset m + num) - 1))).
Proof.
  intros Hscr Hnum (Hlen & Hcur & Hvp & Hlist & Hsel & Hsp).
  destruct (Hlist Hscr) as [H1 H2].
  unfold tui.visibleCount in Hnum. cbv zeta in Hnum.
  unfold tui.wellFormed, tui.maxVisibleItems, ui.maxInt in *. tui_cbn.
  set (vp := ui.viewportOffset (tui.batch m)) in *.
  set (n := Z.of_nat (List.length (ui.projects (tui.batch m)))) in *.
  rewrite (wrapInt_small (vp + 10)) in Hnum by (unfold ui.maxInt; lia).
  assert (Hv : 1 <= num <= 10 /\ vp + num <= n).
  { destruct (n <? vp + 10) eqn:E;
      [apply Z.ltb_lt in E | apply Z.ltb_ge in E];
      rewrite wrapInt_small in Hnum by (unfold ui.maxInt; lia); lia. }
  rewrite (wrapInt_small (vp + num)) by (unfold ui.maxInt; lia).
  rewrite (wrapInt_small (vp + num - 1)) by (unfold ui.maxInt; lia).
  split; [exact Hlen |]. split; [lia |]. split; [exact Hvp |].
  split; [intros _; lia | auto].
Qed.

Lemma handleNumberKey_wellFormed m num :
  tui.wellFormed m ->
  exists m' cmds,
    tui.handleNumberKey time_Format m num = Some (m', cmds) /\
    tui.wellFormed m' /\ tui.projects m' = tui.projects m.
Proof.
  intros Hwf. unfold tui.handleNumberKey. cbv zeta.
  set (n := if num =? 0 then 10 else num).
  assert (Hplain : forall count,
             count <= 3 ->
             tui.screen m <> ui.ScreenUpdateList ->
             tui.screen m <> ui.ScreenContainerList ->
             exists m' cmds,
               (if (1 <=? n) && (n <=? count)
                then tui.handleEnter time_Format
                       (tui.set_cursor m (ui.wrapInt (ui.wrapInt (0 + n) - 1)))
                else Some (m, [])) = Some (m', cmds) /\
               tui.wellFormed m' /\ tui.projects m' = tui.projects m).
  { intros count Hcount H1 H2.
    destruct ((1 <=? n) && (n <=? count)) eqn:E; [| eauto].
    apply andb_prop in E as [E1 E2]. apply Z.leb_le in E1, E2.
    rewrite (wrapInt_small (0 + n)) by (unfold ui.maxInt; lia).
    rewrite (wrapInt_small (0 + n - 1)) by (unfold ui.maxInt; lia).
    destruct (handleEnter_wellFormed (tui.set_cursor m (0 + n - 1)))
      as (m' & cmds & He & Hw & Hp).
    { apply set_cursor_plain; [exact H1 | exact H2 | lia | exact Hwf]. }
    eauto. }
  assert (Hmax : tui.maxOptions m <= 3)
    by (unfold tui.maxOptions; destruct (tui.selectedIsRunning m); lia).
  destruct (tui.screen m) eqn:Hscr; try (now eauto);
    try (apply Hplain; [lia | discriminate | discriminate]).
  - (* container list *)
    destruct ((1 <=? n) && (n <=? tui.visibleCount m)) eqn:E; [| eauto].
    apply andb_prop in E as [E1 E2]. apply Z.leb_le in E1, E2.
    destruct (handleEnter_wellFormed
                (tui.set_cursor m
                   (ui.wrapInt (ui.wrapInt (tui.viewportOffset m + n) - 1))))
      as (m' & cmds & He & Hw & Hp); [| eauto].
    apply set_cursor_row; [now right | lia | exact Hwf].
  - (* update list *)
    destruct ((1 <=? n) && (n <=? tui.visibleCount m)) eqn:E; [| eauto].
    apply andb_prop in E as [E1 E2]. apply Z.leb_le in E1, E2.
    destruct (handleSpace_wellFormed
                (tui.set_cursor m
                   (ui.wrapInt (ui.wrapInt (tui.viewportOffset m + n) - 1))))
      as [Hw Hp].
    { apply set_cursor_row; [now left | lia | exact Hwf]. }
    destruct (tui.handleSpace _) as [m' cmds]. eauto.
Qed.

Lemma digitOf_cases key num : tui.digitOf key = Some num -> 0 <= num <= 9.
Proof.
  unfold tui.digitOf.
  repeat (destruct (String.eqb key _); [intros [= <-]; lia |]).
  discriminate.
Qed.

Lemma handleKey_wellFormed m key :
  tui.wellFormed m ->
  exists m' cmds,
    tui.handleKey time_Format m key = Some (m', cmds) /\
    tui.wellFormed m' /\ tui.projects m' = tui.projects m.
Proof.
  intros Hwf. unfold tui.handleKey.
  destruct (String.eqb key "ctrl+c").
  { eexists _, _. split; [reflexivity |]. split; [| reflexivity].
    revert Hwf. now apply wellFormed_fields. }
  destruct (_ || _).
  { destruct (handleBack_wellFormed m Hwf). destruct (tui.handleBack m). eauto. }
  destruct (_ || _).
  { destruct (handleUp_wellFormed m Hwf). eauto. }
  destruct (_ || _).
  { destruct (handleDown_wellFormed m Hwf). destruct (tui.handleDown m). eauto. }
  destruct (String.eqb key "enter"); [now apply handleEnter_wellFormed |].
  destruct (_ || _).
  { destruct (handleSpace_wellFormed m Hwf). destruct (tui.handleSpace m). eauto. }
  destruct (_ || _).
  { destruct (handleSelectAll_wellFormed m Hwf).
    destruct (tui.handleSelectAll m). eauto. }
  destruct (_ || _).
  { destruct (handleRefresh_wellFormed m Hwf).
    destruct (tui.handleRefresh m). eauto. }
  destruct (tui.digitOf key); [now apply handleNumberKey_wellFormed | eauto].
Qed.

Lemma wellFormed_projects m ps :
  List.length ps = List.length (tui.projects m) ->
  tui.wellFormed m -> tui.wellFormed (tui.set_projects m ps).
Proof.
  intros Hlen. unfold tui.wellFormed. tui_cbn. now rewrite Hlen.
Qed.

Lemma refreshSelected_wellFormed m w :
  tui.wellFormed m ->
  tui.wellFormed (fst (tui.refreshSelected m w)) /\
  List.length (tui.projects (fst (tui.refreshSelected m w)))
  = List.length (tui.projects m).
Proof.
  intros Hwf. unfold tui.refreshSelected.
  destruct (tui.selectedProject m) as [i |]; [| now split].
  destruct (tui.projects m !! i) as [p |]; [| now split].
  unfold bind, ret. destruct (UpdateStatus p w) as [[p' e] w']. cbn [fst].
  split; [apply wellFormed_projects; [apply length_insert | exact Hwf] |].
  unfold tui.set_projects, tui.projects. tui_cbn. apply length_insert.
Qed.

Lemma NewModel_wellFormed projects cacheFile debugMode :
  Z.of_nat (List.length projects) <= ui.maxInt - tui.maxVisibleItems ->
  tui.wellFormed (tui.NewModel projects cacheFile debugMode).
Proof.
  intros Hlen.
  unfold tui.wellFormed, tui.NewModel, tui.maxVisibleItems in *. tui_cbn.
  split; [exact Hlen |]. split; [lia |]. split; [lia |].
  split; [intros [H | H]; discriminate |].
  split; [| discriminate].
  intros i b H. rewrite lookup_empty in H. discriminate.
Qed.

Lemma Update_wellFormed m msg w :
  tui.wellFormed m ->
  exists m' cmds,
    fst (tui.Update time_Format json_MarshalIndent m msg w) = Some (m', cmds) /\
    tui.wellFormed m' /\
    List.length (tui.projects m') = List.length (tui.projects m).
Proof.
  intros Hwf. destruct msg as [key | wd ht | text | e | bmsg | | index | index];
    unfold tui.Update.
  - destruct (handleKey_wellFormed m key Hwf) as (m' & cmds & He & Hw & Hp).
    exists m', cmds. unfold ret. cbn [fst]. rewrite Hp. auto.
  - eexists _, _. split; [reflexivity |]. split; [| reflexivity].
    revert Hwf. now apply wellFormed_fields.
  - unfold bind, ret.
    destruct (refreshSelected_wellFormed
                (tui.set_message (tui.set_loading m false) text) w) as [Hw Hp].
    { revert Hwf. now apply wellFormed_fields. }
    destruct (tui.refreshSelected _ w) as [m1 w1]. cbn [fst] in *.
    eexists _, _. split; [reflexivity |]. split; [exact Hw | exact Hp].
  - eexists _, _. split; [reflexivity |]. split; [| reflexivity].
    revert Hwf. now apply wellFormed_fields.
  - destruct (ui.Update (tui.batch m) bmsg) as [b cmds] eqn:Eb.
    eexists _, _. split; [reflexivity |].
    assert (Hb : ui.projects b = ui.projects (tui.batch m) /\
                 ui.screen b = ui.screen (tui.batch m) /\
                 ui.cursor b = ui.cursor (tui.batch m) /\
                 ui.viewportOffset b = ui.viewportOffset (tui.batch m) /\
                 ui.selectedUpdates b = ui.selectedUpdates (tui.batch m)).
    { destruct bmsg; simpl in Eb; try (injection Eb as <- _; auto 6).
      destruct (ui.loading (tui.batch m)); injection Eb as <- _; auto 6. }
    destruct Hb as (H1 & H2 & H3 & H4 & H5).
    split; [| unfold tui.projects; tui_cbn; now rewrite H1].
    revert Hwf. apply wellFormed_fields; tui_cbn; auto.
  - cbv zeta. unfold bind, ret.
    destruct (SaveToCache _ _ _ w) as [[e |] w1]; cbn [fst];
      (eexists _, _; split; [reflexivity |]; split; [| reflexivity];
       revert Hwf; now apply wellFormed_fields).
  - eexists _, _. split; [reflexivity |]. split; [| reflexivity].
    revert Hwf. now apply wellFormed_fields.
  - cbv zeta. destruct (_ <? _); eauto.
Qed.

(** X19: the shell never panics on an index and never loses track of its
    lists.  A fresh model is well formed, and from a well-formed model
    every message (any key, any window size, any message of a task or of
    the update check) is handled without a run-time panic and leads to a
    well-formed model with as many projects as before: the cursor stays
    on a row of the list and on the screen, every selected index belongs
    to a project, and the selected project exists. *)
Theorem Update_keeps_wellFormed :
  (forall projects cacheFile debugMode,
      Z.of_nat (List.length projects) <= ui.maxInt - tui.maxVisibleItems ->
      tui.wellFormed (tui.NewModel projects cacheFile debugMode)) /\
  (forall m msg w,
      tui.wellFormed m ->
      exists m' cmds,
        fst (tui.Update time_Format json_MarshalIndent m msg w) = Some (m', cmds) /\
        tui.wellFormed m' /\
        List.length (tui.projects m') = List.length (tui.projects m)).
Proof. split; [exact NewModel_wellFormed | exact Update_wellFormed]. Qed.

End ShellInvariant.

Lemma Update_keeps_wellFormed_witness :
  exists m' cmds,
    fst (tui.Update (fun _ => "2024-01-01 00:00") sampleMarshal
           (tui.NewModel threeProjects cachePath false) (tui.KeyMsg "2") deadWorld)
    = Some (m', cmds) /\
    tui.wellFormed m' /\
    List.length (tui.projects m')
    = List.length (tui.projects (tui.NewModel threeProjects cachePath false)).
Proof.
  apply (proj2 (Update_keeps_wellFormed (fun _ => "2024-01-01 00:00") sampleMarshal)).
  apply (proj1 (Update_keeps_wellFormed (fun _ => "2024-01-01 00:00") sampleMarshal)).
  vm_compute. discriminate.
Defined.

Lemma threeProjects_wellFormed :
  tui.wellFormed (tui.NewModel threeProjects cachePath false).
Proof. apply NewModel_wellFormed. vm_compute. discriminate. Qed.

(** ** The shell: what the keys can and cannot do *)

Lemma setBatch_batch m : tui.setBatch m (tui.batch m) = m.
Proof. now destruct m. Qed.

Section ShellKeys.
Variable time_Format : Z -> string.
Variable json_MarshalIndent : list Project.t -> string + string.

(** X20: the updating screen cannot be left by navigation.  On it every
    key other than [ctrl+c] and [enter] is handled without a command and
    changes nothing but, for [up], the cursor; [q] and [esc] in particular
    do nothing.  [enter] does nothing either while the batch is loading or
    has completions outstanding, and once the batch is done it returns to
    the main menu with the selection and the counters cleared. *)
Theorem updating_screen_locked (m : tui.Model) (key : string) :
  tui.screen m = ui.ScreenUpdating ->
  key <> "ctrl+c" ->
  exists m',
    tui.handleKey time_Format m key = Some (m', []) /\
    (key <> "enter" -> tui.set_cursor m' (tui.cursor m) = m) /\
    (key = "enter" ->
     if negb (tui.loading m)
        && (ui.updatesTotal (tui.batch m) <=? ui.updatesCompleted (tui.batch m))
     then tui.screen m' = ui.ScreenMainMenu /\ tui.cursor m' = 0 /\
          tui.selectedUpdates m' = ∅ /\
          ui.updatesTotal (tui.batch m') = 0 /\ ui.updatesCompleted (tui.batch m') = 0
     else m' = m).
Proof.
  intros Hscr Hkey.
  assert (Hid : tui.set_cursor m (tui.cursor m) = m)
    by (destruct m as [[] ? ? ? ? ? ? ? ? ? ? ? ?]; reflexivity).
  unfold tui.handleKey.
  apply String.eqb_neq in Hkey. rewrite Hkey.
  destruct (String.eqb key "q" || String.eqb key "esc") eqn:E1.
  { unfold tui.handleBack. rewrite Hscr. exists m.
    split; [reflexivity |]. split; [auto |].
    intros ->. discriminate. }
  destruct (String.eqb key "up" || String.eqb key "k") eqn:E2.
  { eexists. split; [reflexivity |]. split; [| intros ->; discriminate].
    intros _. unfold tui.handleUp. destruct (0 <? tui.cursor m); [| exact Hid].
    cbv zeta.
    assert (Hs : tui.screen (tui.set_cursor m (tui.cursor m - 1)) = ui.ScreenUpdating)
      by exact Hscr.
    rewrite Hs. destruct m as [[] ? ? ? ? ? ? ? ? ? ? ? ?]; reflexivity. }
  destruct (String.eqb key "down" || String.eqb key "j") eqn:E3.
  { unfold tui.handleDown. rewrite Hscr. exists m.
    split; [reflexivity |]. split; [auto | intros ->; discriminate]. }
  destruct (String.eqb key "enter") eqn:E4.
  { apply String.eqb_eq in E4. subst key.
    unfold tui.handleEnter. rewrite Hscr.
    unfold ui.handleEnter. unfold tui.screen in Hscr. rewrite Hscr.
    unfold tui.loading.
    destruct (negb (ui.loading (tui.batch m)) && _).
    - eexists. split; [reflexivity |]. split; [congruence |].
      intros _. repeat split.
    - exists m. rewrite setBatch_batch. split; [reflexivity |].
      split; [congruence | reflexivity]. }
  assert (Hne : key <> "enter") by now apply String.eqb_neq.
  destruct (String.eqb key " " || String.eqb key "space").
  { unfold tui.handleSpace. rewrite Hscr. exists m.
    split; [reflexivity |]. split; [auto | contradiction]. }
  destruct (String.eqb key "a" || String.eqb key "A").
  { unfold tui.handleSelectAll. rewrite Hscr. exists m.
    split; [reflexivity |]. split; [auto | contradiction]. }
  destruct (String.eqb key "u" || String.eqb key "U").
  { unfold tui.handleRefresh. rewrite Hscr. exists m.
    split; [reflexivity |]. split; [auto | contradiction]. }
  destruct (tui.digitOf key) as [num |].
  { unfold tui.handleNumberKey. rewrite Hscr. exists m.
    split; [reflexivity |]. split; [auto | contradiction]. }
  exists m. split; [reflexivity |]. split; [auto | contradiction].
Qed.

(** X21: in the action menu the cursor can be moved one line below the
    last option, and [enter] there starts no operation but still marks
    the shell as loading and clears the last error: it hands no command
    to the runtime, so nothing is under way that would end the loading
    state. *)
Theorem action_menu_overrun (m : tui.Model) (i : nat) :
  tui.screen m = ui.ScreenActionMenu ->
  tui.selectedProject m = Some i ->
  tui.cursor m = tui.maxOptions m - 1 ->
  let below := fst (tui.handleDown m) in
  tui.cursor below = tui.maxOptions m /\
  tui.handleEnter time_Format below
  = Some (tui.set_err (tui.set_loading below true) None, []).
Proof.
  intros Hscr Hsel Hcur.
  unfold tui.handleDown. rewrite Hscr. cbn [fst].
  unfold tui.stepDown. rewrite Hcur.
  assert (E : (tui.maxOptions m - 1 <? tui.maxOptions m) = true)
    by (apply Z.ltb_lt; lia).
  rewrite E.
  set (below := tui.set_cursor m (tui.maxOptions m - 1 + 1)).
  assert (Hc : tui.cursor below = tui.maxOptions m)
    by (subst below; unfold tui.cursor; tui_cbn; lia).
  split; [exact Hc |].
  unfold tui.handleEnter.
  assert (Hs : tui.screen below = ui.ScreenActionMenu) by exact Hscr.
  rewrite Hs. unfold tui.handleAction.
  assert (Hp : tui.selectedProject below = Some i) by exact Hsel.
  rewrite Hp. cbv zeta.
  assert (Hr : tui.selectedIsRunning (tui.set_err (tui.set_loading below true) None)
               = tui.selectedIsRunning m).
  { unfold tui.selectedIsRunning. reflexivity. }
  assert (Hc2 : tui.cursor (tui.set_err (tui.set_loading below true) None)
                = tui.maxOptions m) by exact Hc.
  rewrite Hr, Hc2. unfold tui.maxOptions.
  destruct (tui.selectedIsRunning m); reflexivity.
Qed.

End ShellKeys.

Lemma updating_screen_locked_witness :
  let m := tui.set_screen (tui.NewModel threeProjects cachePath false)
                          ui.ScreenUpdating in
  exists m',
    tui.handleKey (fun _ => "unknown") m "q" = Some (m', []) /\
    ("q" <> "enter" -> tui.set_cursor m' (tui.cursor m) = m) /\
    ("q" = "enter" ->
     if negb (tui.loading m)
        && (ui.updatesTotal (tui.batch m) <=? ui.updatesCompleted (tui.batch m))
     then tui.screen m' = ui.ScreenMainMenu /\ tui.cursor m' = 0 /\
          tui.selectedUpdates m' = ∅ /\
          ui.updatesTotal (tui.batch m') = 0 /\ ui.updatesCompleted (tui.batch m') = 0
     else m' = m).
Proof.
  apply (updating_screen_locked (fun _ => "unknown")
           (tui.set_screen (tui.NewModel threeProjects cachePath false)
                           ui.ScreenUpdating) "q");
    [reflexivity | discriminate].
Defined.

Lemma action_menu_overrun_witness :
  let m := tui.set_selectedProject
             (tui.set_screen (tui.NewModel threeProjects cachePath false)
                             ui.ScreenActionMenu) (Some 0%nat) in
  let below := fst (tui.handleDown m) in
  tui.cursor below = tui.maxOptions m /\
  tui.handleEnter (fun _ => "unknown") below
  = Some (tui.set_err (tui.set_loading below true) None, []).
Proof.
  apply (action_menu_overrun (fun _ => "unknown")
           (tui.set_selectedProject
              (tui.set_screen (tui.NewModel threeProjects cachePath false)
                              ui.ScreenActionMenu) (Some 0%nat)) 0%nat);
    reflexivity.
Defined.

(** ** The shell: selections *)

Lemma selected_true sel i :
  tui.selected sel i = true <-> sel !! i = Some true.
Proof.
  unfold tui.selected. destruct (sel !! i) as [[|] |]; simpl; split; congruence.
Qed.

Lemma toggle_twice sel i :
  (forall b, sel !! i = Some b -> b = true) ->
  tui.toggle (tui.toggle sel i) i = sel.
Proof.
  intros Htrue. unfold tui.toggle at 2.
  destruct (tui.selected sel i) eqn:E.
  - apply selected_true in E.
    unfold tui.toggle, tui.selected. rewrite lookup_delete_eq. simpl.
    rewrite insert_delete_eq. now apply insert_id.
  - unfold tui.toggle, tui.selected. rewrite lookup_insert_eq. simpl.
    rewrite delete_insert_eq. apply delete_id.
    unfold tui.selected in E.
    destruct (sel !! i) as [b |] eqn:Eb; [| reflexivity].
    rewrite (Htrue b eq_refl) in E. discriminate.
Qed.

(** X22: in the update list the space key flips the selection of the row
    under the cursor and of no other row, and pressing it twice gives the
    selection back as it was.  The selection map holds only entries that
    read true, so a row is selected exactly when it has an entry. *)
Theorem handleSpace_toggles (m : tui.Model) :
  tui.wellFormed m ->
  tui.screen m = ui.ScreenUpdateList ->
  let once := fst (tui.handleSpace m) in
  tui.selected (tui.selectedUpdates once) (tui.cursor m)
  = negb (tui.selected (tui.selectedUpdates m) (tui.cursor m)) /\
  (forall j, j <> tui.cursor m ->
             tui.selectedUpdates once !! j = tui.selectedUpdates m !! j) /\
  tui.selectedUpdates (fst (tui.handleSpace once)) = tui.selectedUpdates m /\
  snd (tui.handleSpace m) = [].
Proof.
  intros (_ & _ & _ & _ & Hsel & _) Hscr.
  unfold tui.handleSpace. rewrite Hscr. cbn [fst snd].
  assert (Hs : tui.screen (tui.set_selectedUpdates m
                             (tui.toggle (tui.selectedUpdates m) (tui.cursor m)))
               = ui.ScreenUpdateList) by exact Hscr.
  rewrite Hs. cbn [fst].
  change (tui.selectedUpdates (tui.set_selectedUpdates ?x ?s)) with s.
  change (tui.cursor (tui.set_selectedUpdates ?x ?s)) with (tui.cursor x).
  split; [| split; [| split; [| reflexivity]]].
  - unfold tui.toggle.
    destruct (tui.selected (tui.selectedUpdates m) (tui.cursor m)) eqn:E;
      unfold tui.selected.
    + now rewrite lookup_delete_eq.
    + now rewrite lookup_insert_eq.
  - intros j Hj. unfold tui.toggle.
    destruct (tui.selected _ _);
      [now apply lookup_delete_ne | now apply lookup_insert_ne].
  - apply toggle_twice. intros b Hb. now apply (Hsel _ _ Hb).
Qed.

Lemma handleSpace_toggles_witness :
  let m := tui.set_screen (tui.NewModel threeProjects cachePath false)
                          ui.ScreenUpdateList in
  let once := fst (tui.handleSpace m) in
  tui.selected (tui.selectedUpdates once) (tui.cursor m)
  = negb (tui.selected (tui.selectedUpdates m) (tui.cursor m)) /\
  (forall j, j <> tui.cursor m ->
             tui.selectedUpdates once !! j = tui.selectedUpdates m !! j) /\
  tui.selectedUpdates (fst (tui.handleSpace once)) = tui.selectedUpdates m /\
  snd (tui.handleSpace m) = [].
Proof.
  apply (handleSpace_toggles
           (tui.set_screen (tui.NewModel threeProjects cachePath false)
                           ui.ScreenUpdateList)); [| reflexivity].
  eapply (wellFormed_moves (tui.NewModel threeProjects cachePath false));
    [reflexivity | now left | reflexivity | right; right; split; reflexivity |
     exact threeProjects_wellFormed].
Defined.

Lemma dom_rows (sel : gmap Z bool) (n : Z) :
  (forall i b, sel !! i = Some b -> 0 <= i < n) ->
  dom sel ⊆ (list_to_set (seqZ 0 n) : gset Z).
Proof.
  intros Hsel i Hi. apply elem_of_dom in Hi as [b Hb].
  apply elem_of_list_to_set, elem_of_seqZ. apply Hsel in Hb. lia.
Qed.

Lemma size_rows (n : Z) : size (list_to_set (seqZ 0 n) : gset Z) = Z.to_nat n.
Proof.
  rewrite size_list_to_set by apply NoDup_seqZ. apply length_seqZ.
Qed.

(** A selection within the rows of the list has as many entries as the
    list has rows exactly when every row has an entry. *)
Lemma all_rows_selected (sel : gmap Z bool) (n : Z) :
  0 <= n ->
  (forall i b, sel !! i = Some b -> 0 <= i < n) ->
  ui.len sel = n <-> (forall i, 0 <= i < n -> is_Some (sel !! i)).
Proof.
  intros Hn Hsel. unfold ui.len. rewrite <- size_dom.
  pose proof (dom_rows sel n Hsel) as Hsub.
  split.
  - intros Hsize i Hi.
    apply elem_of_dom.
    assert (Heq : dom sel = (list_to_set (seqZ 0 n) : gset Z)).
    { apply set_subseteq_size_eq; [exact Hsub |]. rewrite size_rows. lia. }
    rewrite Heq. apply elem_of_list_to_set, elem_of_seqZ. lia.
  - intros Hall.
    assert (Heq : dom sel ≡ (list_to_set (seqZ 0 n) : gset Z)).
    { apply set_equiv_subseteq. split; [exact Hsub |].
      intros i Hi. apply elem_of_list_to_set, elem_of_seqZ in Hi.
      apply elem_of_dom, Hall. lia. }
    rewrite Heq, size_rows. lia.
Qed.

(** X23: in the update list the key [a] switches between everything and
    nothing.  With at least one project, the selection counts as complete
    exactly when every row is selected; a complete selection is cleared,
    and from any other selection every row becomes selected, so that a
    second press clears it. *)
Theorem handleSelectAll_all_or_nothing (m : tui.Model) :
  tui.wellFormed m ->
  tui.screen m = ui.ScreenUpdateList ->
  tui.projects m <> [] ->
  let once := fst (tui.handleSelectAll m) in
  ((ui.len (tui.selectedUpdates m) =? tui.lenProjects m) = true <->
   forall i, 0 <= i < tui.lenProjects m ->
             tui.selected (tui.selectedUpdates m) i = true) /\
  ((ui.len (tui.selectedUpdates m) =? tui.lenProjects m) = true ->
   tui.selectedUpdates once = ∅) /\
  ((ui.len (tui.selectedUpdates m) =? tui.lenProjects m) = false ->
   (forall i, tui.selected (tui.selectedUpdates once) i = true
              <-> 0 <= i < tui.lenProjects m) /\
   tui.selectedUpdates (fst (tui.handleSelectAll once)) = ∅).
Proof.
  intros (_ & _ & _ & _ & Hsel & _) Hscr Hne.
  assert (Hpos : 0 < tui.lenProjects m).
  { unfold tui.lenProjects. destruct (tui.projects m); [contradiction | simpl; lia]. }
  assert (Hrows : forall i b, tui.selectedUpdates m !! i = Some b ->
                              0 <= i < tui.lenProjects m).
  { intros i b H. apply Hsel in H. lia. }
  unfold tui.handleSelectAll. rewrite Hscr.
  split; [| split].
  - rewrite Z.eqb_eq, (all_rows_selected _ _ (Z.lt_le_incl _ _ Hpos) Hrows).
    split; intros H i Hi.
    + apply selected_true. destruct (H i Hi) as [b Hb].
      now rewrite (proj1 (Hsel i b Hb)) in Hb.
    + exists true. now apply selected_true, H.
  - intros ->. reflexivity.
  - intros ->. cbn [fst].
    change (tui.selectedUpdates (tui.set_selectedUpdates ?x ?s)) with s.
    set (sel' := foldl (fun sel i => <[i := true]> sel) (tui.selectedUpdates m)
                       (seqZ 0 (tui.lenProjects m))).
    assert (Hin : forall i, tui.selected sel' i = true <-> 0 <= i < tui.lenProjects m).
    { intros i. rewrite selected_true. subst sel'. rewrite foldl_insert_true.
      destruct (decide (i ∈ seqZ 0 (tui.lenProjects m))) as [Hi | Hi].
      - apply elem_of_seqZ in Hi. split; [lia | reflexivity].
      - split.
        + intros H. apply Hrows in H. lia.
        + intros H. exfalso. apply Hi, elem_of_seqZ. lia. }
    split; [exact Hin |].
    assert (Hs : tui.screen (tui.set_selectedUpdates m sel') = ui.ScreenUpdateList)
      by exact Hscr.
    rewrite Hs.
    change (tui.selectedUpdates (tui.set_selectedUpdates ?x ?s)) with s.
    change (tui.lenProjects (tui.set_selectedUpdates m sel')) with (tui.lenProjects m).
    assert (Hfull : (ui.len sel' =? tui.lenProjects m) = true).
    { apply Z.eqb_eq, all_rows_selected; [lia | |].
      - intros i b H.
        assert (Ht : tui.selected sel' i = true).
        { subst sel'. rewrite foldl_insert_true in H.
          apply selected_true. rewrite foldl_insert_true.
          destruct (decide (i ∈ seqZ 0 (tui.lenProjects m))); [reflexivity |].
          now rewrite (proj1 (Hsel i b H)) in H. }
        now apply Hin.
      - intros i Hi. exists true. now apply selected_true, Hin. }
    rewrite Hfull. reflexivity.
Qed.

Lemma handleSelectAll_all_or_nothing_witness :
  let m := tui.set_screen (tui.NewModel threeProjects cachePath false)
                          ui.ScreenUpdateList in
  tui.selectedUpdates (fst (tui.handleSelectAll (fst (tui.handleSelectAll m)))) = ∅.
Proof.
  refine (proj2 (proj2 (proj2 (handleSelectAll_all_or_nothing
            (tui.set_screen (tui.NewModel threeProjects cachePath false)
                            ui.ScreenUpdateList) _ _ _)) _)).
  - eapply (wellFormed_moves (tui.NewModel threeProjects cachePath false));
      [reflexivity | now left | reflexivity | right; right; split; reflexivity |
       exact threeProjects_wellFormed].
  - reflexivity.
  - discriminate.
  - reflexivity.
Defined.

Lemma toggleDisplayed_filter (updates restarts : gmap Z bool) (cursor : Z)
      (indices : list Z) :
  forall displayIndex,
    displayIndex <= cursor ->
    tui.toggleDisplayed indices displayIndex cursor updates restarts
    = match List.filter (tui.selected updates) indices
            !! Z.to_nat (cursor - displayIndex) with
      | Some i => tui.toggle restarts i
      | None => restarts
      end.
Proof.
  induction indices as [| i rest IH]; intros d Hd; [reflexivity |].
  simpl. destruct (tui.selected updates i); simpl; [| now apply IH].
  destruct (d =? cursor) eqn:E.
  - apply Z.eqb_eq in E. subst d. now rewrite Z.sub_diag.
  - apply Z.eqb_neq in E. rewrite IH by lia.
    replace (Z.to_nat (cursor - d)) with (S (Z.to_nat (cursor - (d + 1)))) by lia.
    reflexivity.
Qed.

Lemma toggleDisplayed_negative (updates restarts : gmap Z bool) (cursor : Z)
      (indices : list Z) :
  forall displayIndex,
    cursor < displayIndex ->
    tui.toggleDisplayed indices displayIndex cursor updates restarts = restarts.
Proof.
  induction indices as [| i rest IH]; intros d Hd; [reflexivity |].
  simpl. destruct (tui.selected updates i); simpl; [| now apply IH].
  destruct (d =? cursor) eqn:E; [apply Z.eqb_eq in E; lia |].
  apply IH. lia.
Qed.

(** X24: on the restart selection the space key acts on the row under
    the cursor, where the rows are the projects selected for update in
    list order: it flips the restart mark of the project in that row and
    of no other; with the cursor below the last row (or negative) nothing
    changes.  The update selection itself is not touched. *)
Theorem handleSpace_restart_row (m : tui.Model) :
  tui.screen m = ui.ScreenUpdateRestartConfirm ->
  let rows := List.filter (tui.selected (tui.selectedUpdates m))
                          (seqZ 0 (tui.lenProjects m)) in
  tui.selectedUpdates (fst (tui.handleSpace m)) = tui.selectedUpdates m /\
  tui.selectedRestarts (fst (tui.handleSpace m))
  = (if tui.cursor m <? 0 then tui.selectedRestarts m
     else match rows !! Z.to_nat (tui.cursor m) with
          | Some i => tui.toggle (tui.selectedRestarts m) i
          | None => tui.selectedRestarts m
          end).
Proof.
  intros Hscr. unfold tui.handleSpace. rewrite Hscr. cbn [fst].
  split; [reflexivity |].
  change (tui.selectedRestarts (tui.set_selectedRestarts ?x ?s)) with s.
  destruct (tui.cursor m <? 0) eqn:E.
  - apply Z.ltb_lt in E. now apply toggleDisplayed_negative.
  - apply Z.ltb_ge in E. rewrite toggleDisplayed_filter by exact E.
    now rewrite Z.sub_0_r.
Qed.

Lemma handleSpace_restart_row_witness :
  let m := tui.set_cursor
             (tui.set_selectedUpdates
                (tui.set_screen (tui.NewModel threeProjects cachePath false)
                                ui.ScreenUpdateRestartConfirm)
                {[ 0 := true; 2 := true ]}) 1 in
  tui.selectedRestarts (fst (tui.handleSpace m)) = {[ 2 := true ]}.
Proof.
  etransitivity.
  - apply (handleSpace_restart_row
             (tui.set_cursor
                (tui.set_selectedUpdates
                   (tui.set_screen (tui.NewModel threeProjects cachePath false)
                                   ui.ScreenUpdateRestartConfirm)
                   {[ 0 := true; 2 := true ]}) 1)).
    reflexivity.
  - vm_compute. reflexivity.
Defined.

(** ** The shell: going back and leaving *)

Lemma handleBack_screen m :
  tui.screen (fst (tui.handleBack m)) = backTarget (tui.screen m) /\
  snd (tui.handleBack m) = [] /\
  tui.quitting (fst (tui.handleBack m)) = tui.quitting m /\
  tui.projects (fst (tui.handleBack m)) = tui.projects m.
Proof.
  unfold tui.handleBack. destruct (tui.screen m) eqn:E; cbn [fst snd];
    repeat split; try reflexivity; exact E.
Qed.

(** X25: going back never quits and never starts anything, and it leads
    to the main menu: from every screen but the updating screen at most
    three presses of [q] or [esc] reach the main menu, each press changing
    the screen as the back table says.  From the main menu the next press
    asks for confirmation with the cursor on the second line, which is the
    answer No. *)
Theorem handleBack_reaches_main_menu (m : tui.Model) :
  let back := fun m => fst (tui.handleBack m) in
  (forall n, tui.screen (Nat.iter n back m) = Nat.iter n backTarget (tui.screen m) /\
             tui.quitting (Nat.iter n back m) = tui.quitting m /\
             snd (tui.handleBack (Nat.iter n back m)) = []) /\
  (tui.screen m <> ui.ScreenUpdating ->
   exists n, (n <= 3)%nat /\ tui.screen (Nat.iter n back m) = ui.ScreenMainMenu) /\
  (tui.screen m = ui.ScreenMainMenu ->
   tui.screen (back m) = ui.ScreenConfirmExit /\ tui.cursor (back m) = 1).
Proof.
  intros back.
  assert (Hn : forall n,
             tui.screen (Nat.iter n back m) = Nat.iter n backTarget (tui.screen m) /\
             tui.quitting (Nat.iter n back m) = tui.quitting m /\
             snd (tui.handleBack (Nat.iter n back m)) = []).
  { induction n as [| n (IH1 & IH2 & IH3)].
    - split; [reflexivity |]. split; [reflexivity |]. apply handleBack_screen.
    - change (Nat.iter (S n) back m) with (fst (tui.handleBack (Nat.iter n back m))).
      change (Nat.iter (S n) backTarget (tui.screen m))
        with (backTarget (Nat.iter n backTarget (tui.screen m))).
      destruct (handleBack_screen (Nat.iter n back m)) as (H1 & H2 & H3 & H4).
      split; [now rewrite H1, IH1 |]. split; [now rewrite H3 |].
      apply handleBack_screen. }
  split; [exact Hn |]. split.
  - intros Hscr.
    assert (Ht : exists n, (n <= 3)%nat /\
                           Nat.iter n backTarget (tui.screen m) = ui.ScreenMainMenu).
    { destruct (tui.screen m);
        first [ now exists 0%nat; split; [lia | reflexivity]
              | now exists 1%nat; split; [lia | reflexivity]
              | now exists 2%nat; split; [lia | reflexivity]
              | now exists 3%nat; split; [lia | reflexivity]
              | contradiction ]. }
    destruct Ht as (n & Hle & Ht). exists n. split; [exact Hle |].
    now rewrite (proj1 (Hn n)).
  - intros Hscr. subst back. cbn beta.
    unfold tui.handleBack. rewrite Hscr. split; reflexivity.
Qed.

Lemma handleBack_reaches_main_menu_witness :
  let m := tui.set_screen (tui.NewModel threeProjects cachePath false)
                          ui.ScreenUpdateRestartConfirm in
  exists n, (n <= 3)%nat /\
            tui.screen (Nat.iter n (fun m => fst (tui.handleBack m)) m)
            = ui.ScreenMainMenu.
Proof.
  apply (proj1 (proj2 (handleBack_reaches_main_menu
                         (tui.set_screen (tui.NewModel threeProjects cachePath false)
                                         ui.ScreenUpdateRestartConfirm)))).
  discriminate.
Defined.

Section ShellLeaving.
Variable time_Format : Z -> string.
Variable json_MarshalIndent : list Project.t -> string + string.

Lemma not_Quit_Batch cmds : ~ In tui.Quit (List.map tui.Batch cmds).
Proof.
  induction cmds as [| c cmds IH]; simpl; [tauto |].
  intros [H | H]; [discriminate | contradiction].
Qed.

Lemma handleEnter_quit m m' cmds :
  tui.handleEnter time_Format m = Some (m', cmds) ->
  quiet m (m', cmds) \/
  (tui.screen m = ui.ScreenConfirmExit /\ tui.cursor m = 0).
Proof.
  unfold tui.handleEnter.
  assert (Hflow : match ui.handleEnter (tui.batch m) with
                  | Some (b, cmds0) =>
                      Some (tui.setBatch m b, List.map tui.Batch cmds0)
                  | None => None
                  end = Some (m', cmds) -> quiet m (m', cmds)).
  { destruct (ui.handleEnter (tui.batch m)) as [[b cmds0] |]; [| discriminate].
    intros [= <- <-]. split; [reflexivity | apply not_Quit_Batch]. }
  destruct (tui.screen m) eqn:Hscr; try (intros H; left; now apply Hflow);
    try (intros [= <- <-]; left; split; [reflexivity | simpl; tauto]).
  - (* main menu *)
    destruct (_ =? 0); [intros [= <- <-]; left; split; [reflexivity | simpl; tauto] |].
    destruct (_ =? 1); [intros [= <- <-]; left; split; [reflexivity | simpl; tauto] |].
    destruct (_ =? 2); intros [= <- <-]; left; (split; [reflexivity | simpl; tauto]).
  - (* container list *)
    destruct (_ <? _); [| intros [= <- <-]; left; split; [reflexivity | simpl; tauto]].
    destruct (_ <? 0); [discriminate |].
    intros [= <- <-]. left. split; [reflexivity | simpl; tauto].
  - (* action menu *)
    unfold tui.handleAction.
    destruct (tui.selectedProject m) as [i |];
      [| intros [= <- <-]; left; split; [reflexivity | simpl; tauto]].
    cbv zeta.
    assert (Hop : forall op, ~ In tui.Quit [tui.performOperation i op]).
    { intros op [H | H]; [discriminate | contradiction]. }
    destruct (tui.selectedIsRunning _).
    + destruct (_ =? 0);
        [intros [= <- <-]; left; split; [reflexivity | apply Hop] |].
      destruct (_ =? 1); intros [= <- <-]; left;
        (split; [reflexivity | first [apply Hop | simpl; tauto]]).
    + destruct (_ =? 0); intros [= <- <-]; left;
        (split; [reflexivity | first [apply Hop | simpl; tauto]]).
  - (* exit confirmation *)
    destruct (tui.cursor m =? 0) eqn:E.
    + intros _. right. split; [reflexivity | now apply Z.eqb_eq].
    + intros [= <- <-]. left. split; [reflexivity | simpl; tauto].
Qed.

Lemma digitOf_one key : tui.digitOf key = Some 1 -> key = "1".
Proof.
  unfold tui.digitOf.
  destruct (String.eqb key "1") eqn:E; [intros _; now apply String.eqb_eq |].
  repeat (destruct (String.eqb key _); [discriminate |]). discriminate.
Qed.

Lemma handleNumberKey_quit m num m' cmds :
  0 <= num <= 9 ->
  tui.handleNumberKey time_Format m num = Some (m', cmds) ->
  quiet m (m', cmds) \/ (tui.screen m = ui.ScreenConfirmExit /\ num = 1).
Proof.
  intros Hnum. unfold tui.handleNumberKey. cbv zeta.
  set (n := if num =? 0 then 10 else num).
  assert (Hn : 1 <= n <= 10 /\ (n = 1 -> num = 1)).
  { subst n. destruct (num =? 0) eqn:E; [lia |]. apply Z.eqb_neq in E. lia. }
  assert (Hpick : forall count base,
             (if (1 <=? n) && (n <=? count)
              then tui.handleEnter time_Format
                     (tui.set_cursor m (ui.wrapInt (ui.wrapInt (base + n) - 1)))
              else Some (m, [])) = Some (m', cmds) ->
             quiet m (m', cmds) \/
             (tui.screen m = ui.ScreenConfirmExit /\
              ui.wrapInt (ui.wrapInt (base + n) - 1) = 0)).
  { intros count base.
    destruct ((1 <=? n) && (n <=? count));
      [| intros [= <- <-]; left; split; [reflexivity | simpl; tauto]].
    intros H. apply handleEnter_quit in H as [H | [H1 H2]]; [now left | now right]. }
  destruct (tui.screen m) eqn:Hscr;
    try (intros [= <- <-]; left; split; [reflexivity | simpl; tauto]);
    try (intros H; apply Hpick in H as [H | [H _]]; [now left | discriminate]).
  - (* update list *)
    destruct ((1 <=? n) && (n <=? _));
      [| intros [= <- <-]; left; split; [reflexivity | simpl; tauto]].
    unfold tui.handleSpace.
    assert (Hs : tui.screen (tui.set_cursor m
                   (ui.wrapInt (ui.wrapInt (tui.viewportOffset m + n) - 1)))
                 = ui.ScreenUpdateList) by exact Hscr.
    rewrite Hs. intros [= <- <-]. left. split; [reflexivity | simpl; tauto].
  - (* exit confirmation *)
    intros H. apply Hpick in H as [H | [_ H]]; [now left |].
    right. split; [reflexivity |].
    rewrite (wrapInt_small (0 + n)) in H by (unfold ui.maxInt; lia).
    rewrite (wrapInt_small (0 + n - 1)) in H by (unfold ui.maxInt; lia).
    apply Hn. lia.
Qed.

(** X26: the shell quits on request only.  A message sets [quitting] or
    hands [tea.Quit] to the runtime only if it is the key [ctrl+c], or, on
    the exit confirmation, [enter] with the cursor on the first line or the
    digit [1]; in particular [q] and [esc] never quit by themselves, and no
    message of a task or of the update check does. *)
Theorem quit_only_on_request (m m' : tui.Model) (msg : tui.Msg)
        (cmds : list tui.Cmd) (w : World) :
  fst (tui.Update time_Format json_MarshalIndent m msg w) = Some (m', cmds) ->
  tui.quitting m' <> tui.quitting m \/ In tui.Quit cmds ->
  msg = tui.KeyMsg "ctrl+c" \/
  (tui.screen m = ui.ScreenConfirmExit /\
   ((msg = tui.KeyMsg "enter" /\ tui.cursor m = 0) \/ msg = tui.KeyMsg "1")).
Proof.
  intros HU Hq.
  assert (Hquiet : quiet m (m', cmds) -> False).
  { intros [H1 H2]. cbn [fst snd] in *. destruct Hq; [congruence | contradiction]. }
  destruct msg as [key | wd ht | text | e | bmsg | | index | index];
    unfold tui.Update in HU.
  - unfold ret in HU. cbn [fst] in HU. unfold tui.handleKey in HU.
    destruct (String.eqb key "ctrl+c") eqn:E0;
      [left; f_equal; now apply String.eqb_eq |].
    destruct (_ || _) in HU.
    { injection HU as Hm. exfalso. apply Hquiet.
      destruct (handleBack_screen m) as (_ & H2 & H3 & _).
      destruct (tui.handleBack m) as [m1 c1]. injection Hm as <- <-.
      cbn [fst snd] in *. split; [exact H3 | rewrite H2; simpl; tauto]. }
    destruct (_ || _) in HU.
    { injection HU as <- <-. exfalso. apply Hquiet. cbn [fst snd].
      split; [| simpl; tauto].
      unfold tui.handleUp. destruct (0 <? tui.cursor m); [| reflexivity].
      cbv zeta. destruct (tui.screen _);
        try reflexivity; destruct (_ <? _); reflexivity. }
    destruct (_ || _) in HU.
    { injection HU as Hm. exfalso. apply Hquiet.
      unfold tui.handleDown, tui.stepDown, tui.listDown in Hm.
      destruct (tui.screen m); injection Hm as <- <-; cbn [fst snd];
        (split; [| simpl; tauto]); try reflexivity;
        try (destruct (_ <? _); reflexivity).
      all: destruct (_ <? _); [| reflexivity]; cbv zeta;
        destruct (_ <=? _); reflexivity. }
    destruct (String.eqb key "enter") eqn:E4.
    { apply String.eqb_eq in E4. subst key.
      apply handleEnter_quit in HU as [H | [H1 H2]]; [contradiction |].
      right. split; [exact H1 |]. left. split; [reflexivity | exact H2]. }
    destruct (_ || _) in HU.
    { injection HU as Hm. exfalso. apply Hquiet.
      unfold tui.handleSpace in Hm.
      destruct (tui.screen m); injection Hm as <- <-; cbn [fst snd];
        (split; [reflexivity | simpl; tauto]). }
    destruct (_ || _) in HU.
    { injection HU as Hm. exfalso. apply Hquiet.
      unfold tui.handleSelectAll in Hm.
      destruct (tui.screen m); try (injection Hm as <- <-; cbn [fst snd];
        (split; [reflexivity | simpl; tauto])).
      destruct (_ =? _); injection Hm as <- <-; cbn [fst snd];
        (split; [reflexivity | simpl; tauto]). }
    destruct (_ || _) in HU.
    { injection HU as Hm. exfalso. apply Hquiet.
      unfold tui.handleRefresh in Hm.
      destruct (tui.screen m); try (injection Hm as <- <-; cbn [fst snd];
        (split; [reflexivity | simpl; tauto])).
      destruct (negb _); injection Hm as <- <-; cbn [fst snd];
        (split; [reflexivity |]); simpl; try tauto.
      intros [H | H]; [discriminate | contradiction]. }
    destruct (tui.digitOf key) as [num |] eqn:Ed.
    + apply handleNumberKey_quit in HU as [H | [H1 H2]];
        [contradiction | | now apply (digitOf_cases _ _ Ed)].
      subst num. apply digitOf_one in Ed. subst key.
      right. split; [exact H1 | now right].
    + injection HU as <- <-. exfalso. apply Hquiet.
      split; [reflexivity | simpl; tauto].
  - injection HU as <- <-. exfalso. apply Hquiet.
    split; [reflexivity | simpl; tauto].
  - unfold bind, ret, tui.refreshSelected in HU. exfalso. apply Hquiet.
    destruct (tui.selectedProject _) as [i |].
    + destruct (_ !! i) as [p |].
      * unfold bind, ret in HU. destruct (UpdateStatus p w) as [[p' e] w'].
        injection HU as <- <-. split; [reflexivity | simpl; tauto].
      * injection HU as <- <-. split; [reflexivity | simpl; tauto].
    + injection HU as <- <-. split; [reflexivity | simpl; tauto].
  - injection HU as <- <-. exfalso. apply Hquiet.
    split; [reflexivity | simpl; tauto].
  - destruct (ui.Update (tui.batch m) bmsg) as [b c0].
    injection HU as <- <-. exfalso. apply Hquiet.
    split; [reflexivity | apply not_Quit_Batch].
  - cbv zeta in HU. unfold bind, ret in HU. exfalso. apply Hquiet.
    destruct (SaveToCache _ _ _ w) as [[e |] w1]; injection HU as <- <-;
      (split; [reflexivity | simpl; tauto]).
  - injection HU as <- <-. exfalso. apply Hquiet.
    split; [reflexivity |]. simpl. intros [H | H]; [discriminate | contradiction].
  - cbv zeta in HU. exfalso. apply Hquiet.
    destruct (_ <? _); injection HU as <- <-;
      (split; [reflexivity |]); simpl;
      (intros [H | H]; [discriminate | contradiction]).
Qed.

End ShellLeaving.

Lemma quit_only_on_request_witness :
  let m := tui.set_screen (tui.NewModel threeProjects cachePath false)
                          ui.ScreenConfirmExit in
  tui.KeyMsg "1" = tui.KeyMsg "ctrl+c" \/
  (tui.screen m = ui.ScreenConfirmExit /\
   ((tui.KeyMsg "1" = tui.KeyMsg "enter" /\ tui.cursor m = 0) \/
    tui.KeyMsg "1" = tui.KeyMsg "1")).
Proof.
  apply (quit_only_on_request (fun _ => "unknown") sampleMarshal
           (tui.set_screen (tui.NewModel threeProjects cachePath false)
                           ui.ScreenConfirmExit)
           (tui.set_quitting
              (tui.set_cursor
                 (tui.set_screen (tui.NewModel threeProjects cachePath false)
                                 ui.ScreenConfirmExit) 0) true)
           (tui.KeyMsg "1") [tui.Quit] deadWorld).
  - reflexivity.
  - right. now left.
Defined.

(** ** The shell: the age of the cache and the update check *)

Lemma oldest_fold (l : list Project.t) :
  forall init,
    let t := fold_left (fun oldestTime p =>
                          if Project.LastUpdated p <? oldestTime
                          then Project.LastUpdated p else oldestTime) l init in
    t <= init /\
    (forall q, q ∈ l -> t <= Project.LastUpdated q) /\
    (t = init \/ exists p, p ∈ l /\ t = Project.LastUpdated p).
Proof.
  induction l as [| a l IH]; intros init; simpl.
  - split; [lia |]. split; [intros q Hq; inversion Hq | now left].
  - destruct (IH (if Project.LastUpdated a <? init
                  then Project.LastUpdated a else init)) as (H1 & H2 & H3).
    simpl in H1, H2, H3.
    destruct (Project.LastUpdated a <? init) eqn:E;
      [apply Z.ltb_lt in E | apply Z.ltb_ge in E].
    + split; [lia |]. split.
      * intros q Hq. apply elem_of_cons in Hq as [-> | Hq]; [exact H1 | now apply H2].
      * right. destruct H3 as [H3 | (p & Hp & H3)].
        -- exists a. split; [apply list_elem_of_here | exact H3].
        -- exists p. split; [now apply list_elem_of_further | exact H3].
    + split; [exact H1 |]. split.
      * intros q Hq. apply elem_of_cons in Hq as [-> | Hq]; [lia | now apply H2].
      * destruct H3 as [H3 | (p & Hp & H3)]; [now left |].
        right. exists p. split; [now apply list_elem_of_further | exact H3].
Qed.

Section ShellCheck.
Variable time_Format : Z -> string.
Variable json_MarshalIndent : list Project.t -> string + string.

(** X27: the cache age shown above the update list is the oldest time
    stamp of the list: for an empty list it reads [unknown]; otherwise it
    is the formatted stamp of a project that no other project is older
    than, or [unknown] when that stamp is the zero time. *)
Theorem calculateCacheAge_oldest (m : tui.Model) :
  (tui.projects m = [] -> tui.calculateCacheAge time_Format m = "unknown") /\
  (tui.projects m <> [] ->
   exists p, p ∈ tui.projects m /\
             (forall q, q ∈ tui.projects m ->
                        Project.LastUpdated p <= Project.LastUpdated q) /\
             tui.calculateCacheAge time_Format m
             = if Project.LastUpdated p =? tui.zeroTime then "unknown"
               else time_Format (Project.LastUpdated p)).
Proof.
  unfold tui.calculateCacheAge. split.
  - intros ->. reflexivity.
  - intros Hne. destruct (tui.projects m) as [| first rest] eqn:E; [contradiction |].
    cbv zeta.
    destruct (oldest_fold (first :: rest) (Project.LastUpdated first))
      as (H1 & H2 & H3).
    cbv zeta in H1, H2, H3.
    set (t := fold_left _ (first :: rest) (Project.LastUpdated first)) in *.
    destruct H3 as [H3 | (p & Hp & H3)].
    + exists first. split; [apply list_elem_of_here |].
      split; [intros q Hq; rewrite <- H3; now apply H2 | now rewrite H3].
    + exists p. split; [exact Hp |].
      split; [intros q Hq; rewrite <- H3; now apply H2 | now rewrite H3].
Qed.

Lemma set_projects_id m : tui.set_projects m (tui.projects m) = m.
Proof. destruct m as [[] ? ? ? ? ? ? ? ? ? ? ? ?]. reflexivity. Qed.

Lemma afterChecked_ignores m ps k b w :
  tui.afterChecked time_Format json_MarshalIndent (tui.set_projects (tui.set_currentCheckIndex (tui.set_checkingUpdates m b) k) ps) w
  = tui.afterChecked time_Format json_MarshalIndent (tui.set_projects m ps) w.
Proof. destruct m as [[] ? ? ? ? ? ? ? ? ? ? ? ?]. reflexivity. Qed.

Lemma afterChecked_ignores_current m ps k w :
  tui.afterChecked time_Format json_MarshalIndent (tui.set_projects (tui.set_currentCheckIndex m k) ps) w
  = tui.afterChecked time_Format json_MarshalIndent (tui.set_projects m ps) w.
Proof. destruct m as [[] ? ? ? ? ? ? ? ? ? ? ? ?]. reflexivity. Qed.

Lemma afterChecked_ignores_checking m ps b w :
  tui.afterChecked time_Format json_MarshalIndent (tui.set_projects (tui.set_checkingUpdates m b) ps) w
  = tui.afterChecked time_Format json_MarshalIndent (tui.set_projects m ps) w.
Proof. destruct m as [[] ? ? ? ? ? ? ? ? ? ? ? ?]. reflexivity. Qed.

Lemma afterChecked_ignores_index m ps ps0 k w :
  tui.afterChecked time_Format json_MarshalIndent (tui.set_projects (tui.set_projects (tui.set_currentCheckIndex m k) ps0) ps) w
  = tui.afterChecked time_Format json_MarshalIndent (tui.set_projects m ps) w.
Proof. destruct m as [[] ? ? ? ? ? ? ? ? ? ? ? ?]. reflexivity. Qed.

Lemma Update_checked m w :
  exists m',
    tui.Update time_Format json_MarshalIndent m tui.updatesCheckedMsg w
    = (Some (m', []), snd (SaveToCache json_MarshalIndent (tui.projects m)
                                       (tui.cacheFile m) w)) /\
    tui.projects m' = tui.projects m /\ tui.checkingUpdates m' = false /\
    tui.currentCheckIndex m' = -1 /\ tui.screen m' = tui.screen m /\
    tui.selectedUpdates m' = tui.selectedUpdates m.
Proof.
  unfold tui.Update. cbv zeta. unfold bind, ret.
  change (tui.projects (tui.set_cacheAge ?x ?a)) with (tui.projects x).
  change (tui.projects (tui.set_currentCheckIndex ?x ?a)) with (tui.projects x).
  change (tui.projects (tui.set_checkingUpdates ?x ?a)) with (tui.projects x).
  change (tui.cacheFile (tui.set_cacheAge ?x ?a)) with (tui.cacheFile x).
  change (tui.cacheFile (tui.set_currentCheckIndex ?x ?a)) with (tui.cacheFile x).
  change (tui.cacheFile (tui.set_checkingUpdates ?x ?a)) with (tui.cacheFile x).
  destruct (SaveToCache json_MarshalIndent (tui.projects m) (tui.cacheFile m) w)
    as [[e |] w1]; cbn [fst snd];
    (eexists; split; [reflexivity |]; repeat split).
Qed.

Lemma afterChecked_spec m w :
  exists m',
    tui.afterChecked time_Format json_MarshalIndent m w = (Some m', snd (SaveToCache json_MarshalIndent (tui.projects m)
                                            (tui.cacheFile m) w)) /\
    tui.projects m' = tui.projects m /\ tui.checkingUpdates m' = false /\
    tui.currentCheckIndex m' = -1 /\ tui.screen m' = tui.screen m /\
    tui.selectedUpdates m' = tui.selectedUpdates m.
Proof.
  destruct (Update_checked m w) as (m' & HU & H).
  exists m'. unfold tui.afterChecked. rewrite HU. split; [reflexivity | exact H].
Qed.

Lemma pump_S fuel m c w :
  tui.pump time_Format json_MarshalIndent (S fuel) m c w
  = (let (r, w1) := tui.runCmd (tui.projects m) c w in
     match snd r with
     | None => (Some (tui.set_projects m (fst r)), w1)
     | Some msg =>
         let (u, w2) := tui.Update time_Format json_MarshalIndent
                                   (tui.set_projects m (fst r)) msg w1 in
         match u with
         | None => (None, w2)
         | Some (m', [c']) => tui.pump time_Format json_MarshalIndent fuel m' c' w2
         | Some (m', _) => (Some m', w2)
         end
     end).
Proof.
  cbn [tui.pump]. unfold bind, ret.
  destruct (tui.runCmd (tui.projects m) c w) as [[ps [msg |]] w1];
    cbn [fst snd]; [| reflexivity].
  destruct (tui.Update time_Format json_MarshalIndent (tui.set_projects m ps) msg w1)
    as [[[m' [| c' [| ? ?]]] |] w2]; reflexivity.
Qed.

(** The last step of the loop, where the command sends
    [updatesCheckedMsg]. *)
Lemma pump_afterChecked fuel m w :
  tui.pump time_Format json_MarshalIndent (S fuel) m (tui.Send tui.updatesCheckedMsg) w
  = tui.afterChecked time_Format json_MarshalIndent m w.
Proof.
  rewrite pump_S. unfold tui.afterChecked. cbn [tui.runCmd]. unfold ret. cbn [fst snd].
  rewrite set_projects_id.
  destruct (Update_checked m w) as (m' & -> & _). reflexivity.
Qed.

Lemma checkAll_cons p rest w :
  tui.checkAll (p :: rest) w
  = (fst (fst (UpdateImageInfo p w))
       :: fst (tui.checkAll rest (snd (UpdateImageInfo p w))),
     snd (tui.checkAll rest (snd (UpdateImageInfo p w)))).
Proof.
  cbn [tui.checkAll]. unfold bind, ret.
  destruct (UpdateImageInfo p w) as [[p' e] w']. cbn [fst snd].
  now destruct (tui.checkAll rest w').
Qed.

Lemma checkAll_length ps :
  forall w, List.length (fst (tui.checkAll ps w)) = List.length ps.
Proof.
  induction ps as [| p rest IH]; intros w; [reflexivity |].
  rewrite checkAll_cons. cbn [fst List.length]. now rewrite IH.
Qed.

(** The loop from the check of one project on: the projects before it are
    done, the others are checked in order. *)
Lemma pump_from (todo : list Project.t) :
  forall done m w fuel,
    tui.projects m = (done ++ todo)%list ->
    todo <> [] ->
    Z.of_nat (List.length (done ++ todo)) <= ui.maxInt ->
    (2 * List.length todo + 1 <= fuel)%nat ->
    tui.pump time_Format json_MarshalIndent fuel m
             (tui.Send (tui.projectCheckProgressMsg (Z.of_nat (List.length done)))) w
    = tui.afterChecked time_Format json_MarshalIndent (tui.set_projects m (done ++ fst (tui.checkAll todo w))%list)
             (snd (tui.checkAll todo w)).
Proof.
  induction todo as [| p rest IH]; intros done m w fuel Hps Hne Hlen Hfuel;
    [contradiction |].
  destruct fuel as [| [| fuel]]; [simpl in Hfuel; lia | simpl in Hfuel; lia |].
  set (i := Z.of_nat (List.length done)).
  (* the command that announces project [i] *)
  rewrite pump_S. cbn [tui.runCmd]. unfold ret. cbn [fst snd].
  rewrite set_projects_id. cbn [tui.Update]. unfold ret.
  (* the check of project [i] *)
  rewrite pump_S. cbn [tui.runCmd].
  change (tui.projects (tui.set_currentCheckIndex m i)) with (tui.projects m).
  rewrite Hps.
  assert (Hguard : (0 <=? i) && (i <? Z.of_nat (List.length (done ++ p :: rest))) = true).
  { apply andb_true_intro. split; [apply Z.leb_le; lia |].
    apply Z.ltb_lt. rewrite length_app. simpl. lia. }
  rewrite Hguard.
  assert (Hlook : ((done ++ p :: rest)%list : list Project.t) !! Z.to_nat i = Some p).
  { subst i. rewrite Nat2Z.id. apply list_lookup_middle. reflexivity. }
  rewrite Hlook. unfold bind, ret.
  rewrite checkAll_cons.
  destruct (UpdateImageInfo p w) as [[p' e] w'] eqn:Eu. cbn [fst snd].
  assert (Hins : <[Z.to_nat i := p']> ((done ++ p :: rest)%list : list Project.t)
                 = (done ++ p' :: rest)%list).
  { subst i. rewrite Nat2Z.id, insert_app_r_alt by lia.
    now rewrite Nat.sub_diag. }
  rewrite Hins.
  set (m3 := tui.set_projects (tui.set_currentCheckIndex m i) (done ++ p' :: rest)%list).
  cbn [tui.Update]. cbv zeta.
  assert (Hnext : ui.wrapInt (i + 1) = i + 1).
  { apply wrapInt_small. rewrite length_app in Hlen. simpl in Hlen.
    unfold ui.maxInt in *. lia. }
  rewrite Hnext.
  assert (Hl3 : tui.lenProjects m3 = i + 1 + Z.of_nat (List.length rest)).
  { subst m3 i. unfold tui.lenProjects.
    change (tui.projects (tui.set_projects ?x ?l)) with l.
    rewrite length_app. simpl. lia. }
  rewrite Hl3.
  destruct rest as [| q rest].
  - (* the last project *)
    assert (E : (i + 1 <? i + 1 + Z.of_nat (List.length (@nil Project.t))) = false)
      by (apply Z.ltb_ge; simpl; lia).
    rewrite E. unfold ret.
    destruct fuel as [| fuel]; [simpl in Hfuel; lia |].
    rewrite pump_afterChecked. subst m3. cbn [tui.checkAll]. unfold ret. cbn [fst snd].
    apply afterChecked_ignores_current.
  - assert (E : (i + 1 <? i + 1 + Z.of_nat (List.length (q :: rest))) = true)
      by (apply Z.ltb_lt; simpl; lia).
    rewrite E. unfold ret.
    assert (Hi : i + 1 = Z.of_nat (List.length (done ++ [p'])%list)).
    { subst i. rewrite length_app. simpl. lia. }
    rewrite Hi.
    rewrite (IH (done ++ [p'])%list m3 w' fuel).
    + subst m3. rewrite <- app_assoc. cbn [app].
      apply afterChecked_ignores_index.
    + subst m3. change (tui.projects (tui.set_projects ?x ?l)) with l.
      now rewrite <- app_assoc.
    + discriminate.
    + rewrite <- app_assoc. cbn [app]. rewrite length_app in *. simpl in *. lia.
    + simpl in *. lia.
Qed.

(** X28: the update check is a sweep.  From the update list, [u] marks
    the shell as checking and starts with project zero; while the check
    runs a second [u] starts nothing.  Left to itself the loop of commands
    and messages checks every project once, in list order, each check on
    the host as the previous one left it; it ends by delivering
    [updatesCheckedMsg], which stores the whole list in the cache and
    leaves the shell not checking, with no project marked as in progress.
    An empty list is swept, too. *)
Theorem update_check_sweep (m : tui.Model) (w : World) (fuel : nat) :
  tui.screen m = ui.ScreenUpdateList ->
  Z.of_nat (List.length (tui.projects m)) <= ui.maxInt ->
  (2 * List.length (tui.projects m) + 3 <= fuel)%nat ->
  let checked := fst (tui.checkAll (tui.projects m) w) in
  let w1 := snd (tui.checkAll (tui.projects m) w) in
  (tui.checkingUpdates m = false ->
   tui.handleRefresh m
   = (tui.set_checkingUpdates m true,
      [tui.Send (tui.projectCheckProgressMsg 0)])) /\
  (tui.checkingUpdates m = true -> tui.handleRefresh m = (m, [])) /\
  exists m',
    tui.pump time_Format json_MarshalIndent fuel (tui.set_checkingUpdates m true)
             (tui.Send (tui.projectCheckProgressMsg 0)) w
    = (Some m',
       snd (SaveToCache json_MarshalIndent checked (tui.cacheFile m) w1)) /\
    tui.projects m' = checked /\
    List.length checked = List.length (tui.projects m) /\
    tui.checkingUpdates m' = false /\ tui.currentCheckIndex m' = -1 /\
    tui.screen m' = ui.ScreenUpdateList /\
    tui.selectedUpdates m' = tui.selectedUpdates m.
Proof.
  intros Hscr Hlen Hfuel checked w1.
  split; [| split].
  - intros Hc. unfold tui.handleRefresh. rewrite Hscr, Hc. reflexivity.
  - intros Hc. unfold tui.handleRefresh. rewrite Hscr, Hc. reflexivity.
  - set (m1 := tui.set_checkingUpdates m true).
    assert (Hgoal : tui.pump time_Format json_MarshalIndent fuel m1
                      (tui.Send (tui.projectCheckProgressMsg 0)) w
                    = tui.afterChecked time_Format json_MarshalIndent (tui.set_projects m checked) w1).
    { destruct (tui.projects m) as [| p rest] eqn:Eps.
      - (* nothing to check *)
        destruct fuel as [| [| [| fuel]]]; try (simpl in Hfuel; lia).
        subst checked w1. cbn [tui.checkAll]. unfold ret. cbn [fst snd].
        rewrite pump_S. cbn [tui.runCmd]. unfold ret. cbn [fst snd].
        rewrite set_projects_id. cbn [tui.Update]. unfold ret.
        rewrite pump_S. cbn [tui.runCmd].
        change (tui.projects (tui.set_currentCheckIndex m1 0)) with (tui.projects m).
        rewrite Eps.
        change ((0 <=? 0) && (0 <? Z.of_nat (List.length (@nil Project.t)))) with false.
        cbv beta iota. unfold ret. cbn [fst snd].
        cbn [tui.Update]. cbv zeta.
        assert (E : (ui.wrapInt (0 + 1)
                     <? tui.lenProjects
                          (tui.set_projects (tui.set_currentCheckIndex m1 0) [])) = false)
          by reflexivity.
        rewrite E. unfold ret.
        rewrite pump_afterChecked.
        subst m1. apply (afterChecked_ignores m [] 0 true w).
      - subst checked w1. rewrite <- Eps.
        etransitivity;
          [apply (pump_from (tui.projects m) [] m1 w fuel) |
           apply afterChecked_ignores_checking].
        + reflexivity.
        + rewrite Eps. discriminate.
        + cbn [app]. rewrite Eps. exact Hlen.
        + rewrite Eps. lia. }
    destruct (afterChecked_spec (tui.set_projects m checked) w1)
      as (m' & Hf & H1 & H2 & H3 & H4 & H5).
    exists m'. rewrite Hgoal, Hf.
    split; [reflexivity |]. split; [exact H1 |].
    split; [apply checkAll_length |]. split; [exact H2 |]. split; [exact H3 |].
    split; [now rewrite H4 | exact H5].
Qed.

End ShellCheck.

Lemma update_check_sweep_witness :
  let m := tui.set_screen (tui.NewModel threeProjects cachePath false)
                          ui.ScreenUpdateList in
  exists m',
    tui.pump (fun _ => "unknown") sampleMarshal 9 (tui.set_checkingUpdates m true)
             (tui.Send (tui.projectCheckProgressMsg 0)) deadWorld
    = (Some m',
       snd (SaveToCache sampleMarshal
              (fst (tui.checkAll (tui.projects m) deadWorld)) (tui.cacheFile m)
              (snd (tui.checkAll (tui.projects m) deadWorld)))) /\
    tui.projects m' = fst (tui.checkAll (tui.projects m) deadWorld) /\
    List.length (fst (tui.checkAll (tui.projects m) deadWorld))
    = List.length (tui.projects m) /\
    tui.checkingUpdates m' = false /\ tui.currentCheckIndex m' = -1 /\
    tui.screen m' = ui.ScreenUpdateList /\
    tui.selectedUpdates m' = tui.selectedUpdates m.
Proof.
  refine (proj2 (proj2 (update_check_sweep (fun _ => "unknown") sampleMarshal
            (tui.set_screen (tui.NewModel threeProjects cachePath false)
                            ui.ScreenUpdateList) deadWorld 9 _ _ _))).
  - reflexivity.
  - vm_compute. discriminate.
  - simpl. lia.
Defined.

(** ** The program *)

Section MainProps.
Variable json_MarshalIndent : list Project.t -> string + string.
Variable json_Unmarshal : string -> list Project.t + string.

(** X29: how [main] gets its projects.  A cache that loads is used as it
    is: no command runs and no file is written.  Otherwise the directory
    is searched; a failed search ends the program without touching the
    cache, and the projects of a successful one are returned whether or
    not they could be stored, the cache being written exactly as
    [SaveToCache] writes it. *)
Theorem loadProjects_outcomes (tree : filepath.Node) (searchDir cacheFile : string)
        (w : World) :
  let loaded := LoadFromCache json_Unmarshal cacheFile cacheMaxAge w in
  let found := FindProjects tree searchDir defaultMaxDepth (snd loaded) in
  let run := main.loadProjects json_MarshalIndent json_Unmarshal
                               tree searchDir cacheFile w in
  match fst loaded with
  | inl projects =>
      run = (inl projects, snd loaded) /\
      w_log (snd run) = w_log w /\ w_files (snd run) = w_files w
  | inr _ =>
      match fst found with
      | inr e => run = (inr e, snd found) /\ w_files (snd run) = w_files w
      | inl projects =>
          run = (inl projects,
                 snd (SaveToCache json_MarshalIndent projects cacheFile (snd found))) /\
          projects <> [] /\
          forall path, path <> cacheFile ->
                       w_files (snd run) !! path = w_files w !! path
      end
  end.
Proof.
  intros loaded found run. subst loaded found run.
  unfold main.loadProjects, bind.
  destruct (LoadFromCache_keeps json_Unmarshal cacheFile cacheMaxAge w)
    as (Hf & Hl & _).
  destruct (LoadFromCache json_Unmarshal cacheFile cacheMaxAge w)
    as [[projects | e] w1] eqn:El; cbn [fst snd] in *.
  - split; [reflexivity |]. split; assumption.
  - destruct (FindProjects_found tree searchDir defaultMaxDepth w1)
      as [Hran Hfound].
    destruct (FindProjects tree searchDir defaultMaxDepth w1)
      as [[projects | e2] w2] eqn:Ef; cbn [fst snd] in *.
    + destruct (Hfound projects eq_refl) as [Hne _].
      destruct (SaveToCache_keeps json_MarshalIndent projects cacheFile w2)
        as (_ & _ & Hother).
      destruct (SaveToCache json_MarshalIndent projects cacheFile w2) as [r w3].
      unfold ret. cbn [fst snd] in *. split; [reflexivity |]. split; [exact Hne |].
      intros path Hp. rewrite (Hother path Hp).
      destruct Hran as (_ & Hfiles & _). now rewrite Hfiles, Hf.
    + unfold ret. cbn [fst snd]. split; [reflexivity |].
      destruct Hran as (_ & Hfiles & _). now rewrite Hfiles, Hf.
Qed.


Lemma exec_sameHistory c w w' :
  sameHistory w w' ->
  fst (exec c w) = fst (exec c w') /\ sameHistory (snd (exec c w)) (snd (exec c w')).
Proof.
  intros [Hl Ho]. unfold exec, sameHistory. simpl. rewrite Hl, Ho. auto.
Qed.

Lemma GetImages_sameHistory p w w' :
  sameHistory w w' ->
  fst (GetImages p w) = fst (GetImages p w') /\
  sameHistory (snd (GetImages p w)) (snd (GetImages p w')).
Proof.
  intros [Hl Ho]. unfold GetImages, bind, exec, ret, sameHistory. simpl.
  rewrite Hl, Ho.
  destruct (failed _); simpl; [| auto].
  destruct (res_err _); simpl; auto.
Qed.

Lemma checkImage_sameHistory imageName p h w w' :
  sameHistory w w' ->
  fst (checkImage imageName p h w) = fst (checkImage imageName p h w') /\
  sameHistory (snd (checkImage imageName p h w)) (snd (checkImage imageName p h w')).
Proof.
  intros [Hl Ho]. unfold checkImage, bind, exec, ret, sameHistory. simpl.
  rewrite Hl, Ho.
  destruct (failed _ || _); simpl; [auto |].
  destruct (negb (failed _)); simpl; [auto |].
  destruct (res_deadline _); simpl; auto.
Qed.

Lemma checkImages_sameHistory images :
  forall p h w w',
    sameHistory w w' ->
    fst (checkImages images p h w) = fst (checkImages images p h w') /\
    sameHistory (snd (checkImages images p h w)) (snd (checkImages images p h w')).
Proof.
  induction images as [| a rest IH]; intros p h w w' Hs; [now split |].
  rewrite !checkImages_cons.
  destruct (checkImage_sameHistory a p h w w' Hs) as [H1 H2].
  rewrite H1. now apply IH.
Qed.

Lemma UpdateImageInfo_sameHistory p w w' :
  sameHistory w w' ->
  fst (UpdateImageInfo p w) = fst (UpdateImageInfo p w') /\
  sameHistory (snd (UpdateImageInfo p w)) (snd (UpdateImageInfo p w')).
Proof.
  intros Hs. unfold UpdateImageInfo, bind.
  destruct (GetImages_sameHistory (ensureInfo p) w w' Hs) as [H1 H2].
  destruct (GetImages (ensureInfo p) w) as [[p1 res] w1].
  destruct (GetImages (ensureInfo p) w') as [[p1' res'] w1'].
  cbn [fst snd] in H1, H2. injection H1 as <- <-.
  destruct res as [images | e]; [| now split].
  destruct (checkImages_sameHistory images p1 false w1 w1' H2) as [H3 H4].
  destruct (checkImages images p1 false w1) as [[p2 h2] w2].
  destruct (checkImages images p1 false w1') as [[p2' h2'] w2'].
  cbn [fst snd] in H3, H4. injection H3 as <- <-. now split.
Qed.

Lemma SaveToCache_sameHistory projects cacheFile w :
  sameHistory (snd (SaveToCache json_MarshalIndent projects cacheFile w)) w.
Proof.
  destruct (SaveToCache_keeps json_MarshalIndent projects cacheFile w)
    as (Hl & Ho & _).
  now split.
Qed.

Lemma updateCache_checkAll (todo : list Project.t) (cacheFile : string) :
  forall done w w',
    sameHistory w w' ->
    fst (main.updateCache json_MarshalIndent done todo cacheFile w)
    = (done ++ fst (tui.checkAll todo w'))%list /\
    sameHistory (snd (main.updateCache json_MarshalIndent done todo cacheFile w))
                (snd (tui.checkAll todo w')).
Proof.
  induction todo as [| p rest IH]; intros done w w' Hs.
  - simpl. unfold ret. cbn [fst snd]. now rewrite app_nil_r.
  - rewrite checkAll_cons. cbn [main.updateCache fst snd]. unfold bind.
    destruct (UpdateImageInfo_sameHistory p w w' Hs) as [H1 H2].
    destruct (UpdateImageInfo p w) as [[p' e] w1].
    destruct (UpdateImageInfo p w') as [[p'' e'] w1'].
    cbn [fst snd] in *. injection H1 as <- <-.
    pose proof (SaveToCache_sameHistory (done ++ p' :: rest)%list cacheFile w1) as H3.
    destruct (SaveToCache json_MarshalIndent (done ++ p' :: rest)%list cacheFile w1)
      as [r w2]. cbn [snd] in H3.
    destruct (IH (done ++ [p'])%list w2 w1') as [H4 H5].
    { destruct H3 as [A B], H2 as [C D]. split; congruence. }
    rewrite H4. split; [now rewrite <- app_assoc | exact H5].
Qed.

(** X30: the cache update mode checks every project once, in list order,
    and stores the whole list after each one.  The stores do not disturb
    the checks: the projects it ends with, and the commands it has run,
    are those of the update check of the interactive shell on the same
    host. *)
Theorem updateCache_same_as_sweep (projects : list Project.t) (cacheFile : string)
        (w : World) :
  let run := main.updateCache json_MarshalIndent [] projects cacheFile w in
  fst run = fst (tui.checkAll projects w) /\
  List.length (fst run) = List.length projects /\
  w_log (snd run) = w_log (snd (tui.checkAll projects w)).
Proof.
  destruct (updateCache_checkAll projects cacheFile [] w w (conj eq_refl eq_refl))
    as [H1 [H2 _]].
  cbv zeta. rewrite H1. cbn [app].
  split; [reflexivity |]. split; [apply checkAll_length | exact H2].
Qed.

End MainProps.
